(** * PII-Redactor: the redaction pipeline of [src/index.js]

    A shallow embedding of the [POST /redact] handler: the five detector
    patterns of [PATTERNS] as regular-expression syntax trees, the
    backtracking matcher that gives them their ECMAScript meaning, the
    global [String.prototype.replace] with a callback, the helpers
    [applyRedaction] and [isValidCreditCard], and the request handler with
    its JSON responses. *)

From Stdlib Require Import List NArith ZArith Bool String Ascii Lia PeanoNat.
Import ListNotations.

Set Implicit Arguments.
Set Warnings "-register-all,-abstract-large-number".
Local Open Scope string_scope.
Local Open Scope list_scope.

(** ** Strings

    A JavaScript string is a sequence of UTF-16 code units; [text.length]
    counts code units. *)

Definition char := N.
Definition text := list char.

Definition code (a : ascii) : char := N_of_ascii a.

(** The code units of an ASCII literal of the source. *)
Definition str (s : string) : text := map code (list_ascii_of_string s).

Definition in_range (lo hi : ascii) (c : char) : bool :=
  (code lo <=? c)%N && (c <=? code hi)%N.

Definition is_char (a : ascii) (c : char) : bool := (c =? code a)%N.

(** [one_of "01"] is the class [[01]]. *)
Definition one_of (s : string) (c : char) : bool :=
  existsb (fun a => is_char a c) (list_ascii_of_string s).

(** [\d] and [[0-9]]. *)
Definition is_digit (c : char) : bool := in_range "0" "9" c.

Definition is_alpha (c : char) : bool := in_range "A" "Z" c || in_range "a" "z" c.

(** [\w], the word characters that [\b] looks at: [[A-Za-z0-9_]]. *)
Definition is_word (c : char) : bool := is_alpha c || is_digit c || is_char "_" c.

(** [\s]: ECMAScript WhiteSpace and LineTerminator code points. *)
Definition is_space (c : char) : bool :=
  ((9 <=? c) && (c <=? 13) || (c =? 32) || (c =? 160) || (c =? 5760)
   || (8192 <=? c) && (c <=? 8202) || (c =? 8232) || (c =? 8233)
   || (c =? 8239) || (c =? 8287) || (c =? 12288) || (c =? 65279))%N.

(** ** Regular expressions

    The fragment of ECMAScript pattern syntax that [PATTERNS] uses.  The
    capture groups of [PHONE_US] are never read (the replace callback takes
    the whole match only), so groups are not recorded. *)

Inductive regex : Type :=
| Empty
| Chr (p : char -> bool)                         (* a class, or a literal *)
| WordB                                          (* \b *)
| NegLook (r : regex)                            (* (?!r) *)
| Seq (r1 r2 : regex)
| Alt (r1 r2 : regex)                            (* r1|r2 *)
| Rep (min : nat) (max : option nat) (greedy : bool) (r : regex).

Declare Scope regex_scope.
Delimit Scope regex_scope with re.
Bind Scope regex_scope with regex.
Infix ";;" := Seq (right associativity, at level 45) : regex_scope.
Infix "<|>" := Alt (right associativity, at level 55) : regex_scope.

Definition lit (a : ascii) : regex := Chr (is_char a).
Definition opt (r : regex) : regex := Rep 0 (Some 1) true r.           (* r? *)
Definition plus (r : regex) : regex := Rep 1 None true r.              (* r+ *)
Definition star_lazy (r : regex) : regex := Rep 0 None false r.        (* r*? *)
Definition times (n : nat) (r : regex) : regex := Rep n (Some n) true r. (* r{n} *)
Definition at_least (n : nat) (r : regex) : regex := Rep n None true r.  (* r{n,} *)
Definition between (n k : nat) (r : regex) : regex := Rep n (Some k) true r. (* r{n,k} *)

Definition digit : regex := Chr is_digit.

(** ** The matcher

    A position in the subject string: the code unit just before it (what
    [\b] needs to look back at) and the code units from it on. *)

Record cursor : Type := Cursor { prev : option char; rest : text }.

Definition cont := cursor -> option cursor.

Definition word_before (x : cursor) : bool :=
  match prev x with Some c => is_word c | None => false end.

Definition word_after (x : cursor) : bool :=
  match rest x with c :: _ => is_word c | [] => false end.

(** [\b] holds where exactly one of the two neighbours is a word character. *)
Definition at_boundary (x : cursor) : bool := xorb (word_before x) (word_after x).

Definition same_place (x y : cursor) : bool :=
  (List.length (rest y) =? List.length (rest x))%nat.

Section Repeat.
Variable body : cont -> cont.
Variable greedy : bool.
Variable c : cont.

(** RepeatMatcher of ECMA-262: [min] iterations are compulsory; once
    they are done an iteration that consumes nothing is refused; a
    greedy quantifier tries one more iteration before leaving, a lazy
    one tries leaving first. *)
Fixpoint RepeatMatcher (max min : nat) (x : cursor) {struct max} : option cursor :=
  match max with
  | O => c x
  | S max' =>
      let d : cont := fun y =>
        if (min =? 0)%nat && same_place x y then None
        else RepeatMatcher max' (Nat.pred min) y in
      if negb (min =? 0)%nat then body d x
      else if greedy then
        match body d x with Some z => Some z | None => c x end
      else
        match c x with Some z => Some z | None => body d x end
  end.
End Repeat.

(** The matcher of a pattern, in continuation-passing style as in
    ECMA-262: [m r k x] matches [r] at [x] and hands the end position to
    [k]; a failure of [k] makes the matcher backtrack.  An unbounded
    quantifier is run with [min + length (rest x)] as its bound: past the
    compulsory iterations each iteration consumes a code unit, so the
    bound is never the reason an iteration is refused
    ([unbounded_bound_exact] below). *)
Fixpoint m (r : regex) (k : cont) (x : cursor) {struct r} : option cursor :=
  match r with
  | Empty => k x
  | Chr p =>
      match rest x with
      | ch :: s => if p ch then k (Cursor (Some ch) s) else None
      | [] => None
      end
  | WordB => if at_boundary x then k x else None
  | NegLook r' =>
      match m r' Some x with Some _ => None | None => k x end
  | Seq r1 r2 => m r1 (m r2 k) x
  | Alt r1 r2 =>
      match m r1 k x with Some z => Some z | None => m r2 k x end
  | Rep min max greedy r' =>
      let bound := match max with
                   | Some n => n
                   | None => (min + List.length (rest x))%nat
                   end in
      RepeatMatcher (m r') greedy k bound min x
  end.

(** One attempt of the pattern at one position: the end of the match. *)
Definition match_at (r : regex) (x : cursor) : option cursor := m r Some x.

(** ** [String.prototype.replace] with a global pattern and a callback

    The callback may update a state of its own (the closure's [count]).
    The scan tries the pattern at every position from left to right; after
    a match it resumes at the end of the match, and one position further
    when the match is empty. *)

Section Replace.
Variable St : Type.
Variable re : regex.
Variable fn : text -> St -> text * St.

(** [skip] is the number of code units of the last match still ahead. *)
Fixpoint replace_from (p : option char) (s : text) (skip : nat) (st : St)
  {struct s} : text * St :=
  match s with
  | [] =>
      match skip with
      | S _ => ([], st)
      | O =>
          match match_at re (Cursor p []) with
          | Some _ => fn [] st
          | None => ([], st)
          end
      end
  | ch :: s' =>
      match skip with
      | S n => replace_from (Some ch) s' n st
      | O =>
          match match_at re (Cursor p s) with
          | None =>
              let '(out, st') := replace_from (Some ch) s' 0 st in
              (ch :: out, st')
          | Some y =>
              let n := (List.length s - List.length (rest y))%nat in
              let '(new, st1) := fn (firstn n s) st in
              match n with
              | O =>
                  let '(out, st2) := replace_from (Some ch) s' 0 st1 in
                  (new ++ ch :: out, st2)
              | S n' =>
                  let '(out, st2) := replace_from (Some ch) s' n' st1 in
                  (new ++ out, st2)
              end
          end
      end
  end.

Definition replace (s : text) (st : St) : text * St := replace_from None s 0 st.
End Replace.

(** ** [PATTERNS] *)

Module PATTERNS.

(** [(?:25[0-5]|2[0-4][0-9]|[01]?[0-9][0-9]?)] *)
Definition octet : regex :=
  (lit "2" ;; lit "5" ;; Chr (in_range "0" "5")
   <|> lit "2" ;; Chr (in_range "0" "4") ;; Chr (in_range "0" "9")
   <|> opt (Chr (one_of "01")) ;; Chr (in_range "0" "9") ;; opt (Chr (in_range "0" "9")))%re.

Definition IPV4 : regex :=
  (WordB ;; times 3 (octet ;; lit ".") ;; octet ;; WordB)%re.

Definition email_local (c : char) : bool := is_alpha c || is_digit c || one_of "._%+-" c.
Definition email_domain (c : char) : bool := is_alpha c || is_digit c || one_of ".-" c.

Definition EMAIL : regex :=
  (WordB ;; plus (Chr email_local) ;; lit "@" ;; plus (Chr email_domain)
   ;; lit "." ;; at_least 2 (Chr is_alpha) ;; WordB)%re.

Definition SSN_US : regex :=
  (WordB
   ;; NegLook (lit "0" ;; lit "0" ;; lit "0"
               <|> lit "6" ;; lit "6" ;; lit "6"
               <|> lit "9" ;; times 2 digit)
   ;; opt (lit "-") ;; times 3 digit ;; lit "-"
   ;; NegLook (lit "0" ;; lit "0")
   ;; opt (lit "-") ;; times 2 digit ;; lit "-"
   ;; NegLook (lit "0" ;; lit "0" ;; lit "0" ;; lit "0")
   ;; opt (lit "-") ;; times 4 digit ;; WordB)%re.

Definition CREDIT_CARD : regex :=
  (WordB ;; between 13 19 (digit ;; star_lazy (Chr (one_of " -"))) ;; WordB)%re.

(** [[-.\s]] *)
Definition phone_sep (c : char) : bool := one_of "-." c || is_space c.

Definition PHONE_US : regex :=
  (WordB
   ;; opt (opt (lit "+") ;; lit "1" ;; opt (Chr phone_sep))
   ;; opt (lit "(") ;; times 3 (Chr (in_range "0" "9")) ;; opt (lit ")")
   ;; opt (Chr phone_sep) ;; times 3 (Chr (in_range "0" "9"))
   ;; opt (Chr phone_sep) ;; times 4 (Chr (in_range "0" "9")) ;; WordB)%re.

End PATTERNS.

(** ** JavaScript objects and JSON values *)

(** An object used as a map: its own properties in insertion order. *)
Definition object (V : Type) : Type := list (string * V).

Fixpoint get (V : Type) (key : string) (o : object V) : option V :=
  match o with
  | [] => None
  | (k, v) :: o' => if String.eqb k key then Some v else get key o'
  end.

(** [o[key] = v]: an existing property keeps its place, a new one goes last. *)
Fixpoint set (V : Type) (key : string) (v : V) (o : object V) : object V :=
  match o with
  | [] => [(key, v)]
  | (k, w) :: o' => if String.eqb k key then (k, v) :: o' else (k, w) :: set key v o'
  end.

(** JSON values.  Numbers are integers here: the handler writes only
    counts and lengths, and reads no number. *)
Inductive json : Type :=
| JNull
| JBool (b : bool)
| JNum (n : Z)
| JStr (s : text)
| JArr (items : list json)
| JObj (fields : object json).

Definition truthy (v : option json) : bool :=
  match v with
  | None => false                                   (* undefined *)
  | Some JNull => false
  | Some (JBool b) => b
  | Some (JNum n) => negb (n =? 0)%Z
  | Some (JStr s) => negb (List.length s =? 0)%nat
  | Some (JArr _) | Some (JObj _) => true
  end.

Definition typeof (v : option json) : string :=
  match v with
  | None => "undefined"
  | Some (JBool _) => "boolean"
  | Some (JNum _) => "number"
  | Some (JStr _) => "string"
  | Some JNull | Some (JArr _) | Some (JObj _) => "object"
  end.

(** ** The handler of [POST /redact] *)

Definition MAX_INPUT_LENGTH : nat := 1048576.

(** The state the two helpers close over. *)
Record run : Type := Run {
  redactedText : text;
  totalRedactions : nat;
  redactionMap : object nat
}.

(** The callback [applyRedaction] hands to [replace]; its state is [count]. *)
Definition redaction_callback (placeholder : text) (validator : option (text -> bool))
  (mt : text) (count : nat) : text * nat :=
  match validator with
  | Some valid => if negb (valid mt) then (mt, count) else (placeholder, S count)
  | None => (placeholder, S count)
  end.

Definition applyRedaction (pattern : regex) (placeholder : text) (type : string)
  (validator : option (text -> bool)) (st : run) : run :=
  let '(out, count) :=
    replace pattern (redaction_callback placeholder validator) (redactedText st) 0 in
  {| redactedText := out;
     redactionMap :=
       set type (match get type (redactionMap st) with Some n => n | None => 0 end + count)
           (redactionMap st);
     totalRedactions := totalRedactions st + count |}.

(** [parseInt(ch, 10)] of one code unit; [None] is NaN. *)
Definition parseInt (ch : char) : option Z :=
  if is_digit ch then Some (Z.of_N ch - 48)%Z else None.

(** One turn of the loop of [isValidCreditCard] over [(sum, isEven)]. *)
Definition luhn_turn (st : Z * bool) (ch : char) : Z * bool :=
  let '(sum, isEven) := st in
  let digit := parseInt ch in
  let digit :=
    if isEven then
      let digit := option_map (Z.mul 2) digit in
      match digit with
      | Some d => if (d >? 9)%Z then Some (d - 9)%Z else digit
      | None => digit
      end
    else digit in
  ((sum + 2)%Z, negb isEven).

Definition isValidCreditCard (number : text) : bool :=
  let digits :=
    fst (replace (Chr (fun c => is_space c || is_char "-" c))
                 (fun _ (u : unit) => ([], u)) number tt) in
  let '(sum, _) := fold_left luhn_turn (rev digits) (0%Z, false) in
  (sum mod 10 =? 0)%Z.

Definition placeholder : text := str "[REDACTED]".

(** The five [applyRedaction] calls, in the order of the source. *)
Definition pipeline (st : run) : run :=
  let st := applyRedaction PATTERNS.IPV4 placeholder "ipv4" None st in
  let st := applyRedaction PATTERNS.EMAIL placeholder "email" None st in
  let st := applyRedaction PATTERNS.SSN_US placeholder "ssn_us" None st in
  let st := applyRedaction PATTERNS.PHONE_US placeholder "phone_us" None st in
  applyRedaction PATTERNS.CREDIT_CARD placeholder "credit_card" (Some isValidCreditCard) st.

Definition redact (input : text) : run :=
  pipeline {| redactedText := input; totalRedactions := 0; redactionMap := [] |}.

Definition num (n : nat) : json := JNum (Z.of_nat n).

Definition counts_json (o : object nat) : json :=
  JObj (map (fun kv => (fst kv, num (snd kv))) o).

(** What the handler does: a response with its status, or an exception
    that the handler does not catch. *)
Inductive outcome : Type :=
| Respond (status : nat) (payload : json)
| Throw.

(** [const { text } = body]: [None] is [undefined]. *)
Definition text_of (body : json) : option (option json) :=
  match body with
  | JNull => None                                   (* TypeError *)
  | JObj fields => Some (get "text" fields)
  | _ => Some None
  end.

Definition invalid_body : outcome :=
  Respond 400 (JObj [
    ("success", JBool false);
    ("error", JStr (str "Invalid or missing JSON body"));
    ("code", JStr (str "INVALID_BODY"));
    ("hint", JStr (str "Ensure request body is valid JSON with a 'text' property: {"
                   ++ 34%N :: str "text" ++ 34%N :: str ": " ++ 34%N :: str "Your text here"
                   ++ 34%N :: str "}"))]).

Definition invalid_input : outcome :=
  Respond 400 (JObj [
    ("success", JBool false);
    ("error", JStr (str "Missing or invalid 'text'. Expected a non-empty string."));
    ("code", JStr (str "INVALID_INPUT"))]).

Definition input_too_large (received : nat) : outcome :=
  Respond 413 (JObj [
    ("success", JBool false);
    ("error", JStr (str "Input exceeds maximum length of 1048576 characters."));
    ("code", JStr (str "INPUT_TOO_LARGE"));
    ("max_length", num MAX_INPUT_LENGTH);
    ("received_length", num received)]).

Definition success (st : run) : outcome :=
  Respond 200 (JObj [
    ("success", JBool true);
    ("result", JStr (redactedText st));
    ("metadata", JObj [
      ("redactions_count", num (totalRedactions st));
      ("redactions_by_type", counts_json (redactionMap st))])]).

(** [request] is what [c.req.json()] yields, [None] when it rejects. *)
Definition handler (request : option json) : outcome :=
  match request with
  | None => invalid_body
  | Some body =>
      match text_of body with
      | None => Throw
      | Some field =>
          if negb (truthy field) || negb (String.eqb (typeof field) "string") then
            invalid_input
          else
            match field with
            | Some (JStr input) =>
                if (MAX_INPUT_LENGTH <? List.length input)%nat then
                  input_too_large (List.length input)
                else
                  success (redact input)
            | _ => Throw                            (* not reached: the field is a string *)
            end
      end
  end.

(** Reading a response: a property of the payload, and of its [metadata]. *)
Definition field (key : string) (o : outcome) : option json :=
  match o with
  | Respond _ (JObj fields) => get key fields
  | _ => None
  end.

Definition metadata_field (key : string) (o : outcome) : option json :=
  match field "metadata" o with
  | Some (JObj fields) => get key fields
  | _ => None
  end.

Definition status_of (o : outcome) : option nat :=
  match o with
  | Respond status _ => Some status
  | Throw => None
  end.

(** ** The handler of [GET /stats] *)

Definition patterns_supported : list string :=
  ["ipv4"; "email"; "ssn_us"; "credit_card"; "phone_us"].

Definition stats : outcome :=
  Respond 200 (JObj [
    ("service", JStr (str "piiRedactor"));
    ("version", JStr (str "1.0.0"));
    ("patterns_supported", JArr (map (fun id => JStr (str id)) patterns_supported));
    ("limitations",
     JStr (str "See https://github.com/TheOnliestMattastic/piiRedactor#limitations"))]).

(** ** Reference definitions that follow the specification's words *)

(** The Luhn checksum as the specification describes it: separators
    stripped, digits taken from the right, every second one doubled and
    reduced by 9 when above 9, the whole summed; valid when the sum is a
    multiple of 10. *)
Definition spec_luhn_digit (doubled : bool) (ch : char) : Z :=
  let d := (Z.of_N ch - 48)%Z in
  if doubled then (if (2 * d >? 9)%Z then 2 * d - 9 else 2 * d)%Z else d.

Fixpoint spec_luhn_sum (from_right : text) (doubled : bool) : Z :=
  match from_right with
  | [] => 0%Z
  | ch :: more => (spec_luhn_digit doubled ch + spec_luhn_sum more (negb doubled))%Z
  end.

Definition spec_luhn_valid (number : text) : bool :=
  let digits := filter (fun c => negb (is_char " " c || is_char "-" c)) number in
  (spec_luhn_sum (rev digits) false mod 10 =? 0)%Z.

(** ** What a match is

    [Matches r x y]: the pattern [r] can match from [x] to [y].  The
    matcher only ever answers with such a [y]. *)

Fixpoint iter (R : cursor -> cursor -> Prop) (n : nat) (x y : cursor) : Prop :=
  match n with
  | O => y = x
  | S n' => exists z, R x z /\ iter R n' z y
  end.

Fixpoint Matches (r : regex) (x y : cursor) : Prop :=
  match r with
  | Empty => y = x
  | Chr p => exists ch s, rest x = ch :: s /\ p ch = true /\ y = Cursor (Some ch) s
  | WordB => y = x /\ at_boundary x = true
  | NegLook r' => y = x /\ match_at r' x = None
  | Seq r1 r2 => exists z, Matches r1 x z /\ Matches r2 z y
  | Alt r1 r2 => Matches r1 x y \/ Matches r2 x y
  | Rep min max _ r' =>
      exists n, (min <= n)%nat
                /\ match max with Some k => (n <= k)%nat | None => True end
                /\ iter (Matches r') n x y
  end.

(** A quantifier [{min,max}] with [max < min] is a syntax error. *)
Fixpoint well_formed (r : regex) : bool :=
  match r with
  | Empty | Chr _ | WordB => true
  | NegLook r' => well_formed r'
  | Seq r1 r2 | Alt r1 r2 => well_formed r1 && well_formed r2
  | Rep min max _ r' =>
      match max with Some k => (min <=? k)%nat | None => true end && well_formed r'
  end.

(** The least number of code units a match of [r] consumes. *)
Fixpoint min_len (r : regex) : nat :=
  match r with
  | Empty | WordB | NegLook _ => 0
  | Chr _ => 1
  | Seq r1 r2 => min_len r1 + min_len r2
  | Alt r1 r2 => Nat.min (min_len r1) (min_len r2)
  | Rep min _ _ r' => min * min_len r'
  end.

(** Every iteration of every quantifier consumes something. *)
Fixpoint productive (r : regex) : bool :=
  match r with
  | Empty | Chr _ | WordB => true
  | NegLook r' => productive r'
  | Seq r1 r2 | Alt r1 r2 => productive r1 && productive r2
  | Rep _ _ _ r' => (1 <=? min_len r')%nat && productive r'
  end.

(** Some class of [r] (outside its lookaheads) accepts [ch]. *)
Fixpoint may_read (r : regex) (ch : char) : bool :=
  match r with
  | Empty | WordB | NegLook _ => false
  | Chr p => p ch
  | Seq r1 r2 | Alt r1 r2 => may_read r1 ch || may_read r2 ch
  | Rep _ _ _ r' => may_read r' ch
  end.

(** The pattern opens, and closes, with [\b]. *)
Fixpoint starts_with_boundary (r : regex) : bool :=
  match r with
  | WordB => true
  | Seq r1 _ => starts_with_boundary r1
  | _ => false
  end.

Fixpoint ends_with_boundary (r : regex) : bool :=
  match r with
  | WordB => true
  | Seq _ r2 => ends_with_boundary r2
  | _ => false
  end.

(** The code unit before the position reached after reading [u] from a
    position that had [p] before it. *)
Definition last_of (p : option char) (u : text) : option char :=
  match rev u with
  | [] => p
  | ch :: _ => Some ch
  end.

(** The pattern matches at no position of [s]. *)
Definition matches_nowhere (r : regex) (s : text) : Prop :=
  forall u v, s = u ++ v -> match_at r (Cursor (last_of None u) v) = None.

(** The value of a run of decimal digits. *)
Definition decimal (o : text) : N :=
  fold_left (fun acc ch => 10 * acc + (ch - 48))%N o 0%N.

(** One to three decimal digits whose value is at most 255. *)
Definition octet_ok (o : text) : bool :=
  forallb is_digit o && (1 <=? List.length o)%nat && (List.length o <=? 3)%nat
  && (decimal o <=? 255)%N.

Definition sum_values (o : object nat) : nat :=
  fold_right (fun kv acc => snd kv + acc)%nat 0%nat o.

(** ** Notions the proofs are stated with *)

(** [y] is reached from [x] by reading [u]. *)
Definition reads (x : cursor) (u : text) (y : cursor) : Prop :=
  rest x = u ++ rest y /\ prev y = last_of (prev x) u.

Definition word_opt (o : option char) : bool :=
  match o with Some ch => is_word ch | None => false end.

Definition head_word (s : text) : bool :=
  match s with ch :: _ => is_word ch | [] => false end.

Definition portable (r : regex) : Prop :=
  forall q q' a w tl tl',
  word_opt q = word_opt q' ->
  head_word tl = head_word tl' ->
  Matches r (Cursor (last_of q a) (w ++ tl)) (Cursor (last_of q (a ++ w)) tl) ->
  Matches r (Cursor (last_of q' a) (w ++ tl')) (Cursor (last_of q' (a ++ w)) tl').

(** The lookahead [la] decides on the next [k] code units alone. *)
Definition look_local (la : regex) (k : nat) : Prop :=
  forall p p' s t t',
  (k <= List.length s)%nat ->
  match_at la (Cursor p (s ++ t)) = None -> match_at la (Cursor p' (s ++ t')) = None.

(** [matches_nowhere], decided position by position. *)
Fixpoint nowhere_from (r : regex) (p : option char) (s : text) : bool :=
  match match_at r (Cursor p s) with
  | Some _ => false
  | None =>
      match s with
      | [] => true
      | ch :: s' => nowhere_from r (Some ch) s'
      end
  end.

(** What the scan and the idempotence argument need of a detector's
    pattern. *)
Record detector_pattern (r : regex) : Prop := {
  dp_well_formed : well_formed r = true;
  dp_productive : productive r = true;
  dp_portable : portable r;
  dp_nonempty : (1 <= min_len r)%nat;
  dp_no_open : may_read r (code "[") = false;
  dp_no_close : may_read r (code "]") = false;
  dp_starts : starts_with_boundary r = true;
  dp_ends : ends_with_boundary r = true;
  dp_placeholder : nowhere_from r None placeholder = true
}.

Definition open_bracket : char := code "[".
Definition close_bracket : char := code "]".

Definition no_bracket (ch : char) : Prop := ch <> open_bracket /\ ch <> close_bracket.

Definition dot : char := code ".".

(** The validator's verdict on a match; no validator accepts all. *)
Definition accepted (validator : option (text -> bool)) (u : text) : bool :=
  match validator with Some valid => valid u | None => true end.

(** The text a scan from [p] over [s] writes, and the matches it counts. *)
Definition out (re : regex) (validator : option (text -> bool))
  (p : option char) (s : text) : text :=
  fst (replace_from re (redaction_callback placeholder validator) p s 0 0%nat).

Definition hits (re : regex) (validator : option (text -> bool))
  (p : option char) (s : text) : nat :=
  snd (replace_from re (redaction_callback placeholder validator) p s 0 0%nat).

(** [r] matches at no position of [t], when [q] stands before [t]. *)
Definition quiet (r : regex) (q : option char) (t : text) : Prop :=
  forall a b, t = a ++ b -> match_at r (Cursor (last_of q a) b) = None.

(** How the code unit before the output relates to the one before the
    input: of the same kind, or not a word character and followed by none. *)
Definition compat (q p : option char) (s : text) : Prop :=
  word_opt q = word_opt p \/ (word_opt q = false /\ head_word s = false).

Definition cc_sep (ch : char) : bool := one_of " -" ch.

(** The lazy run of separators [[ -]*?] in front of the continuation [d]:
    [d] is tried first, then again behind each further separator. *)
Fixpoint lazy_seps (d : cont) (p : option char) (s : text) : option cursor :=
  match d (Cursor p s) with
  | Some z => Some z
  | None =>
      match s with
      | ch :: s' => if cc_sep ch then lazy_seps d (Some ch) s' else None
      | [] => None
      end
  end.

(** The closing [\b]. *)
Definition cc_exit : cont := m WordB Some.

(** The quantifier [{min,max}] over [\d[ -]*?] in front of the closing [\b]. *)
Definition cc_digits (max min : nat) : cont :=
  RepeatMatcher (m (digit ;; star_lazy (Chr cc_sep))%re) true cc_exit max min.

(** The text of a run, detector after detector. *)
Definition after_ipv4 (input : text) : text := out PATTERNS.IPV4 None None input.
Definition after_email (input : text) : text := out PATTERNS.EMAIL None None (after_ipv4 input).
Definition after_ssn (input : text) : text := out PATTERNS.SSN_US None None (after_email input).
Definition after_phone (input : text) : text := out PATTERNS.PHONE_US None None (after_ssn input).
Definition after_card (input : text) : text :=
  out PATTERNS.CREDIT_CARD (Some isValidCreditCard) None (after_phone input).

(** What each detector counts in a run. *)
Definition ipv4_count (input : text) : nat := hits PATTERNS.IPV4 None None input.
Definition email_count (input : text) : nat := hits PATTERNS.EMAIL None None (after_ipv4 input).
Definition ssn_count (input : text) : nat := hits PATTERNS.SSN_US None None (after_email input).
Definition phone_count (input : text) : nat := hits PATTERNS.PHONE_US None None (after_ssn input).
Definition card_count (input : text) : nat :=
  hits PATTERNS.CREDIT_CARD (Some isValidCreditCard) None (after_phone input).

(** The code units of [s] that are in the class [p]. *)
Definition count_of (p : char -> bool) (s : text) : nat := List.length (filter p s).

(** A digit or an at sign. *)
Definition is_mark (ch : char) : bool := is_digit ch || is_char "@" ch.

(** At most one code unit, and of the class [p]: what [p?] reads. *)
Definition at_most_one (p : char -> bool) (u : text) : bool :=
  match u with
  | [] => true
  | [ch] => p ch
  | _ => false
  end.

Definition dash : char := code "-".

(** What [isValidCreditCard] keeps of the number: all but white space and
    dashes. *)
Definition kept (ch : char) : bool := negb (is_space ch || is_char "-" ch).

(** Every match of [r] reads a code unit of the class [ok]. *)
Fixpoint needs (ok : char -> bool) (r : regex) : Prop :=
  match r with
  | Empty | WordB | NegLook _ => False
  | Chr p => forall ch, p ch = true -> ok ch = true
  | Seq r1 r2 => needs ok r1 \/ needs ok r2
  | Alt r1 r2 => needs ok r1 /\ needs ok r2
  | Rep min _ _ r' => (1 <= min)%nat /\ needs ok r'
  end.

(** Some class of [r], those of its lookaheads included, accepts [ch]. *)
Fixpoint reads_any (r : regex) (ch : char) : bool :=
  match r with
  | Empty | WordB => false
  | Chr p => p ch
  | NegLook r' => reads_any r' ch
  | Seq r1 r2 | Alt r1 r2 => reads_any r1 ch || reads_any r2 ch
  | Rep _ _ _ r' => reads_any r' ch
  end.

(** [r] cannot read the code unit [t] begins with. *)
Definition unread (r : regex) (t : text) : bool :=
  match t with
  | [] => true
  | ch :: _ => negb (reads_any r ch)
  end.

(** Two positions that have the same text ahead up to the tails [B] and
    [B'], and code units of the same kind behind. *)
Definition akin (B B' : text) (x x' : cursor) : Prop :=
  exists w, rest x = w ++ B /\ rest x' = w ++ B'
            /\ word_opt (prev x) = word_opt (prev x').

Definition akin_opt (B B' : text) (o o' : option cursor) : Prop :=
  match o, o' with
  | Some y, Some y' => akin B B' y y'
  | None, None => True
  | _, _ => False
  end.

(** Not a word character, not white space and none of [.%+-@()]: what no
    class of the five patterns accepts. *)
Definition separates (ch : char) : bool :=
  negb (is_word ch || is_space ch || one_of ".%+-@()" ch).

(** The detectors of a run, each with its validator. *)
Definition detectors : list (regex * option (text -> bool)) :=
  [(PATTERNS.IPV4, None); (PATTERNS.EMAIL, None); (PATTERNS.SSN_US, None);
   (PATTERNS.PHONE_US, None); (PATTERNS.CREDIT_CARD, Some isValidCreditCard)].

(** Text that a detector matches at some place and that its validator
    accepts. *)
Definition detected (u : text) : Prop :=
  exists re validator p v,
    In (re, validator) detectors
    /\ match_at re (Cursor p (u ++ v)) = Some (Cursor (last_of p u) v)
    /\ accepted validator u = true.

(** [redacts s t n]: [t] is [s] with [n] stretches of detected text, one
    after the other, each replaced by the placeholder, and every other code
    unit kept in its place. *)
Inductive redacts : text -> text -> nat -> Prop :=
| redacts_end : redacts [] [] 0
| redacts_keep ch s t n : redacts s t n -> redacts (ch :: s) (ch :: t) n
| redacts_hide u s t n :
    u <> [] -> detected u -> redacts s t n ->
    redacts (u ++ s) (placeholder ++ t) (S n).

(** Ten digits, or eleven that begin with the country code 1. *)
Definition phone_plain (t : text) : bool :=
  (List.length t =? 10)%nat
  || (List.length t =? 11)%nat && match t with ch :: _ => is_char "1" ch | [] => false end.

(** The text ends, or begins, at a code unit of the class [ok] or is
    empty. *)
Definition ends_fenced (ok : char -> bool) (pre : text) : bool :=
  match last_of None pre with
  | None => true
  | Some ch => ok ch
  end.

Definition starts_fenced (ok : char -> bool) (post : text) : bool :=
  match post with
  | [] => true
  | ch :: _ => ok ch
  end.

(** No word character and no dot: what can stand next to an IPv4 address. *)
Definition ip_fence (ch : char) : bool := negb (is_word ch || is_char "." ch).

(** No word character and none of [.%+-@]: what can stand next to a
    social security number or an e-mail address. *)
Definition pii_fence (ch : char) : bool := negb (is_word ch || one_of ".%+-@" ch).

(** A letter or a dash: what the labels of a domain are made of here. *)
Definition is_label (ch : char) : bool := is_alpha ch || is_char "-" ch.

(** * Properties *)

(** ** Objects *)

Lemma sum_values_set (key : string) (o : object nat) (count : nat) :
  sum_values (set key (match get key o with Some n => n | None => 0 end + count) o)
  = (sum_values o + count)%nat.
Proof.
  induction o as [|[k w] o IH]; simpl.
  - lia.
  - destruct (String.eqb k key); simpl; [lia|].
    rewrite IH. lia.
Qed.

Lemma get_set_same (V : Type) (key : string) (v : V) (o : object V) :
  get key (set key v o) = Some v.
Proof.
  induction o as [|[k w] o IH]; simpl.
  - now rewrite String.eqb_refl.
  - destruct (String.eqb k key) eqn:E; simpl; now rewrite E.
Qed.

(** ** The bound of an unbounded quantifier

    [m] runs [r*], [r+] and [r{n,}] with a bound on the number of
    iterations; any larger bound gives the same result. *)

Section RepeatBound.
Variable body : cont -> cont.
Variable greedy : bool.
Hypothesis body_local :
  forall k1 k2 x,
  (forall y, (List.length (rest y) <= List.length (rest x))%nat -> k1 y = k2 y) ->
  body k1 x = body k2 x.
Hypothesis body_fails : forall x, body (fun _ => None) x = None.

Lemma RepeatMatcher_local (c1 c2 : cont) (max : nat) :
  forall min x,
  (forall y, (List.length (rest y) <= List.length (rest x))%nat -> c1 y = c2 y) ->
  RepeatMatcher body greedy c1 max min x = RepeatMatcher body greedy c2 max min x.
Proof.
  induction max as [|max IH]; intros min x H; cbn [RepeatMatcher].
  - apply H. lia.
  - rewrite (H x) by lia.
    assert (Hb : body (fun y => if (min =? 0)%nat && same_place x y then None
                                else RepeatMatcher body greedy c1 max (Nat.pred min) y) x
                 = body (fun y => if (min =? 0)%nat && same_place x y then None
                                  else RepeatMatcher body greedy c2 max (Nat.pred min) y) x).
    { apply body_local. intros y Hy.
      destruct ((min =? 0)%nat && same_place x y); [reflexivity|].
      apply IH. intros z Hz. apply H. lia. }
    now rewrite Hb.
Qed.

Lemma RepeatMatcher_fails (max : nat) :
  forall min x, RepeatMatcher body greedy (fun _ => None) max min x = None.
Proof.
  induction max as [|max IH]; intros min x; cbn [RepeatMatcher]; [reflexivity|].
  assert (Hb : body (fun y => if (min =? 0)%nat && same_place x y then None
                              else RepeatMatcher body greedy (fun _ => None) max (Nat.pred min) y) x
               = None).
  { transitivity (body (fun _ => None) x); [|apply body_fails].
    apply body_local. intros y _.
    destruct ((min =? 0)%nat && same_place x y); [reflexivity | apply IH]. }
  rewrite Hb. now destruct (negb (min =? 0)%nat), greedy.
Qed.

Lemma RepeatMatcher_bound (c : cont) (b1 : nat) :
  forall b2 min x,
  (min + List.length (rest x) <= b1)%nat ->
  (min + List.length (rest x) <= b2)%nat ->
  RepeatMatcher body greedy c b1 min x = RepeatMatcher body greedy c b2 min x.
Proof.
  assert (Hstuck : forall b min x,
             min = 0%nat -> List.length (rest x) = 0%nat ->
             RepeatMatcher body greedy c b min x = c x).
  { intros [|b] min x -> Hx; cbn [RepeatMatcher Nat.eqb negb andb]; [reflexivity|].
    assert (Hb : body (fun y => if same_place x y then None
                                else RepeatMatcher body greedy c b (Nat.pred 0) y) x = None).
    { transitivity (body (fun _ => None) x); [|apply body_fails].
      apply body_local. intros y Hy.
      unfold same_place. replace (List.length (rest y)) with (List.length (rest x)) by lia.
      now rewrite Nat.eqb_refl. }
    rewrite Hb. destruct greedy; [reflexivity | now destruct (c x)]. }
  induction b1 as [|b1 IH]; intros b2 min x H1 H2.
  - rewrite !Hstuck by lia. reflexivity.
  - destruct b2 as [|b2]; [rewrite !Hstuck by lia; reflexivity|].
    cbn [RepeatMatcher].
    assert (Hb : body (fun y => if (min =? 0)%nat && same_place x y then None
                                else RepeatMatcher body greedy c b1 (Nat.pred min) y) x
                 = body (fun y => if (min =? 0)%nat && same_place x y then None
                                  else RepeatMatcher body greedy c b2 (Nat.pred min) y) x).
    { apply body_local. intros y Hy. unfold same_place.
      destruct (min =? 0)%nat eqn:Emin; cbn [andb].
      - apply Nat.eqb_eq in Emin. subst min.
        destruct (List.length (rest y) =? List.length (rest x))%nat eqn:E; [reflexivity|].
        apply Nat.eqb_neq in E. apply IH; simpl; lia.
      - apply Nat.eqb_neq in Emin. apply IH; lia. }
    now rewrite Hb.
Qed.
End RepeatBound.

Lemma m_local (r : regex) :
  forall k1 k2 x,
  (forall y, (List.length (rest y) <= List.length (rest x))%nat -> k1 y = k2 y) ->
  m r k1 x = m r k2 x.
Proof.
  induction r as [|p| |r IH|r1 IH1 r2 IH2|r1 IH1 r2 IH2|min max greedy r IH];
    intros k1 k2 x H; cbn [m].
  - apply H. lia.
  - destruct (rest x) as [|ch s] eqn:E; [reflexivity|].
    destruct (p ch); [|reflexivity]. apply H. cbn. lia.
  - rewrite (H x) by lia. reflexivity.
  - rewrite (H x) by lia. reflexivity.
  - apply IH1. intros y Hy. apply IH2. intros z Hz. apply H. lia.
  - rewrite (IH1 k1 k2 x H), (IH2 k1 k2 x H). reflexivity.
  - apply RepeatMatcher_local; assumption.
Qed.

Lemma m_fails (r : regex) : forall x, m r (fun _ => None) x = None.
Proof.
  induction r as [|p| |r IH|r1 IH1 r2 IH2|r1 IH1 r2 IH2|min max greedy r IH];
    intros x; cbn [m].
  - reflexivity.
  - destruct (rest x) as [|ch s]; [reflexivity|]. now destruct (p ch).
  - now destruct (at_boundary x).
  - now destruct (m r Some x).
  - transitivity (m r1 (fun _ => None) x); [|apply IH1].
    apply m_local. intros y _. apply IH2.
  - now rewrite IH1, IH2.
  - apply RepeatMatcher_fails; [apply m_local | exact IH].
Qed.

(** Any bound from [min + length (rest x)] on gives the result of the
    unbounded quantifier. *)
Theorem unbounded_bound_exact (min : nat) (greedy : bool) (r : regex) (k : cont)
  (x : cursor) (bound : nat) :
  (min + List.length (rest x) <= bound)%nat ->
  m (Rep min None greedy r) k x = RepeatMatcher (m r) greedy k bound min x.
Proof.
  intros H. cbn [m].
  apply RepeatMatcher_bound; [apply m_local | apply m_fails | lia | exact H].
Qed.

(** ** The matcher answers with matches only *)

Section RepeatSound.
Variable body : cont -> cont.
Variable R : cursor -> cursor -> Prop.
Variable greedy : bool.
Variable c : cont.
Hypothesis body_sound :
  forall k x z, body k x = Some z -> exists y, R x y /\ k y = Some z.

Lemma RepeatMatcher_sound (max : nat) :
  forall min x z,
  (min <= max)%nat ->
  RepeatMatcher body greedy c max min x = Some z ->
  exists n y, (min <= n <= max)%nat /\ iter R n x y /\ c y = Some z.
Proof.
  induction max as [|max IH]; intros min x z Hle H.
  - exists 0%nat, x. simpl in H. repeat split; [lia | lia | exact H].
  - cbn [RepeatMatcher] in H.
    assert (Hd : forall y,
               (if (min =? 0)%nat && same_place x y then None
                else RepeatMatcher body greedy c max (Nat.pred min) y) = Some z ->
               exists n y', (min <= S n <= S max)%nat /\ iter R n y y' /\ c y' = Some z).
    { intros y Hy.
      destruct ((min =? 0)%nat && same_place x y); [discriminate|].
      apply IH in Hy; [|lia].
      destruct Hy as (n & y' & Hn & Hit & Hc). exists n, y'. repeat split; try lia; assumption. }
    assert (Hb : body (fun y => if (min =? 0)%nat && same_place x y then None
                                else RepeatMatcher body greedy c max (Nat.pred min) y) x
                 = Some z ->
                 exists n y, (min <= n <= S max)%nat /\ iter R n x y /\ c y = Some z).
    { intros Hbody. apply body_sound in Hbody. destruct Hbody as (y & HR & Hy).
      apply Hd in Hy. destruct Hy as (n & y' & Hn & Hit & Hc).
      exists (S n), y'. repeat split; try lia; [|exact Hc].
      exists y. split; assumption. }
    assert (Hc : min = 0%nat -> c x = Some z ->
                 exists n y, (min <= n <= S max)%nat /\ iter R n x y /\ c y = Some z).
    { intros -> Hcx. exists 0%nat, x. repeat split; [lia | lia | exact Hcx]. }
    destruct (min =? 0)%nat eqn:Emin; cbn [negb] in H.
    + apply Nat.eqb_eq in Emin.
      destruct greedy.
      * destruct (body _ x) as [z'|] eqn:Eb.
        -- injection H as ->. apply Hb. reflexivity.
        -- apply Hc; assumption.
      * destruct (c x) as [z'|] eqn:Ec.
        -- injection H as ->. apply Hc; [assumption | reflexivity].
        -- apply Hb. exact H.
    + apply Hb. exact H.
Qed.
End RepeatSound.

Theorem m_sound (r : regex) :
  well_formed r = true ->
  forall k x z, m r k x = Some z -> exists y, Matches r x y /\ k y = Some z.
Proof.
  induction r as [|p| |r IH|r1 IH1 r2 IH2|r1 IH1 r2 IH2|min max greedy r IH];
    intros Hwf k x z H; cbn [m] in H; cbn [well_formed] in Hwf.
  - exists x. split; [reflexivity | exact H].
  - destruct (rest x) as [|ch s] eqn:Ex; [discriminate|].
    destruct (p ch) eqn:Ep; [|discriminate].
    exists (Cursor (Some ch) s). split; [|exact H].
    exists ch, s. auto.
  - destruct (at_boundary x) eqn:Eb; [|discriminate].
    exists x. split; [split; auto | exact H].
  - destruct (m r Some x) eqn:En; [discriminate|].
    exists x. split; [split; auto | exact H].
  - apply andb_prop in Hwf. destruct Hwf as [Hwf1 Hwf2].
    apply (IH1 Hwf1) in H. destruct H as (y1 & HM1 & H).
    apply (IH2 Hwf2) in H. destruct H as (y & HM2 & H).
    exists y. split; [exists y1; split; assumption | exact H].
  - apply andb_prop in Hwf. destruct Hwf as [Hwf1 Hwf2].
    destruct (m r1 k x) as [z'|] eqn:E1.
    + injection H as ->. apply (IH1 Hwf1) in E1. destruct E1 as (y & HM & Hk).
      exists y. split; [left; exact HM | exact Hk].
    + apply (IH2 Hwf2) in H. destruct H as (y & HM & Hk).
      exists y. split; [right; exact HM | exact Hk].
  - apply andb_prop in Hwf. destruct Hwf as [Hmax Hwf].
    apply (@RepeatMatcher_sound (m r) (Matches r) greedy k (IH Hwf)) in H.
    + destruct H as (n & y & Hn & Hit & Hk).
      exists y. split; [|exact Hk].
      exists n. split; [lia|]. split; [|exact Hit].
      destruct max; [lia | exact I].
    + destruct max; [apply Nat.leb_le; exact Hmax | lia].
Qed.

Corollary match_at_sound (r : regex) (x y : cursor) :
  well_formed r = true -> match_at r x = Some y -> Matches r x y.
Proof.
  intros Hwf H. apply (m_sound _ Hwf) in H. destruct H as (y' & HM & Hy).
  injection Hy as ->. exact HM.
Qed.

(** ** What a match consumes *)

Lemma last_of_cons p ch u : last_of p (ch :: u) = last_of (Some ch) u.
Proof.
  unfold last_of. simpl. destruct (rev u) as [|c r] eqn:E; simpl; reflexivity.
Qed.

Lemma last_of_app p u v : last_of p (u ++ v) = last_of (last_of p u) v.
Proof.
  revert p. induction u as [|ch u IH]; intros p; simpl.
  - reflexivity.
  - rewrite !last_of_cons. apply IH.
Qed.

Lemma reads_refl x : reads x [] x.
Proof. split; reflexivity. Qed.

Lemma reads_trans x u y v z : reads x u y -> reads y v z -> reads x (u ++ v) z.
Proof.
  intros [H1 H2] [H3 H4]. split.
  - rewrite H1, H3, app_assoc. reflexivity.
  - rewrite H4, H2, last_of_app. reflexivity.
Qed.

Lemma reads_cursor x u y : reads x u y -> y = Cursor (last_of (prev x) u) (rest y).
Proof. intros [_ H]. destruct y as [q t]. cbn in *. now rewrite H. Qed.

Lemma reads_unique x u u' y : reads x u y -> reads x u' y -> u = u'.
Proof.
  intros [H1 _] [H2 _]. rewrite H1 in H2. now apply app_inv_tail in H2.
Qed.

Section IterConsumes.
Variable R : cursor -> cursor -> Prop.
Variable ok : char -> bool.
Variable least : nat.
Hypothesis R_consumes :
  forall x y, R x y ->
  exists u, reads x u y /\ Forall (fun ch => ok ch = true) u /\ (least <= List.length u)%nat.

Lemma iter_consumes (n : nat) :
  forall x y, iter R n x y ->
  exists u, reads x u y /\ Forall (fun ch => ok ch = true) u
            /\ (n * least <= List.length u)%nat.
Proof.
  induction n as [|n IH]; intros x y H; cbn [iter] in H.
  - subst y. exists []. split; [apply reads_refl|]. split; [constructor | simpl; lia].
  - destruct H as (z & Hxz & Hzy).
    apply R_consumes in Hxz. destruct Hxz as (u & Hu & Fu & Lu).
    apply IH in Hzy. destruct Hzy as (v & Hv & Fv & Lv).
    exists (u ++ v). split; [eapply reads_trans; eassumption|].
    split; [apply Forall_app; split; assumption|].
    rewrite length_app. simpl. lia.
Qed.
End IterConsumes.

Theorem Matches_consumes (r : regex) :
  forall x y, Matches r x y ->
  exists u, reads x u y /\ Forall (fun ch => may_read r ch = true) u
            /\ (min_len r <= List.length u)%nat.
Proof.
  induction r as [|p| |r IH|r1 IH1 r2 IH2|r1 IH1 r2 IH2|min max greedy r IH];
    intros x y H; cbn [Matches] in H; cbn [may_read min_len].
  - subst y. exists []. split; [apply reads_refl|]. split; [constructor | simpl; lia].
  - destruct H as (ch & s & Hs & Hp & ->). exists [ch]. split; [|split].
    + split; cbn; [exact Hs | reflexivity].
    + constructor; [exact Hp | constructor].
    + simpl. lia.
  - destruct H as [-> _]. exists []. split; [apply reads_refl|]. split; [constructor | simpl; lia].
  - destruct H as [-> _]. exists []. split; [apply reads_refl|]. split; [constructor | simpl; lia].
  - destruct H as (z & H1 & H2).
    apply IH1 in H1. destruct H1 as (u & Hu & Fu & Lu).
    apply IH2 in H2. destruct H2 as (v & Hv & Fv & Lv).
    exists (u ++ v). split; [eapply reads_trans; eassumption|]. split.
    + apply Forall_app. split; eapply Forall_impl; try eassumption;
        cbn; intros a Ha; rewrite Ha; auto using orb_true_r.
    + rewrite length_app. lia.
  - destruct H as [H | H]; [apply IH1 in H | apply IH2 in H];
      destruct H as (u & Hu & Fu & Lu); exists u; (split; [exact Hu|]); split;
      try lia; eapply Forall_impl; try eassumption;
      cbn; intros a Ha; rewrite Ha; auto using orb_true_r.
  - destruct H as (n & Hmin & _ & Hit).
    apply (@iter_consumes (Matches r) (may_read r) (min_len r) IH) in Hit. destruct Hit as (u & Hu & Fu & Lu).
    exists u. split; [exact Hu|]. split; [exact Fu|]. nia.
Qed.

(** ** The matcher finds a match when there is one *)

Section RepeatComplete.
Variable body : cont -> cont.
Variable R : cursor -> cursor -> Prop.
Variable greedy : bool.
Variable c : cont.
Hypothesis body_complete :
  forall k x y, R x y -> k y <> None -> body k x <> None.
Hypothesis R_moves : forall x y, R x y -> same_place x y = false.

Lemma RepeatMatcher_complete (max : nat) :
  forall min n x y,
  (min <= n <= max)%nat -> iter R n x y -> c y <> None ->
  RepeatMatcher body greedy c max min x <> None.
Proof.
  induction max as [|max IH]; intros min n x y Hn Hit Hc.
  - assert (n = 0%nat) by lia. subst n. cbn in Hit. subst y. exact Hc.
  - cbn [RepeatMatcher].
    destruct n as [|n]; cbn [iter] in Hit.
    + subst y. assert (min = 0%nat) by lia. subst min. cbn [Nat.eqb negb].
      destruct greedy.
      * destruct (body _ x); [discriminate | exact Hc].
      * destruct (c x); [discriminate | congruence].
    + destruct Hit as (z & Hxz & Hzy).
      assert (Hb : body (fun y0 => if (min =? 0)%nat && same_place x y0 then None
                                   else RepeatMatcher body greedy c max (Nat.pred min) y0) x
                   <> None).
      { apply body_complete with (y := z); [exact Hxz|].
        rewrite (R_moves Hxz), andb_false_r.
        apply IH with (n := n) (y := y); [lia | exact Hzy | exact Hc]. }
      destruct (min =? 0)%nat; cbn [negb]; [|exact Hb].
      destruct greedy.
      * destruct (body _ x); [discriminate | congruence].
      * destruct (c x); [discriminate | exact Hb].
Qed.
End RepeatComplete.

Lemma reads_length x u y : reads x u y -> List.length (rest x) = (List.length u + List.length (rest y))%nat.
Proof. intros [H _]. now rewrite H, length_app. Qed.

Theorem m_complete (r : regex) :
  productive r = true ->
  forall k x y, Matches r x y -> k y <> None -> m r k x <> None.
Proof.
  induction r as [|p| |r IH|r1 IH1 r2 IH2|r1 IH1 r2 IH2|min max greedy r IH];
    intros Hp k x y H Hk; cbn [Matches] in H; cbn [m]; cbn [productive] in Hp.
  - now subst y.
  - destruct H as (ch & s & -> & Hch & ->). now rewrite Hch.
  - destruct H as [-> Hb]. now rewrite Hb.
  - destruct H as [-> Hn]. unfold match_at in Hn. now rewrite Hn.
  - apply andb_prop in Hp. destruct Hp as [Hp1 Hp2].
    destruct H as (z & H1 & H2).
    apply (IH1 Hp1) with (y := z); [exact H1|].
    apply (IH2 Hp2) with (y := y); assumption.
  - apply andb_prop in Hp. destruct Hp as [Hp1 Hp2].
    destruct (m r1 k x) eqn:E1; [discriminate|].
    destruct H as [H | H].
    + exfalso. apply (IH1 Hp1 k x y H Hk). exact E1.
    + apply (IH2 Hp2) with (y := y); assumption.
  - apply andb_prop in Hp. destruct Hp as [Hlen Hp]. apply Nat.leb_le in Hlen.
    destruct H as (n & Hmin & Hmax & Hit).
    apply (@RepeatMatcher_complete (m r) (Matches r) greedy k) with (n := n) (y := y);
      [intros; eapply IH; eassumption | | | exact Hit | exact Hk].
    + intros x0 y0 H0. apply Matches_consumes in H0.
      destruct H0 as (u & Hu & _ & Lu). apply reads_length in Hu.
      unfold same_place. apply Nat.eqb_neq. lia.
    + split; [exact Hmin|]. destruct max as [k'|]; [exact Hmax|].
      apply (@iter_consumes (Matches r) (may_read r) (min_len r) (@Matches_consumes r)) in Hit.
      destruct Hit as (u & Hu & _ & Lu). apply reads_length in Hu. nia.
Qed.

Corollary match_at_complete (r : regex) (x y : cursor) :
  productive r = true -> Matches r x y -> match_at r x <> None.
Proof. intros Hp H. apply (m_complete _ Hp) with (y := y); [exact H | discriminate]. Qed.

(** ** A match does not depend on what is around it

    Whether [w] is a match of a pattern depends on the text before and
    after [w] only through [\b]: on whether the code unit before [w] and
    the code unit after it are word characters. *)

Lemma word_opt_last_of q q' a :
  word_opt q = word_opt q' -> word_opt (last_of q a) = word_opt (last_of q' a).
Proof.
  intros H. unfold last_of. destruct (rev a); [exact H | reflexivity].
Qed.

Lemma head_word_app w tl tl' :
  head_word tl = head_word tl' -> head_word (w ++ tl) = head_word (w ++ tl').
Proof. intros H. destruct w; [exact H | reflexivity]. Qed.

Lemma same_cursor_nil q a w tl :
  Cursor (last_of q (a ++ w)) tl = Cursor (last_of q a) (w ++ tl) -> w = [].
Proof.
  intros H. injection H as _ H.
  assert (Hl : List.length tl = List.length (w ++ tl)) by now rewrite <- H.
  rewrite length_app in Hl. destruct w; [reflexivity | simpl in Hl; lia].
Qed.

(** The position between the two halves of a match in sequence. *)
Lemma reads_split q a w tl x u1 z u2 y :
  x = Cursor (last_of q a) (w ++ tl) ->
  y = Cursor (last_of q (a ++ w)) tl ->
  reads x u1 z -> reads z u2 y ->
  w = u1 ++ u2 /\ z = Cursor (last_of q (a ++ u1)) (u2 ++ tl).
Proof.
  intros -> -> [H1 P1] [H2 P2]. cbn [rest prev] in *.
  rewrite H2 in H1. rewrite app_assoc in H1. apply app_inv_tail in H1.
  split; [exact H1|].
  destruct z as [pz sz]. cbn [rest prev] in *. subst sz pz.
  now rewrite last_of_app.
Qed.

Lemma portable_empty : portable Empty.
Proof.
  intros q q' a w tl tl' Hq Ht H. cbn [Matches] in *.
  apply same_cursor_nil in H. subst w. now rewrite app_nil_r.
Qed.

Lemma portable_chr p : portable (Chr p).
Proof.
  intros q q' a w tl tl' Hq Ht H. cbn [Matches rest] in *.
  destruct H as (ch & s & Hs & Hp & Hy).
  injection Hy as Hl ->. apply (app_inv_tail s w [ch]) in Hs. subst w.
  exists ch, tl'. repeat split; [exact Hp|].
  rewrite last_of_app. reflexivity.
Qed.

Lemma portable_wordb : portable WordB.
Proof.
  intros q q' a w tl tl' Hq Ht H. cbn [Matches] in *.
  destruct H as [Hy Hb]. apply same_cursor_nil in Hy. subst w.
  rewrite app_nil_r in *. split; [reflexivity|].
  unfold at_boundary, word_before, word_after in *. cbn [prev rest app] in *.
  fold (word_opt (last_of q a)) in Hb. fold (word_opt (last_of q' a)).
  fold (head_word tl) in Hb. fold (head_word tl').
  now rewrite <- (@word_opt_last_of q q' a Hq), <- Ht.
Qed.

Lemma portable_seq r1 r2 : portable r1 -> portable r2 -> portable (Seq r1 r2).
Proof.
  intros P1 P2 q q' a w tl tl' Hq Ht H. cbn [Matches] in *.
  destruct H as (z & H1 & H2).
  destruct (Matches_consumes _ _ _ H1) as (u1 & R1 & _).
  destruct (Matches_consumes _ _ _ H2) as (u2 & R2 & _).
  destruct (@reads_split q a w tl _ _ _ _ _ eq_refl eq_refl R1 R2) as [-> ->].
  exists (Cursor (last_of q' (a ++ u1)) (u2 ++ tl')). split.
  - rewrite <- app_assoc in *.
    apply (P1 q q' a u1 (u2 ++ tl) (u2 ++ tl') Hq (@head_word_app u2 _ _ Ht) H1).
  - rewrite !app_assoc in *.
    apply (P2 q q' (a ++ u1) u2 tl tl' Hq Ht H2).
Qed.

Lemma portable_alt r1 r2 : portable r1 -> portable r2 -> portable (Alt r1 r2).
Proof.
  intros P1 P2 q q' a w tl tl' Hq Ht H. cbn [Matches] in *.
  destruct H as [H | H]; [left; eapply P1 | right; eapply P2]; eassumption.
Qed.

Lemma portable_iter r (n : nat) :
  portable r ->
  forall q q' a w tl tl',
  word_opt q = word_opt q' ->
  head_word tl = head_word tl' ->
  iter (Matches r) n (Cursor (last_of q a) (w ++ tl)) (Cursor (last_of q (a ++ w)) tl) ->
  iter (Matches r) n (Cursor (last_of q' a) (w ++ tl')) (Cursor (last_of q' (a ++ w)) tl').
Proof.
  intros P. induction n as [|n IH]; intros q q' a w tl tl' Hq Ht H; cbn [iter] in *.
  - apply same_cursor_nil in H. subst w. now rewrite app_nil_r.
  - destruct H as (z & H1 & H2).
    destruct (Matches_consumes _ _ _ H1) as (u1 & R1 & _).
    destruct (@iter_consumes (Matches r) (may_read r) (min_len r) (@Matches_consumes r) n _ _ H2)
      as (u2 & R2 & _).
    destruct (@reads_split q a w tl _ _ _ _ _ eq_refl eq_refl R1 R2) as [-> ->].
    exists (Cursor (last_of q' (a ++ u1)) (u2 ++ tl')). split.
    + rewrite <- app_assoc in *.
      apply (P q q' a u1 (u2 ++ tl) (u2 ++ tl') Hq (@head_word_app u2 _ _ Ht) H1).
    + rewrite !app_assoc in *.
      apply (IH q q' (a ++ u1) u2 tl tl' Hq Ht H2).
Qed.

Lemma portable_rep min max greedy r : portable r -> portable (Rep min max greedy r).
Proof.
  intros P q q' a w tl tl' Hq Ht H. cbn [Matches] in *.
  destruct H as (n & Hmin & Hmax & Hit).
  exists n. split; [exact Hmin|]. split; [exact Hmax|].
  eapply portable_iter; eassumption.
Qed.

Lemma portable_look la r2 (k : nat) :
  look_local la k -> (k <= min_len r2)%nat -> portable r2 ->
  portable (Seq (NegLook la) r2).
Proof.
  intros Hla Hk P2 q q' a w tl tl' Hq Ht H. cbn [Matches] in *.
  destruct H as (z & [-> Hno] & H2).
  exists (Cursor (last_of q' a) (w ++ tl')). split.
  - split; [reflexivity|].
    destruct (Matches_consumes _ _ _ H2) as (u & [Ru _] & _ & Lu).
    cbn [rest] in Ru. apply app_inv_tail in Ru. subst u.
    eapply Hla; [|exact Hno]. lia.
  - apply (P2 q q' a w tl tl' Hq Ht H2).
Qed.

(** ** What the five patterns have in common *)

Lemma starts_with_boundary_sound (r : regex) :
  starts_with_boundary r = true ->
  forall x y, Matches r x y -> at_boundary x = true.
Proof.
  induction r as [|p| |r IH|r1 IH1 r2 IH2|r1 IH1 r2 IH2|min max greedy r IH];
    cbn [starts_with_boundary]; try discriminate; intros Hs x y H; cbn [Matches] in H.
  - now destruct H.
  - destruct H as (z & H1 & _). eapply IH1; eassumption.
Qed.

Lemma ends_with_boundary_sound (r : regex) :
  ends_with_boundary r = true ->
  forall x y, Matches r x y -> at_boundary y = true.
Proof.
  induction r as [|p| |r IH|r1 IH1 r2 IH2|r1 IH1 r2 IH2|min max greedy r IH];
    cbn [ends_with_boundary]; try discriminate; intros Hs x y H; cbn [Matches] in H.
  - destruct H as [-> H]. exact H.
  - destruct H as (z & _ & H2). eapply IH2; eassumption.
Qed.

Lemma nowhere_from_sound (r : regex) (s : text) :
  forall p, nowhere_from r p s = true ->
  forall u v, s = u ++ v -> match_at r (Cursor (last_of p u) v) = None.
Proof.
  induction s as [|ch s IH]; intros p H u v E; cbn [nowhere_from] in H.
  - destruct u; [|discriminate]. cbn in E. subst v.
    change (last_of p []) with p.
    destruct (match_at r (Cursor p [])); [discriminate | reflexivity].
  - destruct (match_at r (Cursor p (ch :: s))) eqn:Em; [discriminate|].
    destruct u as [|c u]; cbn in E.
    + subst v. exact Em.
    + injection E as -> ->. rewrite last_of_cons. now apply IH.
Qed.

Ltac portable_parts :=
  repeat first
    [ apply portable_empty | apply portable_chr | apply portable_wordb
    | apply portable_alt | apply portable_rep | apply portable_seq ].

Ltac detector_facts :=
  constructor;
  [ reflexivity | reflexivity | | cbn; lia | reflexivity | reflexivity
  | reflexivity | reflexivity | vm_compute; reflexivity ].

Lemma IPV4_detector : detector_pattern PATTERNS.IPV4.
Proof.
  detector_facts.
  unfold PATTERNS.IPV4, PATTERNS.octet, times, opt, lit. portable_parts.
Qed.

Lemma EMAIL_detector : detector_pattern PATTERNS.EMAIL.
Proof.
  detector_facts.
  unfold PATTERNS.EMAIL, plus, at_least, lit. portable_parts.
Qed.

Lemma PHONE_US_detector : detector_pattern PATTERNS.PHONE_US.
Proof.
  detector_facts.
  unfold PATTERNS.PHONE_US, times, opt, lit. portable_parts.
Qed.

Lemma CREDIT_CARD_detector : detector_pattern PATTERNS.CREDIT_CARD.
Proof.
  detector_facts.
  unfold PATTERNS.CREDIT_CARD, between, star_lazy, digit. portable_parts.
Qed.

Ltac look_cases :=
  unfold match_at; cbn;
  repeat match goal with
    | |- context [if ?b then _ else _] => destruct b
    end;
  intros; congruence.

Lemma look_area :
  look_local (lit "0" ;; lit "0" ;; lit "0"
              <|> lit "6" ;; lit "6" ;; lit "6"
              <|> lit "9" ;; times 2 digit)%re 3.
Proof.
  intros p p' s t t' Hlen.
  destruct s as [|c1 [|c2 [|c3 s]]]; try (simpl in Hlen; lia).
  look_cases.
Qed.

Lemma look_group : look_local (lit "0" ;; lit "0")%re 2.
Proof.
  intros p p' s t t' Hlen.
  destruct s as [|c1 [|c2 s]]; try (simpl in Hlen; lia).
  look_cases.
Qed.

Lemma look_serial : look_local (lit "0" ;; lit "0" ;; lit "0" ;; lit "0")%re 4.
Proof.
  intros p p' s t t' Hlen.
  destruct s as [|c1 [|c2 [|c3 [|c4 s]]]]; try (simpl in Hlen; lia).
  look_cases.
Qed.

Lemma SSN_US_detector : detector_pattern PATTERNS.SSN_US.
Proof.
  detector_facts.
  unfold PATTERNS.SSN_US.
  apply portable_seq; [apply portable_wordb|].
  apply portable_look with (k := 3%nat); [exact look_area | cbn; lia |].
  do 3 (apply portable_seq; [unfold opt, times, lit, digit; portable_parts|]).
  apply portable_look with (k := 2%nat); [exact look_group | cbn; lia |].
  do 3 (apply portable_seq; [unfold opt, times, lit, digit; portable_parts|]).
  apply portable_look with (k := 4%nat); [exact look_serial | cbn; lia |].
  unfold opt, times, lit, digit. portable_parts.
Qed.

Section DetectorFacts.
Variable r : regex.
Hypothesis Hr : detector_pattern r.

(** What a successful attempt of a detector's pattern tells. *)
Lemma hit_facts (x y : cursor) :
  match_at r x = Some y ->
  exists u, rest x = u ++ rest y /\ prev y = last_of (prev x) u
            /\ u <> [] /\ Forall no_bracket u
            /\ at_boundary x = true /\ at_boundary y = true
            /\ Matches r x y.
Proof.
  intros H. apply (@match_at_sound r x y (dp_well_formed Hr)) in H.
  destruct (@Matches_consumes r x y H) as (u & [Hu Hp] & Fu & Lu).
  exists u. split; [exact Hu|]. split; [exact Hp|]. split; [|split; [|split; [|split]]].
  - pose proof (dp_nonempty Hr). destruct u; [simpl in Lu; lia | discriminate].
  - eapply Forall_impl; [|exact Fu]. cbn. intros ch Hch. split; intros ->.
    + unfold open_bracket in Hch. now rewrite (dp_no_open Hr) in Hch.
    + unfold close_bracket in Hch. now rewrite (dp_no_close Hr) in Hch.
  - exact (@starts_with_boundary_sound r (dp_starts Hr) x y H).
  - exact (@ends_with_boundary_sound r (dp_ends Hr) x y H).
  - exact H.
Qed.

Lemma no_hit_at_end (p : option char) : match_at r (Cursor p []) = None.
Proof.
  destruct (match_at r (Cursor p [])) as [y|] eqn:E; [|reflexivity].
  destruct (@hit_facts _ _ E) as (u & Hu & _ & Hne & _). cbn in Hu.
  destruct u; [congruence | discriminate].
Qed.

(** A match is a match wherever its neighbours are of the same kind. *)
Lemma transport_exists (q q' : option char) (w tl tl' : text) :
  Matches r (Cursor q (w ++ tl)) (Cursor (last_of q w) tl) ->
  word_opt q = word_opt q' ->
  head_word tl = head_word tl' ->
  match_at r (Cursor q' (w ++ tl')) <> None.
Proof.
  intros H Hq Ht.
  apply (@match_at_complete r _ (Cursor (last_of q' w) tl') (dp_productive Hr)).
  exact (dp_portable Hr q q' [] w tl tl' Hq Ht H).
Qed.

Lemma hit_transport (q q' : option char) (s : text) (y : cursor) (tl' : text) :
  match_at r (Cursor q s) = Some y ->
  word_opt q = word_opt q' ->
  head_word (rest y) = head_word tl' ->
  forall w, s = w ++ rest y ->
  match_at r (Cursor q' (w ++ tl')) <> None.
Proof.
  intros H Hq Ht w Hs.
  destruct (@hit_facts _ _ H) as (u & Hu & Hp & _ & _ & _ & _ & HM). cbn [rest prev] in *.
  assert (u = w) by (rewrite Hs in Hu; now apply app_inv_tail in Hu). subst u.
  apply transport_exists with (q := q) (tl := rest y); try assumption.
  destruct y as [py sy]. cbn [rest prev] in *. subst s py. exact HM.
Qed.
End DetectorFacts.

(** ** The scan of [replace] *)

Section ReplaceFacts.
Variable St : Type.
Variable re : regex.
Variable fn : text -> St -> text * St.

(** Inside a match the scan only moves on. *)
Lemma replace_from_skip (u s : text) (p : option char) (st : St) :
  replace_from re fn p (u ++ s) (List.length u) st
  = replace_from re fn (last_of p u) s 0 st.
Proof.
  revert p. induction u as [|ch u IH]; intros p; simpl.
  - reflexivity.
  - rewrite IH, last_of_cons. reflexivity.
Qed.

(** At a match that is not empty the callback is called on the match
    and the scan resumes right after it. *)
Lemma replace_from_match (p q : option char) (mt s : text) (st : St) :
  mt <> [] ->
  match_at re (Cursor p (mt ++ s)) = Some (Cursor q s) ->
  replace_from re fn p (mt ++ s) 0 st
  = let '(new, st1) := fn mt st in
    let '(out, st2) := replace_from re fn (last_of p mt) s 0 st1 in
    (new ++ out, st2).
Proof.
  intros Hne Hm.
  destruct mt as [|ch mt]; [congruence|].
  simpl app. cbn [replace_from]. simpl app in Hm. rewrite Hm. cbn [rest].
  replace (List.length (ch :: mt ++ s) - List.length s)%nat
    with (S (List.length mt))
    by (change (ch :: mt ++ s) with ((ch :: mt) ++ s); rewrite length_app;
        cbn [List.length]; lia).
  replace (firstn (S (List.length mt)) (ch :: mt ++ s)) with (ch :: mt)
    by (simpl; f_equal; rewrite firstn_app, firstn_all, Nat.sub_diag; simpl;
        now rewrite app_nil_r).
  destruct (fn (ch :: mt) st) as [new st1].
  rewrite replace_from_skip, last_of_cons. reflexivity.
Qed.

(** Where the pattern does not match the code unit is copied. *)
Lemma replace_from_miss (p : option char) (ch : char) (s : text) (st : St) :
  match_at re (Cursor p (ch :: s)) = None ->
  replace_from re fn p (ch :: s) 0 st
  = let '(out, st') := replace_from re fn (Some ch) s 0 st in (ch :: out, st').
Proof. intros Hm. cbn [replace_from]. now rewrite Hm. Qed.

(** A callback that hands every match back and keeps its state changes
    nothing. *)
Lemma replace_from_unchanged (s : text) :
  (forall mt st, fn mt st = (mt, st)) ->
  forall p skip st, (skip <= List.length s)%nat ->
  replace_from re fn p s skip st = (skipn skip s, st).
Proof.
  intros Hfn. induction s as [|ch s IH]; intros p skip st Hskip.
  - simpl in Hskip. assert (skip = 0%nat) by lia. subst. simpl.
    destruct (match_at re (Cursor p [])); [apply Hfn | reflexivity].
  - destruct skip as [|n].
    + cbn [replace_from skipn].
      destruct (match_at re (Cursor p (ch :: s))) as [y|].
      * assert (Hle : (List.length (ch :: s) - List.length (rest y) <= List.length (ch :: s))%nat) by lia.
        revert Hle.
        generalize (List.length (ch :: s) - List.length (rest y))%nat as n.
        intros n Hle. rewrite Hfn.
        destruct n as [|n'].
        -- rewrite IH by lia. reflexivity.
        -- simpl in Hle. rewrite IH by lia.
           simpl. f_equal. f_equal. apply firstn_skipn.
      * rewrite IH by lia. reflexivity.
    + simpl in Hskip. cbn [replace_from skipn]. apply IH. lia.
Qed.

(** A pattern that matches nowhere leaves the text as it is and never
    calls the callback. *)
Lemma replace_from_nowhere (s : text) :
  forall p st,
  (forall u v, s = u ++ v -> match_at re (Cursor (last_of p u) v) = None) ->
  replace_from re fn p s 0 st = (s, st).
Proof.
  induction s as [|ch s IH]; intros p st Hno.
  - pose proof (Hno [] [] eq_refl) as H0. unfold last_of in H0. simpl in *.
    now rewrite H0.
  - rewrite replace_from_miss by (apply (Hno [] (ch :: s) eq_refl)).
    rewrite IH; [reflexivity|].
    intros u v ->. specialize (Hno (ch :: u) v eq_refl).
    now rewrite last_of_cons in Hno.
Qed.
End ReplaceFacts.

Lemma replace_nowhere (St : Type) (re : regex) (fn : text -> St -> text * St)
  (s : text) (st : St) :
  matches_nowhere re s -> replace re fn s st = (s, st).
Proof. intros H. apply replace_from_nowhere. exact H. Qed.

(** ** [applyRedaction] *)

Lemma applyRedaction_eq pattern ph type validator st :
  applyRedaction pattern ph type validator st
  = let r := replace pattern (redaction_callback ph validator) (redactedText st) 0%nat in
    {| redactedText := fst r;
       redactionMap :=
         set type (match get type (redactionMap st) with Some n => n | None => 0 end + snd r)%nat
             (redactionMap st);
       totalRedactions := (totalRedactions st + snd r)%nat |}.
Proof. unfold applyRedaction. now destruct (replace _ _ _ _). Qed.

Lemma applyRedaction_consistent pattern ph type validator st :
  totalRedactions st = sum_values (redactionMap st) ->
  totalRedactions (applyRedaction pattern ph type validator st)
  = sum_values (redactionMap (applyRedaction pattern ph type validator st)).
Proof.
  intros H. rewrite applyRedaction_eq. cbn [totalRedactions redactionMap].
  rewrite sum_values_set. lia.
Qed.

(** ** The request boundary *)

Lemma handler_string (fields : object json) (input : text) :
  get "text" fields = Some (JStr input) ->
  handler (Some (JObj fields))
  = if (List.length input =? 0)%nat then invalid_input
    else if (MAX_INPUT_LENGTH <? List.length input)%nat
         then input_too_large (List.length input)
         else success (redact input).
Proof.
  intros H. unfold handler, text_of. rewrite H. cbn [truthy typeof].
  destruct (List.length input =? 0)%nat; reflexivity.
Qed.

Lemma handler_missing (fields : object json) :
  get "text" fields = None -> handler (Some (JObj fields)) = invalid_input.
Proof. intros H. unfold handler, text_of. rewrite H. reflexivity. Qed.

Lemma num_max_length : num MAX_INPUT_LENGTH = JNum 1048576.
Proof. vm_compute. reflexivity. Qed.

Lemma num_succ_max_length : num (S MAX_INPUT_LENGTH) = JNum 1048577.
Proof. vm_compute. reflexivity. Qed.

(** C9 (the code departs from it): the body [null] has no [text], yet
    it is not answered with INVALID_INPUT: the destructuring of [text]
    stands outside the [try] block and throws, so the handler gives no
    answer at all.  Every other body whose [text] is missing or the empty
    string is answered with INVALID_INPUT; a text of exactly
    [MAX_INPUT_LENGTH] code units is processed; one code unit more is
    answered with INPUT_TOO_LARGE, carrying the configured maximum and the
    received length. *)
Theorem request_boundary :
  handler (Some JNull) = Throw
  /\ field "code" (handler (Some JNull)) = None
  /\ status_of (handler (Some JNull)) = None
  /\ (forall body,
        body <> JNull ->
        (forall fields, body = JObj fields -> get "text" fields = None) ->
        handler (Some body) = invalid_input
        /\ field "code" (handler (Some body)) = Some (JStr (str "INVALID_INPUT")))
  /\ (forall fields,
        get "text" fields = Some (JStr []) ->
        handler (Some (JObj fields)) = invalid_input
        /\ field "code" (handler (Some (JObj fields))) = Some (JStr (str "INVALID_INPUT")))
  /\ (forall fields input,
        get "text" fields = Some (JStr input) ->
        List.length input = MAX_INPUT_LENGTH ->
        handler (Some (JObj fields)) = success (redact input)
        /\ field "success" (handler (Some (JObj fields))) = Some (JBool true))
  /\ (forall fields input,
        get "text" fields = Some (JStr input) ->
        List.length input = S MAX_INPUT_LENGTH ->
        let answer := handler (Some (JObj fields)) in
        field "code" answer = Some (JStr (str "INPUT_TOO_LARGE"))
        /\ field "max_length" answer = Some (JNum 1048576)
        /\ field "received_length" answer = Some (JNum 1048577)).
Proof.
  split; [reflexivity|]. split; [reflexivity|]. split; [reflexivity|].
  split; [|split; [|split]].
  - intros body Hnull Hmissing.
    assert (E : handler (Some body) = invalid_input).
    { destruct body as [|b|n|s|items|fields]; try reflexivity.
      - now contradiction Hnull.
      - apply handler_missing. now apply Hmissing. }
    rewrite E. split; reflexivity.
  - intros fields H. rewrite (handler_string _ H). cbn [List.length Nat.eqb].
    split; reflexivity.
  - intros fields input H Hlen. rewrite (handler_string _ H), Hlen.
    rewrite Nat.ltb_irrefl. split; reflexivity.
  - intros fields input H Hlen answer. subst answer.
    rewrite (handler_string _ H), Hlen.
    replace (MAX_INPUT_LENGTH <? S MAX_INPUT_LENGTH)%nat with true
      by (symmetry; apply Nat.ltb_lt; lia).
    cbn [Nat.eqb].
    split; [reflexivity|]. split.
    + change (Some (num MAX_INPUT_LENGTH) = Some (JNum 1048576)).
      now rewrite num_max_length.
    + change (Some (num (S MAX_INPUT_LENGTH)) = Some (JNum 1048577)).
      now rewrite num_succ_max_length.
Qed.

Lemma request_boundary_witness :
  let longest := repeat 97%N MAX_INPUT_LENGTH in
  field "code" (handler (Some (JNum 7))) = Some (JStr (str "INVALID_INPUT"))
  /\ field "code" (handler (Some (JObj [("id", JNum 7); ("text", JStr [])])))
     = Some (JStr (str "INVALID_INPUT"))
  /\ field "success" (handler (Some (JObj [("text", JStr longest)]))) = Some (JBool true)
  /\ field "received_length" (handler (Some (JObj [("text", JStr (97%N :: longest))])))
     = Some (JNum 1048577).
Proof.
  intros longest.
  assert (Hlen : List.length longest = MAX_INPUT_LENGTH) by apply repeat_length.
  clearbody longest.
  assert (Hlen' : List.length (97%N :: longest) = S MAX_INPUT_LENGTH)
    by (change (S (List.length longest) = S MAX_INPUT_LENGTH); f_equal; exact Hlen).
  pose proof request_boundary as (_ & _ & _ & Hmissing & Hempty & Hmax & Hover).
  split; [|split; [|split]].
  - apply (Hmissing (JNum 7)); [discriminate | intros fields E; discriminate E].
  - exact (proj2 (Hempty [("id", JNum 7); ("text", JStr [])] eq_refl)).
  - exact (proj2 (Hmax [("text", JStr longest)] longest eq_refl Hlen)).
  - exact (proj2 (proj2 (Hover [("text", JStr (97%N :: longest))] (97%N :: longest)
                           eq_refl Hlen'))).
Defined.

(** ** The success response *)

(** C2 (as the code has it): the success response carries the masked
    text, the total count and the per-type counts, and nothing else: it has
    no [original_length] and no [redacted_length]. *)
Theorem success_response (fields : object json) (input : text) :
  get "text" fields = Some (JStr input) ->
  input <> [] ->
  (List.length input <= MAX_INPUT_LENGTH)%nat ->
  let st := redact input in
  let answer := handler (Some (JObj fields)) in
  answer = Respond 200 (JObj [
             ("success", JBool true);
             ("result", JStr (redactedText st));
             ("metadata", JObj [
               ("redactions_count", num (totalRedactions st));
               ("redactions_by_type", counts_json (redactionMap st))])])
  /\ metadata_field "original_length" answer = None
  /\ metadata_field "redacted_length" answer = None
  /\ field "original_length" answer = None
  /\ field "redacted_length" answer = None.
Proof.
  intros H Hne Hlen st answer. subst st answer.
  rewrite (handler_string _ H).
  destruct input as [|ch input]; [congruence|]. cbn [List.length Nat.eqb].
  replace (MAX_INPUT_LENGTH <? S (List.length input))%nat with false
    by (symmetry; apply Nat.ltb_ge; exact Hlen).
  repeat split.
Qed.

Lemma success_response_witness :
  handler (Some (JObj [("text", JStr (str "Server at 192.168.1.1 is down"))]))
  = Respond 200 (JObj [
      ("success", JBool true);
      ("result", JStr (str "Server at [REDACTED] is down"));
      ("metadata", JObj [
        ("redactions_count", JNum 1);
        ("redactions_by_type", JObj [
           ("ipv4", JNum 1); ("email", JNum 0); ("ssn_us", JNum 0);
           ("phone_us", JNum 0); ("credit_card", JNum 0)])])]).
Proof.
  assert (Hlen : (List.length (str "Server at 192.168.1.1 is down") <= MAX_INPUT_LENGTH)%nat)
    by (apply Nat.leb_le; vm_compute; reflexivity).
  assert (Hne : str "Server at 192.168.1.1 is down" <> []) by (vm_compute; discriminate).
  rewrite (proj1 (success_response [("text", JStr (str "Server at 192.168.1.1 is down"))]
                    eq_refl Hne Hlen)).
  vm_compute. reflexivity.
Defined.

(** C2 (as the claim has it) fails: the response to the text "a" is a
    success, and neither it nor its metadata has a length field. *)
Lemma success_response_has_no_lengths :
  let answer := handler (Some (JObj [("text", JStr (str "a"))])) in
  field "success" answer = Some (JBool true)
  /\ field "result" answer = Some (JStr (str "a"))
  /\ metadata_field "original_length" answer = None
  /\ metadata_field "redacted_length" answer = None
  /\ field "original_length" answer = None
  /\ field "redacted_length" answer = None.
Proof. vm_compute. repeat split. Qed.

(** ** Counting *)

(** C6: the total of a run is the sum of its per-type counts, and that
    total is what the success response reports as [redactions_count]. *)
Theorem count_consistency (input : text) :
  totalRedactions (redact input) = sum_values (redactionMap (redact input))
  /\ metadata_field "redactions_count" (success (redact input))
     = Some (num (sum_values (redactionMap (redact input))))
  /\ metadata_field "redactions_by_type" (success (redact input))
     = Some (counts_json (redactionMap (redact input))).
Proof.
  assert (H : totalRedactions (redact input) = sum_values (redactionMap (redact input))).
  { unfold redact, pipeline. repeat apply applyRedaction_consistent. reflexivity. }
  split; [exact H|]. split; [|reflexivity].
  rewrite <- H. reflexivity.
Qed.

Lemma applyRedaction_nowhere pattern ph type validator st :
  matches_nowhere pattern (redactedText st) ->
  applyRedaction pattern ph type validator st
  = {| redactedText := redactedText st;
       redactionMap :=
         set type (match get type (redactionMap st) with Some n => n | None => 0 end + 0)%nat
             (redactionMap st);
       totalRedactions := (totalRedactions st + 0)%nat |}.
Proof.
  intros H. rewrite applyRedaction_eq, (replace_nowhere _ _ H). reflexivity.
Qed.

Lemma all_types_present_shape (input : text) :
  exists n1 n2 n3 n4 n5 : nat,
    redactionMap (redact input)
    = [("ipv4", n1); ("email", n2); ("ssn_us", n3); ("phone_us", n4); ("credit_card", n5)].
Proof.
  unfold redact, pipeline. rewrite !applyRedaction_eq. cbn [redactionMap redactedText].
  repeat eexists.
Qed.

(** C10: the per-type map of every run, which the success response
    carries as [redactions_by_type], has an entry for each of the five
    detectors, in the order they are applied, and the entry is 0 for a
    detector whose pattern matches nowhere in the text it is given. *)
Theorem all_types_present (input : text) :
  let s0 := {| redactedText := input; totalRedactions := 0; redactionMap := [] |} in
  let s1 := applyRedaction PATTERNS.IPV4 placeholder "ipv4" None s0 in
  let s2 := applyRedaction PATTERNS.EMAIL placeholder "email" None s1 in
  let s3 := applyRedaction PATTERNS.SSN_US placeholder "ssn_us" None s2 in
  let s4 := applyRedaction PATTERNS.PHONE_US placeholder "phone_us" None s3 in
  let s5 := applyRedaction PATTERNS.CREDIT_CARD placeholder "credit_card"
              (Some isValidCreditCard) s4 in
  redact input = s5
  /\ exists n1 n2 n3 n4 n5 : nat,
       redactionMap (redact input)
       = [("ipv4", n1); ("email", n2); ("ssn_us", n3); ("phone_us", n4); ("credit_card", n5)]
       /\ metadata_field "redactions_by_type" (success (redact input))
          = Some (JObj [("ipv4", num n1); ("email", num n2); ("ssn_us", num n3);
                        ("phone_us", num n4); ("credit_card", num n5)])
       /\ (matches_nowhere PATTERNS.IPV4 (redactedText s0) -> n1 = 0%nat)
       /\ (matches_nowhere PATTERNS.EMAIL (redactedText s1) -> n2 = 0%nat)
       /\ (matches_nowhere PATTERNS.SSN_US (redactedText s2) -> n3 = 0%nat)
       /\ (matches_nowhere PATTERNS.PHONE_US (redactedText s3) -> n4 = 0%nat)
       /\ (matches_nowhere PATTERNS.CREDIT_CARD (redactedText s4) -> n5 = 0%nat).
Proof.
  intros s0 s1 s2 s3 s4 s5. split; [reflexivity|].
  exists (snd (replace PATTERNS.IPV4 (redaction_callback placeholder None) (redactedText s0) 0%nat)),
         (snd (replace PATTERNS.EMAIL (redaction_callback placeholder None) (redactedText s1) 0%nat)),
         (snd (replace PATTERNS.SSN_US (redaction_callback placeholder None) (redactedText s2) 0%nat)),
         (snd (replace PATTERNS.PHONE_US (redaction_callback placeholder None) (redactedText s3) 0%nat)),
         (snd (replace PATTERNS.CREDIT_CARD (redaction_callback placeholder (Some isValidCreditCard))
                 (redactedText s4) 0%nat)).
  assert (Hmap : redactionMap (redact input)
                 = [("ipv4", snd (replace PATTERNS.IPV4 (redaction_callback placeholder None)
                                    (redactedText s0) 0%nat));
                    ("email", snd (replace PATTERNS.EMAIL (redaction_callback placeholder None)
                                     (redactedText s1) 0%nat));
                    ("ssn_us", snd (replace PATTERNS.SSN_US (redaction_callback placeholder None)
                                      (redactedText s2) 0%nat));
                    ("phone_us", snd (replace PATTERNS.PHONE_US (redaction_callback placeholder None)
                                        (redactedText s3) 0%nat));
                    ("credit_card",
                     snd (replace PATTERNS.CREDIT_CARD
                            (redaction_callback placeholder (Some isValidCreditCard))
                            (redactedText s4) 0%nat))]).
  { change (redact input) with s5. subst s5 s4 s3 s2 s1.
    rewrite !applyRedaction_eq. reflexivity. }
  split; [exact Hmap|]. split.
  - unfold metadata_field, success, field. cbn [get String.eqb Ascii.eqb Bool.eqb].
    rewrite Hmap. reflexivity.
  - repeat split; intros H; rewrite (replace_nowhere _ _ H); reflexivity.
Qed.

(** ** Rejected matches *)

(** C8: a match that the validator rejects is copied to the output as it
    is and the count goes on unchanged to the rest of the scan; when the
    validator rejects every match, [applyRedaction] leaves the text and the
    total as they are and adds 0 to the entry of its type. *)
Theorem rejected_match_untouched (pattern : regex) (ph : text) (valid : text -> bool) :
  (forall p q mt s count,
     mt <> [] ->
     match_at pattern (Cursor p (mt ++ s)) = Some (Cursor q s) ->
     valid mt = false ->
     replace_from pattern (redaction_callback ph (Some valid)) p (mt ++ s) 0 count
     = let '(out, count') :=
         replace_from pattern (redaction_callback ph (Some valid)) (last_of p mt) s 0 count in
       (mt ++ out, count'))
  /\ (forall type st,
        (forall mt, valid mt = false) ->
        applyRedaction pattern ph type (Some valid) st
        = {| redactedText := redactedText st;
             redactionMap :=
               set type (match get type (redactionMap st) with Some n => n | None => 0 end + 0)%nat
                   (redactionMap st);
             totalRedactions := (totalRedactions st + 0)%nat |}).
Proof.
  split.
  - intros p q mt s count Hne Hm Hv.
    rewrite (replace_from_match _ _ _ _ Hne Hm).
    unfold redaction_callback at 1. rewrite Hv. reflexivity.
  - intros type st Hv. rewrite applyRedaction_eq. unfold replace.
    rewrite replace_from_unchanged.
    + reflexivity.
    + intros mt c. unfold redaction_callback. now rewrite Hv.
    + lia.
Qed.

Lemma rejected_match_untouched_witness :
  replace_from PATTERNS.CREDIT_CARD (redaction_callback placeholder (Some isValidCreditCard))
    (Some 32%N) (str "1234567890123" ++ str " is different") 0 0%nat
  = (str "1234567890123 is different", 0%nat).
Proof.
  rewrite (proj1 (rejected_match_untouched PATTERNS.CREDIT_CARD placeholder isValidCreditCard)
             (Some 32%N) (Some 51%N) (str "1234567890123") (str " is different") 0%nat).
  - vm_compute. reflexivity.
  - vm_compute. discriminate.
  - vm_compute. reflexivity.
  - vm_compute. reflexivity.
Defined.

(** ** The credit-card validator *)

Lemma strip_separators (p : char -> bool) (s : text) (q : option char) :
  replace_from (Chr p) (fun _ (u : unit) => ([], u)) q s 0 tt
  = (filter (fun c => negb (p c)) s, tt).
Proof.
  revert q. induction s as [|ch s IH]; intros q.
  - reflexivity.
  - cbn [replace_from filter]. unfold match_at. cbn [m rest].
    destruct (p ch); cbn [negb rest].
    + replace (List.length (ch :: s) - List.length s)%nat with 1%nat
        by (cbn [List.length]; lia).
      cbn [firstn]. rewrite IH. reflexivity.
    + rewrite IH. reflexivity.
Qed.

Lemma luhn_loop (l : text) (sum : Z) (isEven : bool) :
  fst (fold_left luhn_turn l (sum, isEven)) = (sum + 2 * Z.of_nat (List.length l))%Z.
Proof.
  revert sum isEven. induction l as [|ch l IH]; intros sum isEven.
  - simpl. lia.
  - cbn [fold_left]. unfold luhn_turn at 2. rewrite IH. cbn [List.length]. lia.
Qed.

(** What [isValidCreditCard] computes: every digit adds 2 to the sum,
    whatever its value, so only the number of digits counts. *)
Lemma isValidCreditCard_counts (number : text) :
  isValidCreditCard number
  = ((2 * Z.of_nat (List.length
                      (filter (fun c => negb (is_space c || is_char "-" c)) number)))
       mod 10 =? 0)%Z.
Proof.
  unfold isValidCreditCard, replace. rewrite strip_separators. cbn [fst].
  pose proof (luhn_loop (rev (filter (fun c => negb (is_space c || is_char "-" c)) number))
                0 false) as H.
  destruct (fold_left _ _ _) as [sum e]. cbn [fst] in H. subst sum.
  rewrite length_rev. reflexivity.
Qed.

(** C1 (the code departs from it): the card number 4231 9001 6469 0061
    passes the Luhn checksum of the specification, yet [isValidCreditCard]
    rejects it and the text is left as it is; and the 15-digit number
    123456789012345 fails the checksum, yet is accepted and redacted. *)
Theorem luhn_validator_departs :
  spec_luhn_valid (str "4231 9001 6469 0061") = true
  /\ isValidCreditCard (str "4231 9001 6469 0061") = false
  /\ redact (str "4231 9001 6469 0061")
     = {| redactedText := str "4231 9001 6469 0061";
          totalRedactions := 0;
          redactionMap := [("ipv4", 0); ("email", 0); ("ssn_us", 0); ("phone_us", 0);
                           ("credit_card", 0)]%nat |}
  /\ spec_luhn_valid (str "123456789012345") = false
  /\ isValidCreditCard (str "123456789012345") = true
  /\ redact (str "123456789012345")
     = {| redactedText := str "[REDACTED]";
          totalRedactions := 1;
          redactionMap := [("ipv4", 0); ("email", 0); ("ssn_us", 0); ("phone_us", 0);
                           ("credit_card", 1)]%nat |}.
Proof. vm_compute. repeat split. Qed.

(** ** The order of the detectors *)

(** C3: the detectors run in the order ipv4, email, ssn_us, phone_us,
    credit_card (the order in which the per-type map receives its entries);
    the SSN of "My SSN is 123-45-6789." is redacted by ssn_us and the phone
    number of "Call me at 555-019-2834." by phone_us, and credit_card
    counts neither. *)
Theorem detector_order :
  (forall input,
     map fst (redactionMap (redact input))
     = ["ipv4"; "email"; "ssn_us"; "phone_us"; "credit_card"])
  /\ redact (str "My SSN is 123-45-6789.")
     = {| redactedText := str "My SSN is [REDACTED].";
          totalRedactions := 1;
          redactionMap := [("ipv4", 0); ("email", 0); ("ssn_us", 1); ("phone_us", 0);
                           ("credit_card", 0)]%nat |}
  /\ redact (str "Call me at 555-019-2834.")
     = {| redactedText := str "Call me at [REDACTED].";
          totalRedactions := 1;
          redactionMap := [("ipv4", 0); ("email", 0); ("ssn_us", 0); ("phone_us", 1);
                           ("credit_card", 0)]%nat |}.
Proof.
  split; [|vm_compute; split; reflexivity].
  intros input.
  destruct (all_types_present_shape input) as (n1 & n2 & n3 & n4 & n5 & ->).
  reflexivity.
Qed.

(** ** Reserved SSN ranges *)

(** C7 (the code departs from it): 123-45-6789 is redacted and 000-00-0000
    is not, but the optional dash that follows each exclusion lets reserved
    values through: an area of 900, 666 or 000 written after a dash, a
    group of 00 and a serial of 0000 written after a second dash are each
    redacted as an SSN. *)
Theorem ssn_reserved_ranges_let_through :
  let ssn_count (s : string) := get "ssn_us" (redactionMap (redact (str s))) in
  let masked (s : string) := redactedText (redact (str s)) in
  (masked "123-45-6789" = str "[REDACTED]" /\ ssn_count "123-45-6789" = Some 1%nat)
  /\ (masked "000-00-0000" = str "000-00-0000" /\ ssn_count "000-00-0000" = Some 0%nat)
  /\ (masked "900-45-6789" = str "900-45-6789" /\ ssn_count "900-45-6789" = Some 0%nat)
  /\ (masked "a-900-45-6789" = str "a[REDACTED]" /\ ssn_count "a-900-45-6789" = Some 1%nat)
  /\ (masked "a-666-45-6789" = str "a[REDACTED]" /\ ssn_count "a-666-45-6789" = Some 1%nat)
  /\ (masked "a-000-45-6789" = str "a[REDACTED]" /\ ssn_count "a-000-45-6789" = Some 1%nat)
  /\ (masked "123--00-6789" = str "[REDACTED]" /\ ssn_count "123--00-6789" = Some 1%nat)
  /\ (masked "123-45--0000" = str "[REDACTED]" /\ ssn_count "123-45--0000" = Some 1%nat).
Proof. vm_compute. repeat split. Qed.

(** ** IPv4 octets *)

Lemma is_char_eq a ch : is_char a ch = true -> ch = code a.
Proof. apply N.eqb_eq. Qed.

Lemma in_range_bounds lo hi ch :
  in_range lo hi ch = true -> (code lo <= ch <= code hi)%N.
Proof.
  unfold in_range. intros H. apply andb_prop in H. destruct H as [H1 H2].
  apply N.leb_le in H1. apply N.leb_le in H2. split; assumption.
Qed.

Ltac chr_step H :=
  let ch := fresh "ch" in
  let s := fresh "s" in
  let Hs := fresh "Hs" in
  let Hp := fresh "Hp" in
  destruct H as (ch & s & Hs & Hp & ->); cbn [rest prev] in *.

Ltac seq_step H :=
  let z := fresh "z" in
  let H1 := fresh "H" in
  destruct H as (z & H1 & H).

Ltac bool_to_prop :=
  repeat match goal with
    | H : is_char _ _ = true |- _ => apply is_char_eq in H; cbn in H
    | H : in_range _ _ _ = true |- _ => apply in_range_bounds in H; cbn in H
    end.

Lemma octet_ok_intro (o : text) :
  Forall (fun ch => 48 <= ch <= 57)%N o ->
  (1 <= List.length o <= 3)%nat ->
  (decimal o <= 255)%N ->
  octet_ok o = true.
Proof.
  intros Hd Hl Hv. unfold octet_ok.
  rewrite !andb_true_iff. repeat split.
  - apply forallb_forall. intros ch Hin.
    rewrite Forall_forall in Hd. specialize (Hd ch Hin).
    unfold is_digit, in_range. cbn. rewrite andb_true_iff, !N.leb_le. exact Hd.
  - apply Nat.leb_le. lia.
  - apply Nat.leb_le. lia.
  - apply N.leb_le. exact Hv.
Qed.

Lemma one_of_01 ch : one_of "01" ch = true -> ch = 48%N \/ ch = 49%N.
Proof.
  unfold one_of, is_char. cbn [list_ascii_of_string existsb].
  rewrite !orb_true_iff, !N.eqb_eq. cbn. intros [H | [H | H]]; auto. discriminate.
Qed.

Ltac digits_in_range :=
  repeat (apply Forall_cons; [lia|]); apply Forall_nil.

Lemma octet_shape (x y : cursor) :
  Matches PATTERNS.octet x y ->
  exists o, rest x = o ++ rest y /\ octet_ok o = true.
Proof.
  unfold PATTERNS.octet. cbn [Matches lit opt]. intros [H | [H | H]].
  - seq_step H. seq_step H. chr_step H0. chr_step H1. chr_step H.
    bool_to_prop. subst.
    exists [50; 53; ch1]%N. split; [assumption|].
    apply octet_ok_intro; [digits_in_range | simpl; lia | unfold decimal; cbn [fold_left app]; lia].
  - seq_step H. seq_step H. chr_step H0. chr_step H1. chr_step H.
    bool_to_prop. subst.
    exists [50; ch0; ch1]%N. split; [assumption|].
    apply octet_ok_intro; [digits_in_range | simpl; lia | unfold decimal; cbn [fold_left app]; lia].
  - seq_step H. seq_step H.
    destruct H0 as (n0 & _ & Hn0 & H0). destruct H as (n1 & _ & Hn1 & H).
    chr_step H1. bool_to_prop.
    assert (Hlead : exists lead, rest x = lead ++ ch :: s
                                 /\ (lead = [] \/ lead = [48%N] \/ lead = [49%N])).
    { destruct n0 as [|[|n0]]; [| |lia]; cbn [iter] in H0.
      - subst z. exists []. auto.
      - destruct H0 as (z' & H0 & ->). chr_step H0.
        apply one_of_01 in Hp0.
        exists [ch0]. split; [rewrite Hs0, Hs; reflexivity|].
        destruct Hp0 as [-> | ->]; auto. }
    destruct Hlead as (lead & Hx & Hlead).
    assert (Htail : exists tail, s = tail ++ rest y
                                 /\ (tail = [] \/ exists t, tail = [t] /\ 48 <= t <= 57)%N).
    { destruct n1 as [|[|n1]]; [| |lia]; cbn [iter] in H.
      - subst y. exists []. auto.
      - destruct H as (z' & H & ->). chr_step H. bool_to_prop.
        exists [ch0]. split; [assumption|]. right. exists ch0. auto. }
    destruct Htail as (tail & Hs' & Htail).
    exists (lead ++ ch :: tail). split.
    + rewrite Hx, Hs', <- app_assoc. reflexivity.
    + destruct Hlead as [-> | [-> | ->]]; destruct Htail as [-> | (t & -> & Ht)];
        (apply octet_ok_intro; [digits_in_range | simpl; lia | unfold decimal; cbn [fold_left app]; lia]).
Qed.

Lemma ipv4_shape (x y : cursor) :
  match_at PATTERNS.IPV4 x = Some y ->
  exists a b c d,
    rest x = a ++ dot :: b ++ dot :: c ++ dot :: d ++ rest y
    /\ octet_ok a = true /\ octet_ok b = true /\ octet_ok c = true /\ octet_ok d = true.
Proof.
  intros H. apply match_at_sound in H; [|reflexivity].
  unfold PATTERNS.IPV4, times in H. cbn [Matches] in H.
  destruct H as (x0 & [-> _] & H).
  destruct H as (x3 & (n & Hn3 & Hn3' & Hit) & x4 & Hd & -> & _).
  assert (n = 3%nat) by lia. subst n. cbn [iter] in Hit.
  destruct Hit as (x1 & (xa & Ha & Hdot1) & x2 & (xb & Hb & Hdot2) & x3' & (xc & Hc & Hdot3) & ->).
  fold PATTERNS.octet in Ha, Hb, Hc, Hd.
  apply octet_shape in Ha, Hb, Hc, Hd.
  destruct Ha as (a & Ea & Ha), Hb as (b & Eb & Hb), Hc as (c & Ec & Hc), Hd as (d & Ed & Hd).
  unfold lit in Hdot1, Hdot2, Hdot3.
  chr_step Hdot1. chr_step Hdot2. chr_step Hdot3. bool_to_prop. subst.
  exists a, b, c, d. repeat split; try assumption.
  rewrite Ea, Hs, Hs0, Hs1. reflexivity.
Qed.

(** C4 (as the code has it): whatever the IPv4 pattern matches is four
    runs of one to three digits, each of value 0 to 255, with dots between
    them, so an octet above 255 is never part of a match and
    999.999.999.999 is left alone; leading zeros are part of such runs. *)
Theorem ipv4_matches_are_bounded_quads :
  (forall x y,
     match_at PATTERNS.IPV4 x = Some y ->
     exists a b c d,
       rest x = a ++ dot :: b ++ dot :: c ++ dot :: d ++ rest y
       /\ octet_ok a = true /\ octet_ok b = true /\ octet_ok c = true /\ octet_ok d = true)
  /\ redact (str "999.999.999.999")
     = {| redactedText := str "999.999.999.999";
          totalRedactions := 0;
          redactionMap := [("ipv4", 0); ("email", 0); ("ssn_us", 0); ("phone_us", 0);
                           ("credit_card", 0)]%nat |}
  /\ redact (str "1.2.3.256") = {| redactedText := str "1.2.3.256";
          totalRedactions := 0;
          redactionMap := [("ipv4", 0); ("email", 0); ("ssn_us", 0); ("phone_us", 0);
                           ("credit_card", 0)]%nat |}.
Proof.
  split; [exact ipv4_shape|]. vm_compute. split; reflexivity.
Qed.

Lemma ipv4_matches_are_bounded_quads_witness :
  exists a b c d,
    str "192.168.1.1 is down" = a ++ dot :: b ++ dot :: c ++ dot :: d ++ str " is down"
    /\ octet_ok a = true /\ octet_ok b = true /\ octet_ok c = true /\ octet_ok d = true.
Proof.
  apply (proj1 ipv4_matches_are_bounded_quads
           (Cursor (Some 32%N) (str "192.168.1.1 is down"))
           (Cursor (Some 49%N) (str " is down"))).
  vm_compute. reflexivity.
Defined.

(** C4 (as the claim has it) fails: a dotted quad whose components are
    written with leading zeros is matched and redacted. *)
Lemma ipv4_leading_zeros_match :
  match_at PATTERNS.IPV4 (Cursor None (str "01.02.03.04")) = Some (Cursor (Some 52%N) [])
  /\ redact (str "Host 010.001.000.007 up")
     = {| redactedText := str "Host [REDACTED] up";
          totalRedactions := 1;
          redactionMap := [("ipv4", 1); ("email", 0); ("ssn_us", 0); ("phone_us", 0);
                           ("credit_card", 0)]%nat |}.
Proof. vm_compute. split; reflexivity. Qed.

(** ** Scanning a text with a detector *)

Lemma last_of_nonempty (p q : option char) (u : text) :
  u <> [] -> last_of p u = last_of q u.
Proof.
  intros H. unfold last_of. destruct (rev u) eqn:E; [|reflexivity].
  apply (f_equal (@rev char)) in E. rewrite rev_involutive in E. now subst u.
Qed.

Lemma head_word_placeholder (s : text) : head_word (placeholder ++ s) = false.
Proof. reflexivity. Qed.

Section Scan.
Variable re : regex.
Variable validator : option (text -> bool).
Hypothesis Hre : detector_pattern re.

Lemma callback_eq (u : text) (count : nat) :
  redaction_callback placeholder validator u count
  = if accepted validator u then (placeholder, S count) else (u, count).
Proof.
  unfold redaction_callback, accepted. destruct validator as [valid|]; [|reflexivity].
  now destruct (valid u).
Qed.

(** The count a scan starts with is only added to. *)
Lemma scan_count (s : text) :
  forall p skip count,
  replace_from re (redaction_callback placeholder validator) p s skip count
  = (fst (replace_from re (redaction_callback placeholder validator) p s skip 0%nat),
     (count + snd (replace_from re (redaction_callback placeholder validator) p s skip 0%nat))%nat).
Proof.
  induction s as [|ch s IH]; intros p skip count.
  - cbn [replace_from]. rewrite no_hit_at_end by exact Hre.
    destruct skip; cbn; f_equal; lia.
  - cbn [replace_from]. destruct skip as [|n]; [|apply IH].
    destruct (match_at re (Cursor p (ch :: s))) as [y|].
    + generalize (List.length (ch :: s) - List.length (rest y))%nat as n. intros n.
      rewrite !callback_eq.
      destruct (accepted validator (firstn n (ch :: s))); destruct n as [|n'];
        repeat match goal with
          | |- context [replace_from re ?f ?a ?b ?k (S ?c)] =>
              rewrite (IH a k (S c))
          | |- context [replace_from re ?f ?a ?b ?k count] =>
              rewrite (IH a k count)
          end;
        destruct (replace_from re _ _ s _ 0%nat) as [o h]; cbn [fst snd];
        f_equal; lia.
    + rewrite (IH (Some ch) 0%nat count).
      destruct (replace_from re _ _ s _ 0%nat) as [o h]. cbn [fst snd]. reflexivity.
Qed.

Lemma scan_eq (p : option char) (s : text) (count : nat) :
  replace_from re (redaction_callback placeholder validator) p s 0 count
  = (out re validator p s, (count + hits re validator p s)%nat).
Proof. apply scan_count. Qed.

(** The three things a scan can do at a position of the text. *)
Lemma scan_cases (p : option char) (s : text) :
  s = []
  \/ (exists ch s', s = ch :: s' /\ match_at re (Cursor p s) = None
                    /\ out re validator p s = ch :: out re validator (Some ch) s'
                    /\ hits re validator p s = hits re validator (Some ch) s')
  \/ (exists u v, s = u ++ v /\ u <> []
                  /\ match_at re (Cursor p s) = Some (Cursor (last_of p u) v)
                  /\ accepted validator u = false
                  /\ out re validator p s = u ++ out re validator (last_of p u) v
                  /\ hits re validator p s = hits re validator (last_of p u) v)
  \/ (exists u v, s = u ++ v /\ u <> []
                  /\ match_at re (Cursor p s) = Some (Cursor (last_of p u) v)
                  /\ accepted validator u = true
                  /\ out re validator p s = placeholder ++ out re validator (last_of p u) v
                  /\ hits re validator p s = S (hits re validator (last_of p u) v)).
Proof.
  destruct s as [|ch s']; [left; reflexivity | right].
  destruct (match_at re (Cursor p (ch :: s'))) as [y|] eqn:Em.
  - right.
    destruct (hit_facts Hre _ Em) as (u & Hu & Hp & Hne & _). cbn [rest prev] in Hu, Hp.
    assert (Hy : y = Cursor (last_of p u) (rest y)) by (destruct y; cbn in *; now subst).
    rewrite Hy in Em. rewrite Hu in Em.
    pose proof (@replace_from_match nat re (redaction_callback placeholder validator)
                  p (last_of p u) u (rest y) 0%nat Hne Em) as Hs.
    rewrite callback_eq in Hs. rewrite <- Hu in Hs.
    destruct (accepted validator u) eqn:Ea; [right | left]; exists u, (rest y);
      (split; [exact Hu|]); (split; [exact Hne|]); (split; [f_equal; exact Hy|]);
      (split; [exact Ea|]); unfold out, hits; rewrite Hs;
      rewrite (scan_eq (last_of p u) (rest y)); cbn [fst snd]; split; reflexivity.
  - left. exists ch, s'. split; [reflexivity|]. split; [first [exact Em | reflexivity]|].
    unfold out, hits.
    rewrite (@replace_from_miss nat re (redaction_callback placeholder validator) p ch s' 0%nat Em).
    destruct (replace_from re _ (Some ch) s' 0 0%nat). split; reflexivity.
Qed.
End Scan.

Section ScanShape.
Variable re : regex.
Variable validator : option (text -> bool).
Hypothesis Hre : detector_pattern re.

Lemma out_nil (p : option char) : out re validator p [] = [].
Proof. unfold out. cbn [replace_from]. now rewrite (no_hit_at_end Hre). Qed.

Lemma hits_nil (p : option char) : hits re validator p [] = 0%nat.
Proof. unfold hits. cbn [replace_from]. now rewrite (no_hit_at_end Hre). Qed.

(** Where a pattern could end in front of the output, the output and the
    input begin with code units of the same kind. *)
Lemma head_out (p q : option char) (s : text) :
  word_opt q = word_opt p ->
  at_boundary (Cursor q (out re validator p s)) = true ->
  head_word s = head_word (out re validator p s).
Proof.
  intros Hq Hb.
  destruct (scan_cases validator Hre p s)
    as [-> | [(ch & s' & -> & _ & Ho & _)
           | [(u & v & -> & Hne & _ & _ & Ho & _) | (u & v & -> & Hne & Hm & _ & Ho & _)]]].
  - now rewrite out_nil.
  - now rewrite Ho.
  - rewrite Ho. destruct u; [congruence | reflexivity].
  - rewrite Ho in *. rewrite head_word_placeholder.
    unfold at_boundary, word_before, word_after in Hb. cbn [prev rest] in Hb.
    fold (word_opt q) in Hb. fold (head_word (placeholder ++ out re validator (last_of p u) v)) in Hb.
    rewrite head_word_placeholder, xorb_false_r in Hb.
    destruct (hit_facts Hre _ Hm) as (_ & _ & _ & _ & _ & Hs & _).
    unfold at_boundary, word_before, word_after in Hs. cbn [prev rest] in Hs.
    fold (word_opt p) in Hs. fold (head_word (u ++ v)) in Hs.
    rewrite <- Hq, Hb in Hs. now destruct (head_word (u ++ v)).
Qed.

(** What a bracket-free run reads at the front of the output, it reads
    at the front of the input too, and stops before a code unit of the same
    kind.  [X] is text that stands in front of both. *)
Lemma prefix_out (n : nat) :
  forall s, (List.length s <= n)%nat ->
  forall p X u' tlO,
  (X <> [] -> word_opt p = word_opt (last_of None X)) ->
  X ++ out re validator p s = u' ++ tlO ->
  u' <> [] ->
  Forall no_bracket u' ->
  at_boundary (Cursor (last_of None u') tlO) = true ->
  exists tls, X ++ s = u' ++ tls /\ head_word tls = head_word tlO.
Proof.
  induction n as [|n IH]; intros s Hn p X u' tlO HX E Hne Hnb Hb.
  - destruct s; [|simpl in Hn; lia].
    rewrite out_nil in E. exists tlO. split; [exact E | reflexivity].
  - assert (Hsame : X = u' -> tlO = out re validator p s ->
                    exists tls, X ++ s = u' ++ tls /\ head_word tls = head_word tlO).
    { intros -> ->. exists s. split; [reflexivity|].
      apply head_out with (q := last_of None u'); [|exact Hb].
      symmetry. apply HX. exact Hne. }
    apply app_eq_app in E. destruct E as (l & [[EX Et] | [Eu Eo]]).
    + destruct l as [|c l].
      * rewrite app_nil_r in EX. apply Hsame; [exact EX | exact Et].
      * exists ((c :: l) ++ s). split; [now rewrite EX, <- app_assoc|].
        now rewrite Et.
    + destruct l as [|c l].
      * rewrite app_nil_r in Eu. apply Hsame; [now symmetry | now symmetry].
      * destruct (scan_cases validator Hre p s)
          as [-> | [(ch & s' & -> & _ & Ho & _)
                 | [(u & v & -> & Hu & _ & _ & Ho & _) | (u & v & -> & Hu & _ & _ & Ho & _)]]].
        -- rewrite out_nil in Eo. discriminate.
        -- rewrite Ho in Eo. injection Eo as <- Eo.
           destruct (IH s' ltac:(simpl in Hn; lia) (Some ch) (X ++ [ch]) u' tlO)
             as (tls & E1 & E2); try assumption.
           ++ intros _. now rewrite last_of_app.
           ++ rewrite Eo, Eu, <- !app_assoc. reflexivity.
           ++ exists tls. split; [|exact E2]. now rewrite <- E1, <- !app_assoc.
        -- rewrite Ho in Eo.
           assert (Hlen : (List.length v <= n)%nat).
           { rewrite length_app in Hn. destruct u; [congruence | simpl in Hn; lia]. }
           destruct (IH v Hlen (last_of p u) (X ++ u) u' tlO) as (tls & E1 & E2);
             try assumption.
           ++ intros _. rewrite last_of_app. f_equal. now apply last_of_nonempty.
           ++ rewrite <- app_assoc, Eo, Eu, <- !app_assoc. reflexivity.
           ++ exists tls. split; [|exact E2]. now rewrite <- E1, <- !app_assoc.
        -- rewrite Ho in Eo. injection Eo as <- _.
           rewrite Eu in Hnb. apply Forall_app in Hnb. destruct Hnb as [_ Hnb].
           inversion Hnb as [|? ? [Hopen _] _]. now contradiction Hopen.
Qed.
End ScanShape.

(** ** A detector looking at what another detector wrote *)

Lemma quiet_app (r : regex) (q : option char) (X t : text) :
  (forall A B, X = A ++ B -> B <> [] -> match_at r (Cursor (last_of q A) (B ++ t)) = None) ->
  quiet r (last_of q X) t ->
  quiet r q (X ++ t).
Proof.
  intros HX Ht a b E. apply app_eq_app in E. destruct E as (l & [[EX Eb] | [Ea Eb]]).
  - destruct l as [|c l].
    + rewrite app_nil_r in EX. subst a b. apply (Ht [] t eq_refl).
    + subst b. apply HX; [exact EX | discriminate].
  - subst a. rewrite last_of_app. apply Ht. exact Eb.
Qed.

Lemma quiet_tail (r : regex) (p : option char) (X t : text) :
  quiet r p (X ++ t) -> quiet r (last_of p X) t.
Proof.
  intros H a b E. rewrite <- last_of_app. apply H. now rewrite E, app_assoc.
Qed.

Lemma quiet_nil (r : regex) (q : option char) :
  detector_pattern r -> quiet r q [].
Proof.
  intros Hr a b E. symmetry in E. apply app_eq_nil in E. destruct E as [-> ->].
  apply (no_hit_at_end Hr).
Qed.

Lemma no_hit_without_boundary (r : regex) (x : cursor) :
  detector_pattern r -> at_boundary x = false -> match_at r x = None.
Proof.
  intros Hr Hb. destruct (match_at r x) as [y|] eqn:E; [|reflexivity].
  destruct (hit_facts Hr _ E) as (_ & _ & _ & _ & _ & Hs & _). congruence.
Qed.

Lemma placeholder_ends (X1 X2 : text) :
  placeholder = X1 ++ X2 -> X2 <> [] -> In close_bracket X2.
Proof.
  intros E Hne. apply (f_equal (@rev char)) in E. rewrite rev_app_distr in E.
  apply in_rev. destruct (rev X2) as [|c r2] eqn:E2.
  - apply (f_equal (@rev char)) in E2. rewrite rev_involutive in E2. now subst X2.
  - injection E as <- _. now left.
Qed.

Section OtherDetector.
Variable rD : regex.
Hypothesis HD : detector_pattern rD.

(** No detector matches from inside a placeholder. *)
Lemma placeholder_quiet (q : option char) (X1 X2 tail : text) :
  placeholder = X1 ++ X2 -> X2 <> [] ->
  match_at rD (Cursor (last_of q X1) (X2 ++ tail)) = None.
Proof.
  intros E Hne.
  destruct (match_at rD (Cursor (last_of q X1) (X2 ++ tail))) as [y|] eqn:Em; [|reflexivity].
  exfalso.
  destruct (@hit_facts rD HD _ _ Em) as (u & Hu & _ & Hune & Hnb & _). cbn [rest] in Hu.
  pose proof (@placeholder_ends X1 X2 E Hne) as Hclose.
  assert (Hbad : In close_bracket u -> False).
  { intros Hin. rewrite Forall_forall in Hnb. now destruct (Hnb _ Hin). }
  apply app_eq_app in Hu. destruct Hu as (l & [[E2 Ey] | [Eu _]]).
  - destruct l as [|c l].
    + rewrite app_nil_r in E2. subst u. auto.
    + destruct X1 as [|c1 X1].
      * cbn in E. rewrite <- E in E2. destruct u as [|c0 u]; [congruence|].
        injection E2 as <- _. inversion Hnb as [|? ? [Hopen _] _]. now contradiction Hopen.
      * assert (Hq : word_opt (last_of q (c1 :: X1)) = word_opt (last_of None (c1 :: X1))).
        { f_equal. apply last_of_nonempty. discriminate. }
        assert (Ht : head_word (rest y) = head_word (c :: l)) by now rewrite Ey.
        apply (@hit_transport rD HD _ _ _ _ _ Em Hq Ht u).
        -- rewrite Ey, E2, <- app_assoc. reflexivity.
        -- rewrite <- E2.
           apply (@nowhere_from_sound rD placeholder None (dp_placeholder HD) (c1 :: X1) X2 E).
  - apply Hbad. rewrite Eu. apply in_or_app. now left.
Qed.

Section Scanner.
Variable re : regex.
Variable validator : option (text -> bool).
Hypothesis Hre : detector_pattern re.

(** If [rD] matches at the front of the scanner's output it matches at
    the front of its input too.  [X] stands in front of both. *)
Lemma front_match (X : text) (p q qs : option char) (s : text) :
  (X <> [] -> word_opt p = word_opt (last_of None X)) ->
  word_opt q = word_opt qs ->
  match_at rD (Cursor q (X ++ out re validator p s)) <> None ->
  match_at rD (Cursor qs (X ++ s)) <> None.
Proof.
  intros HX Hq Hm.
  destruct (match_at rD (Cursor q (X ++ out re validator p s))) as [y|] eqn:Em; [|congruence].
  destruct (@hit_facts rD HD _ _ Em) as (u & Hu & Hp & Hune & Hnb & _ & Hend & _).
  cbn [rest prev] in Hu, Hp.
  assert (Hb : at_boundary (Cursor (last_of None u) (rest y)) = true).
  { rewrite (last_of_nonempty None q Hune), <- Hp. now destruct y. }
  destruct (@prefix_out re validator Hre (List.length s) s (le_n _) p X u (rest y)
              HX Hu Hune Hnb Hb)
    as (tls & E1 & E2).
  rewrite E1.
  apply (@hit_transport rD HD _ _ _ _ _ Em Hq (eq_sym E2) u Hu).
Qed.

(** A position in front of a run [B] that the scanner copied: where [rD]
    does not match in the input it does not match in the output. *)
Lemma chunk_position (A B : text) (p q : option char) (v : text) :
  B <> [] ->
  compat q p (A ++ B ++ v) ->
  match_at rD (Cursor (last_of p A) (B ++ v)) = None ->
  match_at rD (Cursor (last_of q A) (B ++ out re validator (last_of p (A ++ B)) v)) = None.
Proof.
  intros HB Hc Hnone.
  assert (Hmode : word_opt (last_of q A) = word_opt (last_of p A)
                  \/ (A = [] /\ word_opt q = false /\ head_word (B ++ v) = false)).
  { destruct A as [|a A].
    - destruct Hc as [Hc | [Hc1 Hc2]]; [left; exact Hc | right; auto].
    - left. f_equal. apply last_of_nonempty. discriminate. }
  destruct Hmode as [Hq | (-> & Hq & Hh)].
  - destruct (match_at rD (Cursor (last_of q A) (B ++ out re validator (last_of p (A ++ B)) v)))
      eqn:Em; [|reflexivity].
    exfalso.
    apply (@front_match B (last_of p (A ++ B)) (last_of q A) (last_of p A) v); try assumption.
    + intros _. rewrite last_of_app. f_equal. now apply last_of_nonempty.
    + rewrite Em. discriminate.
  - apply (no_hit_without_boundary _ HD).
    unfold at_boundary, word_before, word_after. cbn [prev rest last_of rev].
    fold (word_opt q). rewrite Hq.
    destruct B as [|b B]; [congruence|]. cbn in *. now rewrite Hh.
Qed.

(** After a placeholder the scan goes on in a compatible way. *)
Lemma compat_after_placeholder (p q : option char) (u v : text) :
  match_at re (Cursor p (u ++ v)) = Some (Cursor (last_of p u) v) ->
  compat (last_of q placeholder) (last_of p u) v.
Proof.
  intros Hm.
  destruct (@hit_facts re Hre _ _ Hm) as (_ & _ & _ & _ & _ & _ & Hend & _).
  unfold at_boundary, word_before, word_after in Hend. cbn [prev rest] in Hend.
  fold (word_opt (last_of p u)) in Hend. fold (head_word v) in Hend.
  change (last_of q placeholder) with (Some close_bracket).
  destruct (word_opt (last_of p u)) eqn:E.
  - right. split; [reflexivity|]. now destruct (head_word v).
  - left. rewrite E. reflexivity.
Qed.

(** (b) What [rD] does not match in a text it does not match in what the
    scanner makes of the text. *)
Lemma quiet_preserved (n : nat) :
  forall s, (List.length s <= n)%nat ->
  forall p q, compat q p s -> quiet rD p s -> quiet rD q (out re validator p s).
Proof.
  induction n as [|n IH]; intros s Hn p q Hc Hs.
  - destruct s; [|simpl in Hn; lia]. rewrite (out_nil validator Hre). now apply quiet_nil.
  - destruct (scan_cases validator Hre p s)
      as [-> | [(ch & s' & -> & _ & Ho & _)
             | [(u & v & -> & Hu & _ & _ & Ho & _) | (u & v & -> & Hu & Hm & _ & Ho & _)]]].
    + rewrite (out_nil validator Hre). now apply quiet_nil.
    + rewrite Ho. change (ch :: out re validator (Some ch) s')
        with ([ch] ++ out re validator (Some ch) s').
      apply quiet_app.
      * intros A B E HB.
        assert (A = [] /\ B = [ch]) as [-> ->].
        { destruct A as [|a A]; cbn in E.
          - now subst B.
          - injection E as _ E. symmetry in E. apply app_eq_nil in E.
            destruct E as [_ ->]. congruence. }
        apply (@chunk_position [] [ch] p q s'); [discriminate | exact Hc |].
        apply (Hs [] (ch :: s') eq_refl).
      * apply IH; [simpl in Hn; lia | left; reflexivity |].
        apply (@quiet_tail rD p [ch] s' Hs).
    + rewrite Ho. apply quiet_app.
      * intros A B E HB. subst u. rewrite <- app_assoc in Hc.
        apply chunk_position; [exact HB | exact Hc |].
        apply Hs. now rewrite <- app_assoc.
      * apply IH.
        -- rewrite length_app in Hn. destruct u; [congruence | simpl in Hn; lia].
        -- left. f_equal. now apply last_of_nonempty.
        -- now apply quiet_tail.
    + rewrite Ho. apply quiet_app.
      * intros A B E HB. now apply placeholder_quiet.
      * apply IH.
        -- rewrite length_app in Hn. destruct u; [congruence | simpl in Hn; lia].
        -- now apply compat_after_placeholder.
        -- now apply quiet_tail.
Qed.
End Scanner.
End OtherDetector.

(** ** A detector looking at what it wrote itself *)

Section Rescan.
Variable re : regex.
Variable validator : option (text -> bool).
Hypothesis Hre : detector_pattern re.

(** What is asked of the matches that the validator rejects: they begin
    with a word character, a code unit that is not one (or nothing)
    follows them, and they are found again, as they are, wherever the
    neighbours are of the same kind. *)
Hypothesis rejected_exact :
  forall p u v,
  u <> [] ->
  match_at re (Cursor p (u ++ v)) = Some (Cursor (last_of p u) v) ->
  accepted validator u = false ->
  head_word u = true /\ head_word v = false
  /\ forall q tl', word_opt q = word_opt p -> head_word tl' = false ->
       match_at re (Cursor q (u ++ tl')) = Some (Cursor (last_of q u) tl').

Lemma head_out_false (p : option char) (s : text) :
  head_word s = false -> head_word (out re validator p s) = false.
Proof.
  intros H.
  destruct (scan_cases validator Hre p s)
    as [-> | [(ch & s' & -> & _ & Ho & _)
           | [(u & v & -> & Hu & _ & _ & Ho & _) | (u & v & -> & Hu & _ & _ & Ho & _)]]].
  - now rewrite (out_nil validator Hre).
  - rewrite Ho. exact H.
  - rewrite Ho. destruct u; [congruence | exact H].
  - rewrite Ho. reflexivity.
Qed.

(** Code units in front of which the pattern does not match are copied. *)
Lemma verbatim_scan (X : text) :
  forall q t count,
  (forall A B, X = A ++ B -> B <> [] -> match_at re (Cursor (last_of q A) (B ++ t)) = None) ->
  replace_from re (redaction_callback placeholder validator) q (X ++ t) 0 count
  = let '(o, count') :=
      replace_from re (redaction_callback placeholder validator) (last_of q X) t 0 count in
    (X ++ o, count').
Proof.
  induction X as [|ch X IH]; intros q t count H.
  - cbn [app]. change (last_of q []) with q. now destruct (replace_from _ _ _ _ _ _).
  - cbn [app].
    rewrite (@replace_from_miss nat re _ q ch (X ++ t) count)
      by (apply (H [] (ch :: X) eq_refl); discriminate).
    rewrite IH.
    + rewrite last_of_cons. now destruct (replace_from _ _ _ _ _ _).
    + intros A B E HB. rewrite <- (last_of_cons q ch A).
      apply (H (ch :: A) B); [cbn; now rewrite E | exact HB].
Qed.

(** (c) Scanning its own output again, the detector changes nothing and
    counts nothing. *)
Lemma rescan (n : nat) :
  forall s, (List.length s <= n)%nat ->
  forall p q count, compat q p s ->
  replace_from re (redaction_callback placeholder validator) q (out re validator p s) 0 count
  = (out re validator p s, count).
Proof.
  induction n as [|n IH]; intros s Hn p q count Hc.
  - destruct s; [|simpl in Hn; lia]. rewrite (out_nil validator Hre).
    cbn [replace_from]. now rewrite (no_hit_at_end Hre).
  - destruct (scan_cases validator Hre p s)
      as [-> | [(ch & s' & -> & Hm & Ho & _)
             | [(u & v & -> & Hu & Hm & Ha & Ho & _) | (u & v & -> & Hu & Hm & _ & Ho & _)]]].
    + rewrite (out_nil validator Hre). cbn [replace_from]. now rewrite (no_hit_at_end Hre).
    + rewrite Ho.
      rewrite (@replace_from_miss nat re _ q ch (out re validator (Some ch) s') count).
      * rewrite IH; [reflexivity | simpl in Hn; lia | left; reflexivity].
      * apply (@chunk_position re Hre re validator Hre [] [ch] p q s');
          [discriminate | exact Hc | exact Hm].
    + rewrite Ho.
      destruct (@rejected_exact p u v Hu Hm Ha) as (Hhead & Htail & Hexact).
      assert (Hq : word_opt q = word_opt p).
      { destruct Hc as [Hc | [_ Hc]]; [exact Hc|].
        destruct u; [congruence|]. cbn in Hc, Hhead. congruence. }
      pose proof (Hexact q (out re validator (last_of p u) v) Hq
                    (@head_out_false (last_of p u) v Htail)) as Hm'.
      rewrite (@replace_from_match nat re _ q (last_of q u) u _ count Hu Hm').
      rewrite callback_eq, Ha.
      rewrite (last_of_nonempty q p Hu).
      rewrite IH; [reflexivity | | left; reflexivity].
      rewrite length_app in Hn. destruct u; [congruence | simpl in Hn; lia].
    + rewrite Ho. rewrite verbatim_scan.
      * rewrite IH; [reflexivity | | now apply (compat_after_placeholder Hre)].
        rewrite length_app in Hn. destruct u; [congruence | simpl in Hn; lia].
      * intros A B E HB. now apply placeholder_quiet.
Qed.
End Rescan.

(** A detector without a validator, looking at what it wrote. *)
Section Fresh.
Variable re : regex.
Hypothesis Hre : detector_pattern re.

Lemma hits_zero_quiet (t : text) :
  forall q, hits re None q t = 0%nat -> quiet re q t.
Proof.
  induction t as [|c t IH]; intros q H.
  - now apply quiet_nil.
  - destruct (scan_cases None Hre q (c :: t))
      as [E | [(ch & s' & E & Hm & _ & Hh)
             | [(u & v & _ & _ & _ & Ha & _) | (u & v & _ & _ & _ & _ & _ & Hh)]]].
    + discriminate.
    + injection E as <- <-. rewrite Hh in H.
      change (c :: t) with ([c] ++ t). apply quiet_app.
      * intros A B E HB.
        assert (A = [] /\ B = [c]) as [-> ->].
        { destruct A as [|a A]; cbn in E.
          - now subst B.
          - injection E as _ E. symmetry in E. apply app_eq_nil in E.
            destruct E as [_ ->]. congruence. }
        exact Hm.
      * apply IH. exact H.
    + discriminate.
    + rewrite Hh in H. discriminate.
Qed.

(** (a) Its pattern matches nowhere in its output. *)
Lemma fresh (p q : option char) (s : text) :
  compat q p s -> quiet re q (out re None p s).
Proof.
  intros Hc. apply hits_zero_quiet.
  assert (Hex : forall p u v,
             u <> [] ->
             match_at re (Cursor p (u ++ v)) = Some (Cursor (last_of p u) v) ->
             accepted None u = false ->
             head_word u = true /\ head_word v = false
             /\ forall q tl', word_opt q = word_opt p -> head_word tl' = false ->
                  match_at re (Cursor q (u ++ tl')) = Some (Cursor (last_of q u) tl'))
    by (intros ? ? ? _ _ Ha; discriminate).
  pose proof (@rescan re None Hre Hex (List.length s) s (le_n _) p q 0%nat Hc) as H.
  rewrite (scan_eq None Hre) in H. now injection H.
Qed.
End Fresh.

(** ** The credit-card pattern, step by step *)

Lemma match_at_credit_card (x : cursor) :
  match_at PATTERNS.CREDIT_CARD x = if at_boundary x then cc_digits 19 13 x else None.
Proof.
  unfold match_at, PATTERNS.CREDIT_CARD, between, cc_digits, cc_exit, star_lazy, digit.
  cbn [m]. reflexivity.
Qed.

Lemma lazy_seps_ext (d1 d2 : cont) (s : text) :
  forall p,
  (forall p' s', (List.length s' <= List.length s)%nat ->
                 d1 (Cursor p' s') = d2 (Cursor p' s')) ->
  lazy_seps d1 p s = lazy_seps d2 p s.
Proof.
  induction s as [|ch s IH]; intros p H; cbn [lazy_seps].
  - now rewrite H.
  - rewrite H by lia. destruct (d2 _); [reflexivity|].
    destruct (cc_sep ch); [|reflexivity].
    apply IH. intros p' s' Hl. apply H. simpl. lia.
Qed.

Lemma star_lazy_eq (d : cont) (s : text) :
  forall p bound, (List.length s <= bound)%nat ->
  RepeatMatcher (m (Chr cc_sep)) false d bound 0 (Cursor p s) = lazy_seps d p s.
Proof.
  induction s as [|ch s IH]; intros p bound Hb.
  - destruct bound; cbn [RepeatMatcher lazy_seps Nat.eqb negb m rest];
      destruct (d (Cursor p [])); reflexivity.
  - destruct bound as [|bound]; [simpl in Hb; lia|].
    cbn [RepeatMatcher lazy_seps Nat.eqb negb m rest].
    destruct (d (Cursor p (ch :: s))); [reflexivity|].
    destruct (cc_sep ch); [|reflexivity].
    unfold same_place. cbn [rest List.length andb].
    replace (List.length s =? S (List.length s))%nat with false
      by (symmetry; apply Nat.eqb_neq; lia).
    apply IH. simpl in Hb. lia.
Qed.

(** One turn of the quantifier. *)
Lemma cc_digits_step (max min : nat) (p : option char) (s : text) :
  cc_digits (S max) min (Cursor p s)
  = let turn :=
      match s with
      | ch :: s' =>
          if is_digit ch then lazy_seps (cc_digits max (Nat.pred min)) (Some ch) s' else None
      | [] => None
      end in
    if negb (min =? 0)%nat then turn
    else match turn with Some z => Some z | None => cc_exit (Cursor p s) end.
Proof.
  unfold cc_digits at 1. cbn [RepeatMatcher].
  set (d := fun y : cursor =>
              if (min =? 0)%nat && same_place (Cursor p s) y then None
              else RepeatMatcher (m (digit ;; star_lazy (Chr cc_sep))%re) true cc_exit max
                     (Nat.pred min) y).
  assert (Hturn : m (digit ;; star_lazy (Chr cc_sep))%re d (Cursor p s)
                  = match s with
                    | ch :: s' =>
                        if is_digit ch
                        then lazy_seps (cc_digits max (Nat.pred min)) (Some ch) s' else None
                    | [] => None
                    end).
  { cbn [m digit rest]. destruct s as [|ch s']; [reflexivity|].
    destruct (is_digit ch); [|reflexivity].
    unfold star_lazy. cbn [m rest prev Nat.add].
    rewrite star_lazy_eq by lia.
    apply lazy_seps_ext. intros p' s'' Hl. unfold d, same_place. cbn [rest List.length].
    replace (List.length s'' =? S (List.length s'))%nat with false
      by (symmetry; apply Nat.eqb_neq; lia).
    rewrite andb_false_r. reflexivity. }
  rewrite Hturn. reflexivity.
Qed.

Lemma cc_sep_not_word (ch : char) : cc_sep ch = true -> is_word ch = false.
Proof.
  unfold cc_sep, one_of, is_char. cbn [list_ascii_of_string existsb].
  rewrite !orb_true_iff, !N.eqb_eq. cbn. intros [-> | [-> | H]]; [reflexivity.. | discriminate].
Qed.

Lemma is_digit_word (ch : char) : is_digit ch = true -> is_word ch = true.
Proof. intros H. unfold is_word. rewrite H. now rewrite orb_true_r. Qed.

Lemma cc_sep_not_digit (ch : char) : cc_sep ch = true -> is_digit ch = false.
Proof.
  intros H. apply cc_sep_not_word in H.
  destruct (is_digit ch) eqn:E; [|reflexivity].
  apply is_digit_word in E. congruence.
Qed.

Lemma cc_exit_eq (x : cursor) : cc_exit x = if at_boundary x then Some x else None.
Proof. reflexivity. Qed.

Lemma cc_digits_zero (min : nat) (x : cursor) : cc_digits 0 min x = cc_exit x.
Proof. reflexivity. Qed.

(** The quantifier only moves forward. *)
Lemma cc_digits_length (max min : nat) (x z : cursor) :
  (min <= max)%nat -> cc_digits max min x = Some z ->
  (List.length (rest z) <= List.length (rest x))%nat.
Proof.
  intros Hle H.
  assert (Hwf : well_formed (Rep min (Some max) true (digit ;; star_lazy (Chr cc_sep))%re) = true).
  { cbn. rewrite andb_true_r. now apply Nat.leb_le. }
  change (m (Rep min (Some max) true (digit ;; star_lazy (Chr cc_sep))%re) cc_exit x = Some z) in H.
  apply (m_sound _ Hwf) in H. destruct H as (y & HM & Hy).
  rewrite cc_exit_eq in Hy. destruct (at_boundary y); [|discriminate]. injection Hy as <-.
  apply Matches_consumes in HM. destruct HM as (u & Hu & _). apply reads_length in Hu. lia.
Qed.

Lemma lazy_seps_length (d : cont) (s : text) :
  (forall x z, d x = Some z -> (List.length (rest z) <= List.length (rest x))%nat) ->
  forall p z, lazy_seps d p s = Some z -> (List.length (rest z) <= List.length s)%nat.
Proof.
  intros Hd. induction s as [|ch s IH]; intros p z H; cbn [lazy_seps] in H.
  - destruct (d (Cursor p [])) eqn:E; [|discriminate]. injection H as ->.
    apply Hd in E. exact E.
  - destruct (d (Cursor p (ch :: s))) eqn:E.
    + injection H as ->. apply Hd in E. exact E.
    + destruct (cc_sep ch); [|discriminate]. apply IH in H. simpl. lia.
Qed.

(** In front of a separator the quantifier can only leave, and only when
    its compulsory turns are done and a word character stands before. *)
Lemma cc_digits_at_sep (max min : nat) (p : option char) (ch : char) (s : text) :
  (min <= max)%nat -> cc_sep ch = true ->
  cc_digits max min (Cursor p (ch :: s))
  = if (min =? 0)%nat && word_opt p then Some (Cursor p (ch :: s)) else None.
Proof.
  intros Hle Hsep.
  assert (Hexit : cc_exit (Cursor p (ch :: s))
                  = if word_opt p then Some (Cursor p (ch :: s)) else None).
  { rewrite cc_exit_eq. unfold at_boundary, word_before, word_after. cbn [prev rest].
    fold (word_opt p). now rewrite (cc_sep_not_word _ Hsep), xorb_false_r. }
  destruct max as [|max].
  - assert (min = 0%nat) by lia. subst min. rewrite cc_digits_zero. exact Hexit.
  - rewrite cc_digits_step. cbv zeta. rewrite (cc_sep_not_digit _ Hsep).
    destruct (min =? 0)%nat; cbn [negb andb]; [exact Hexit | reflexivity].
Qed.

(** A match of the quantifier ends behind a word character, unless no
    turn was taken. *)
Lemma cc_digits_ends_word (max : nat) :
  forall min p s y,
  (min <= max)%nat ->
  cc_digits max min (Cursor p s) = Some y ->
  (min = 0%nat /\ y = Cursor p s) \/ word_opt (prev y) = true.
Proof.
  induction max as [|max IH]; intros min p s y Hle H.
  - rewrite cc_digits_zero, cc_exit_eq in H.
    destruct (at_boundary (Cursor p s)); [|discriminate]. injection H as <-.
    left. split; [lia | reflexivity].
  - rewrite cc_digits_step in H. cbv zeta in H.
    assert (Hlazy : forall s' c0 y',
               is_word c0 = true \/ Nat.pred min <> 0%nat ->
               lazy_seps (cc_digits max (Nat.pred min)) (Some c0) s' = Some y' ->
               word_opt (prev y') = true).
    { induction s' as [|c1 s1 IHs]; intros c0 y' Hc0 Hl; cbn [lazy_seps] in Hl.
      - destruct (cc_digits max (Nat.pred min) (Cursor (Some c0) [])) eqn:E; [|discriminate].
        injection Hl as ->. apply IH in E; [|lia].
        destruct E as [[Hm ->] | E]; [|exact E].
        cbn. destruct Hc0 as [Hc0 | Hc0]; [exact Hc0 | contradiction].
      - destruct (cc_digits max (Nat.pred min) (Cursor (Some c0) (c1 :: s1))) eqn:E.
        + injection Hl as ->. apply IH in E; [|lia].
          destruct E as [[Hm ->] | E]; [|exact E].
          cbn. destruct Hc0 as [Hc0 | Hc0]; [exact Hc0 | contradiction].
        + destruct (cc_sep c1) eqn:Hsep; [|discriminate].
          apply IHs in Hl; [exact Hl|]. right.
          rewrite cc_digits_at_sep in E by (try lia; exact Hsep).
          destruct (Nat.pred min) as [|k]; [|discriminate].
          cbn [Nat.eqb andb word_opt] in E.
          destruct Hc0 as [Hc0 | Hc0]; [|contradiction].
          rewrite Hc0 in E. discriminate. }
    destruct s as [|ch s'].
    + destruct (min =? 0)%nat eqn:Em; cbn [negb] in H; [|discriminate].
      rewrite cc_exit_eq in H. destruct (at_boundary _); [|discriminate].
      injection H as <-. left. split; [now apply Nat.eqb_eq | reflexivity].
    + destruct (is_digit ch) eqn:Hd.
      * destruct (lazy_seps (cc_digits max (Nat.pred min)) (Some ch) s') eqn:El.
        -- assert (y = c) by (destruct (min =? 0)%nat; cbn [negb] in H; congruence).
           subst c. right. apply (Hlazy s' ch y); [|exact El].
           left. now apply is_digit_word.
        -- destruct (min =? 0)%nat eqn:Em; cbn [negb] in H; [|discriminate].
           rewrite cc_exit_eq in H. destruct (at_boundary _); [|discriminate].
           injection H as <-. left. split; [now apply Nat.eqb_eq | reflexivity].
      * destruct (min =? 0)%nat eqn:Em; cbn [negb] in H; [|discriminate].
        rewrite cc_exit_eq in H. destruct (at_boundary _); [|discriminate].
        injection H as <-. left. split; [now apply Nat.eqb_eq | reflexivity].
Qed.

Lemma cursor_shorter (p q : option char) (u v : text) :
  Cursor p (u ++ v) = Cursor q v -> u = [].
Proof.
  intros H. injection H as _ H.
  assert (Hl : List.length (u ++ v) = List.length v) by now rewrite H.
  rewrite length_app in Hl. destruct u; [reflexivity | simpl in Hl; lia].
Qed.

(** The match of the quantifier is found again, as it is, wherever what
    follows it does not begin with a word character. *)
Lemma cc_digits_exact (max : nat) :
  forall min, (min <= max)%nat ->
  forall p q u v tl',
  head_word v = false -> head_word tl' = false -> word_opt p = word_opt q ->
  cc_digits max min (Cursor p (u ++ v)) = Some (Cursor (last_of p u) v) ->
  cc_digits max min (Cursor q (u ++ tl')) = Some (Cursor (last_of q u) tl').
Proof.
  induction max as [|max IH]; intros min Hle p q u v tl' Hv Ht Hpq H.
  - rewrite cc_digits_zero, cc_exit_eq in *.
    destruct (at_boundary (Cursor p (u ++ v))) eqn:Hb; [|discriminate].
    assert (Hu : u = []) by (apply (@cursor_shorter p (last_of p u) u v); congruence).
    subst u. cbn [app] in *. change (last_of q []) with q.
    unfold at_boundary, word_before, word_after in *. cbn [prev rest] in *.
    fold (word_opt p) in Hb. fold (word_opt q). fold (head_word v) in Hb. fold (head_word tl').
    rewrite Hv in Hb. rewrite Ht, <- Hpq, Hb. reflexivity.
  - assert (Hexit : forall z, cc_exit (Cursor p (u ++ v)) = Some z ->
                    z = Cursor (last_of p u) v ->
                    u = [] /\ cc_exit (Cursor q tl') = Some (Cursor q tl')).
    { intros z Hz ->. rewrite cc_exit_eq in Hz.
      destruct (at_boundary (Cursor p (u ++ v))) eqn:Hb; [|discriminate].
      assert (Hu : u = []) by (apply (@cursor_shorter p (last_of p u) u v); congruence).
      subst u. split; [reflexivity|].
      rewrite cc_exit_eq. cbn [app] in Hb.
      unfold at_boundary, word_before, word_after in *. cbn [prev rest] in *.
      fold (word_opt p) in Hb. fold (word_opt q). fold (head_word v) in Hb. fold (head_word tl').
      rewrite Hv in Hb. rewrite Ht, <- Hpq, Hb. reflexivity. }
    assert (Hlazy : forall w c0,
               lazy_seps (cc_digits max (Nat.pred min)) (Some c0) (w ++ v)
               = Some (Cursor (last_of (Some c0) w) v) ->
               lazy_seps (cc_digits max (Nat.pred min)) (Some c0) (w ++ tl')
               = Some (Cursor (last_of (Some c0) w) tl')).
    { induction w as [|c1 w1 IHw]; intros c0 Hl.
      - cbn [app] in *. change (last_of (Some c0) []) with (Some c0) in *.
        destruct (cc_digits max (Nat.pred min) (Cursor (Some c0) v)) eqn:E.
        + assert (c = Cursor (Some c0) v).
          { destruct v; cbn [lazy_seps] in Hl; rewrite E in Hl; congruence. }
          subst c.
          apply (IH (Nat.pred min) ltac:(lia) (Some c0) (Some c0) [] v tl' Hv Ht eq_refl) in E.
          cbn [app] in E. change (last_of (Some c0) []) with (Some c0) in E.
          destruct tl'; cbn [lazy_seps]; now rewrite E.
        + exfalso. destruct v as [|c1 s1]; cbn [lazy_seps] in Hl; rewrite E in Hl;
            [discriminate|].
          destruct (cc_sep c1); [|discriminate].
          apply lazy_seps_length in Hl.
          * cbn [rest List.length] in Hl. lia.
          * intros x z. apply cc_digits_length. lia.
      - cbn [app lazy_seps] in *.
        destruct (cc_digits max (Nat.pred min) (Cursor (Some c0) (c1 :: w1 ++ v))) eqn:E.
        + injection Hl as ->.
          apply (IH (Nat.pred min) ltac:(lia) (Some c0) (Some c0) (c1 :: w1) v tl' Hv Ht eq_refl)
            in E.
          cbn [app] in E. now rewrite E.
        + destruct (cc_sep c1) eqn:Hsep; [|discriminate].
          rewrite cc_digits_at_sep in E |- * by (try lia; exact Hsep).
          destruct ((Nat.pred min =? 0)%nat && word_opt (Some c0)); [discriminate|].
          rewrite last_of_cons in Hl |- *. apply IHw. exact Hl. }
    rewrite cc_digits_step in H |- *. cbv zeta in H |- *.
    destruct u as [|ch u1].
    + cbn [app] in *. change (last_of p []) with p in H. change (last_of q []) with q.
      assert (Hnot : forall t, head_word t = false ->
                match t with
                | ch :: s' =>
                    if is_digit ch
                    then lazy_seps (cc_digits max (Nat.pred min)) (Some ch) s' else None
                | [] => None
                end = None).
      { intros [|ch s'] Hh; [reflexivity|]. cbn in Hh.
        destruct (is_digit ch) eqn:Hd; [|reflexivity].
        apply is_digit_word in Hd. congruence. }
      rewrite (Hnot v Hv) in H. rewrite (Hnot tl' Ht).
      destruct (min =? 0)%nat; cbn [negb] in *; [|discriminate].
      now destruct (Hexit _ H eq_refl) as [_ ->].
    + cbn [app] in *.
      destruct (is_digit ch) eqn:Hd.
      * destruct (lazy_seps (cc_digits max (Nat.pred min)) (Some ch) (u1 ++ v)) eqn:El.
        -- assert (c = Cursor (last_of p (ch :: u1)) v)
             by (destruct (min =? 0)%nat; cbn [negb] in H; congruence).
           subst c. rewrite last_of_cons in El. apply Hlazy in El. rewrite El.
           rewrite last_of_cons. now destruct (min =? 0)%nat.
        -- destruct (min =? 0)%nat; cbn [negb] in H; [|discriminate].
           destruct (Hexit _ H eq_refl) as [Hu _]. discriminate.
      * destruct (min =? 0)%nat; cbn [negb] in H; [|discriminate].
        destruct (Hexit _ H eq_refl) as [Hu _]. discriminate.
Qed.

(** What the idempotence argument asks of the matches that
    [isValidCreditCard] rejects holds of every credit-card match. *)
Lemma credit_card_exact (p : option char) (u v : text) :
  u <> [] ->
  match_at PATTERNS.CREDIT_CARD (Cursor p (u ++ v)) = Some (Cursor (last_of p u) v) ->
  head_word u = true /\ head_word v = false
  /\ forall q tl', word_opt q = word_opt p -> head_word tl' = false ->
       match_at PATTERNS.CREDIT_CARD (Cursor q (u ++ tl')) = Some (Cursor (last_of q u) tl').
Proof.
  intros Hu Hm.
  pose proof (@hit_facts _ CREDIT_CARD_detector _ _ Hm) as (_ & _ & _ & _ & _ & Hstart & Hend & _).
  rewrite match_at_credit_card, Hstart in Hm.
  assert (Hhead : head_word u = true).
  { rewrite cc_digits_step in Hm. cbv zeta in Hm. cbn [Nat.eqb negb] in Hm.
    destruct u as [|ch u1]; [congruence|]. cbn [app] in Hm. cbn.
    destruct (is_digit ch) eqn:Hd; [|discriminate]. now apply is_digit_word. }
  assert (Htail : head_word v = false).
  { assert (Hle : (13 <= 19)%nat) by lia.
    destruct (@cc_digits_ends_word 19 13 p (u ++ v) _ Hle Hm) as [[H0 _] | Hw];
      [discriminate|].
    cbn [prev] in Hw.
    unfold at_boundary, word_before, word_after in Hend. cbn [prev rest] in Hend.
    fold (word_opt (last_of p u)) in Hend. fold (head_word v) in Hend.
    rewrite Hw in Hend. now destruct (head_word v). }
  split; [exact Hhead|]. split; [exact Htail|].
  intros q tl' Hq Ht.
  assert (Hb : at_boundary (Cursor q (u ++ tl')) = true).
  { unfold at_boundary, word_before, word_after in *. cbn [prev rest] in *.
    fold (word_opt q). fold (word_opt p) in Hstart.
    destruct u as [|ch u1]; [congruence|]. cbn [app] in *. now rewrite Hq. }
  rewrite match_at_credit_card, Hb.
  assert (Hle : (13 <= 19)%nat) by lia.
  apply (@cc_digits_exact 19 13 Hle p q u v tl' Htail Ht (eq_sym Hq) Hm).
Qed.

(** ** Idempotence *)

Lemma redactedText_applyRedaction pattern type validator st :
  redactedText (applyRedaction pattern placeholder type validator st)
  = out pattern validator None (redactedText st).
Proof. rewrite applyRedaction_eq. reflexivity. Qed.

Lemma redactedText_redact (input : text) : redactedText (redact input) = after_card input.
Proof.
  unfold redact, pipeline. rewrite !redactedText_applyRedaction. reflexivity.
Qed.

Lemma compat_start (s : text) : compat None None s.
Proof. left. reflexivity. Qed.

Lemma preserved (rD re : regex) (validator : option (text -> bool)) (s : text) :
  detector_pattern rD -> detector_pattern re ->
  quiet rD None s -> quiet rD None (out re validator None s).
Proof.
  intros HD Hre H.
  apply (@quiet_preserved rD HD re validator Hre (List.length s) s (le_n _) None None
           (compat_start s) H).
Qed.

Lemma ipv4_quiet (input : text) : quiet PATTERNS.IPV4 None (after_card input).
Proof.
  unfold after_card, after_phone, after_ssn, after_email.
  do 4 (apply preserved;
          auto using IPV4_detector, EMAIL_detector, SSN_US_detector, PHONE_US_detector,
                     CREDIT_CARD_detector).
  apply fresh; [exact IPV4_detector | apply compat_start].
Qed.

Lemma email_quiet (input : text) : quiet PATTERNS.EMAIL None (after_card input).
Proof.
  unfold after_card, after_phone, after_ssn.
  do 3 (apply preserved;
          auto using IPV4_detector, EMAIL_detector, SSN_US_detector, PHONE_US_detector,
                     CREDIT_CARD_detector).
  apply fresh; [exact EMAIL_detector | apply compat_start].
Qed.

Lemma ssn_quiet (input : text) : quiet PATTERNS.SSN_US None (after_card input).
Proof.
  unfold after_card, after_phone.
  do 2 (apply preserved;
          auto using IPV4_detector, EMAIL_detector, SSN_US_detector, PHONE_US_detector,
                     CREDIT_CARD_detector).
  apply fresh; [exact SSN_US_detector | apply compat_start].
Qed.

Lemma phone_quiet (input : text) : quiet PATTERNS.PHONE_US None (after_card input).
Proof.
  unfold after_card.
  do 1 (apply preserved;
          auto using IPV4_detector, EMAIL_detector, SSN_US_detector, PHONE_US_detector,
                     CREDIT_CARD_detector).
  apply fresh; [exact PHONE_US_detector | apply compat_start].
Qed.

Lemma card_rescan (input : text) :
  replace PATTERNS.CREDIT_CARD (redaction_callback placeholder (Some isValidCreditCard))
    (after_card input) 0%nat
  = (after_card input, 0%nat).
Proof.
  unfold replace, after_card.
  apply (@rescan PATTERNS.CREDIT_CARD (Some isValidCreditCard) CREDIT_CARD_detector)
    with (n := List.length (after_phone input)); [| apply le_n | apply compat_start].
  intros p u v Hu Hm _. now apply credit_card_exact.
Qed.

Lemma placeholder_never_matches (r : regex) :
  detector_pattern r -> matches_nowhere r placeholder.
Proof.
  intros Hr u v E.
  exact (@nowhere_from_sound r placeholder None (dp_placeholder Hr) u v E).
Qed.

(** C5: redacting the text of a run again changes nothing and counts
    nothing, for every input; and none of the five patterns matches
    anywhere in the placeholder. *)
Theorem redact_idempotent (input : text) :
  redact (redactedText (redact input))
  = {| redactedText := redactedText (redact input);
       totalRedactions := 0;
       redactionMap := [("ipv4", 0); ("email", 0); ("ssn_us", 0); ("phone_us", 0);
                        ("credit_card", 0)]%nat |}
  /\ matches_nowhere PATTERNS.IPV4 placeholder
  /\ matches_nowhere PATTERNS.EMAIL placeholder
  /\ matches_nowhere PATTERNS.SSN_US placeholder
  /\ matches_nowhere PATTERNS.PHONE_US placeholder
  /\ matches_nowhere PATTERNS.CREDIT_CARD placeholder.
Proof.
  split;
    [| repeat apply conj; apply placeholder_never_matches;
       auto using IPV4_detector, EMAIL_detector, SSN_US_detector, PHONE_US_detector,
                  CREDIT_CARD_detector ].
  rewrite redactedText_redact.
  unfold redact, pipeline.
  rewrite (@applyRedaction_nowhere PATTERNS.IPV4) by apply ipv4_quiet.
  cbn [redactedText redactionMap totalRedactions].
  rewrite (@applyRedaction_nowhere PATTERNS.EMAIL) by apply email_quiet.
  cbn [redactedText redactionMap totalRedactions].
  rewrite (@applyRedaction_nowhere PATTERNS.SSN_US) by apply ssn_quiet.
  cbn [redactedText redactionMap totalRedactions].
  rewrite (@applyRedaction_nowhere PATTERNS.PHONE_US) by apply phone_quiet.
  cbn [redactedText redactionMap totalRedactions].
  rewrite applyRedaction_eq. cbn [redactedText redactionMap totalRedactions].
  rewrite card_rescan. reflexivity.
Qed.

Example second_run_example :
  redactedText (redact (str "Mail a@b.cc from 10.0.0.1, card 123456789012345 or 4231 9001 6469 0061"))
  = str "Mail [REDACTED] from [REDACTED], card [REDACTED] or 4231 9001 6469 0061"
  /\ redact (str "Mail [REDACTED] from [REDACTED], card [REDACTED] or 4231 9001 6469 0061")
     = {| redactedText := str "Mail [REDACTED] from [REDACTED], card [REDACTED] or 4231 9001 6469 0061";
          totalRedactions := 0;
          redactionMap := [("ipv4", 0); ("email", 0); ("ssn_us", 0); ("phone_us", 0);
                           ("credit_card", 0)]%nat |}.
Proof. vm_compute. split; reflexivity. Qed.

(** * Further properties of the code *)

(** ** The answers of the handler *)

Lemma handler_not_string (fields : object json) (v : json) :
  get "text" fields = Some v ->
  (forall input, v <> JStr input) ->
  handler (Some (JObj fields)) = invalid_input.
Proof.
  intros Hg Hv. unfold handler, text_of. rewrite Hg.
  destruct v as [|b|n|input|items|fields']; cbn [truthy typeof];
    try reflexivity.
  - now destruct b.
  - now destruct (negb (n =? 0)%Z).
  - now contradiction (Hv input).
Qed.

(** X1: the handler answers 200 exactly to a body that is an object whose
    [text] is a string, not empty and of at most [MAX_INPUT_LENGTH] code
    units; the answer is then the success response of the run on that
    string. *)
Theorem success_exactly (request : option json) :
  (status_of (handler request) = Some 200%nat
   <-> exists fields input,
         request = Some (JObj fields) /\ get "text" fields = Some (JStr input)
         /\ input <> [] /\ (List.length input <= MAX_INPUT_LENGTH)%nat)
  /\ (forall fields input,
        request = Some (JObj fields) -> get "text" fields = Some (JStr input) ->
        input <> [] -> (List.length input <= MAX_INPUT_LENGTH)%nat ->
        handler request = success (redact input)).
Proof.
  assert (Hok : forall fields input,
             get "text" fields = Some (JStr input) ->
             input <> [] -> (List.length input <= MAX_INPUT_LENGTH)%nat ->
             handler (Some (JObj fields)) = success (redact input)).
  { intros fields input Hg Hne Hle. rewrite (handler_string _ Hg).
    destruct input as [|ch input]; [congruence|]. cbn [List.length Nat.eqb].
    now replace (MAX_INPUT_LENGTH <? S (List.length input))%nat with false
      by (symmetry; apply Nat.ltb_ge; exact Hle). }
  split.
  - split.
    + intros H. destruct request as [body|]; [|discriminate].
      destruct body as [|b|n|s|items|fields]; try discriminate.
      destruct (get "text" fields) as [v|] eqn:Hg;
        [|rewrite (handler_missing _ Hg) in H; discriminate].
      destruct v as [|b|n|input|items|fields'];
        try (rewrite (handler_not_string _ Hg) in H by discriminate; discriminate).
      exists fields, input. split; [reflexivity|]. split; [exact Hg|].
      rewrite (handler_string _ Hg) in H.
      destruct input as [|ch input]; [discriminate|]. cbn [List.length Nat.eqb] in H.
      split; [discriminate|].
      destruct (MAX_INPUT_LENGTH <? S (List.length input))%nat eqn:E; [discriminate|].
      apply Nat.ltb_ge in E. exact E.
    + intros (fields & input & -> & Hg & Hne & Hle). now rewrite (Hok _ _ Hg Hne Hle).
  - intros fields input -> Hg Hne Hle. now apply Hok.
Qed.

(** X2: when the body is not null and carries no non-empty string as
    [text] (the property is missing, or is a number, a boolean, null, an
    array, an object or the empty string, or the body is no object at all),
    the answer is 400 with the code INVALID_INPUT. *)
Theorem wrong_text_is_invalid_input (body : json) :
  body <> JNull ->
  (forall fields input,
     body = JObj fields -> get "text" fields = Some (JStr input) -> input = []) ->
  handler (Some body) = invalid_input
  /\ status_of (handler (Some body)) = Some 400%nat
  /\ field "code" (handler (Some body)) = Some (JStr (str "INVALID_INPUT")).
Proof.
  intros Hnull Htext.
  assert (H : handler (Some body) = invalid_input).
  { destruct body as [|b|n|s|items|fields]; try reflexivity; [congruence|].
    destruct (get "text" fields) as [v|] eqn:Hg; [|now apply handler_missing].
    destruct v as [|b|n|input|items|fields'];
      try (apply (handler_not_string _ Hg); discriminate).
    rewrite (Htext fields input eq_refl Hg) in Hg.
    now rewrite (handler_string _ Hg). }
  rewrite H. repeat split.
Qed.

Lemma wrong_text_is_invalid_input_witness :
  handler (Some (JObj [("text", JNum 42)])) = invalid_input
  /\ status_of (handler (Some (JObj [("text", JNum 42)]))) = Some 400%nat
  /\ field "code" (handler (Some (JObj [("text", JNum 42)]))) = Some (JStr (str "INVALID_INPUT")).
Proof.
  apply wrong_text_is_invalid_input.
  - discriminate.
  - intros fields input E Hg. injection E as <-. cbn in Hg. discriminate.
Defined.

(** X3: the handler leaves an exception uncaught for one request only:
    a body that parses to JSON null, where [const { text } = body] throws
    outside the [try]; a body that does not parse is answered with
    INVALID_BODY. *)
Theorem throws_only_on_null (request : option json) :
  (handler request = Throw <-> request = Some JNull)
  /\ handler None = invalid_body
  /\ status_of (handler None) = Some 400%nat.
Proof.
  split; [|split; reflexivity]. split.
  - intros H. destruct request as [body|]; [|discriminate].
    destruct body as [|b|n|s|items|fields]; try discriminate; [reflexivity|].
    exfalso.
    destruct (get "text" fields) as [v|] eqn:Hg;
      [|rewrite (handler_missing _ Hg) in H; discriminate].
    destruct v as [|b|n|input|items|fields'];
      try (rewrite (handler_not_string _ Hg) in H by discriminate; discriminate).
    rewrite (handler_string _ Hg) in H.
    destruct (List.length input =? 0)%nat; [discriminate|].
    destruct (MAX_INPUT_LENGTH <? List.length input)%nat; discriminate.
  - intros ->. reflexivity.
Qed.

(** ** The listing of [GET /stats] *)

(** X4: the types that [GET /stats] lists as supported are exactly the
    types that every run counts in its per-type map (the listing has them
    in another order), and the listing is answered with status 200. *)
Theorem stats_lists_counted_types (input : text) (id : string) :
  (In id patterns_supported
   <-> exists n, get id (redactionMap (redact input)) = Some n)
  /\ status_of stats = Some 200%nat
  /\ field "patterns_supported" stats
     = Some (JArr [JStr (str "ipv4"); JStr (str "email"); JStr (str "ssn_us");
                   JStr (str "credit_card"); JStr (str "phone_us")]).
Proof.
  split; [|split; reflexivity].
  destruct (all_types_present_shape input) as (n1 & n2 & n3 & n4 & n5 & ->).
  split.
  - intros [<- | [<- | [<- | [<- | [<- | []]]]]]; cbn; eauto.
  - intros [n H]. cbn [get] in H. unfold patterns_supported.
    destruct (String.eqb "ipv4" id) eqn:E1; [apply String.eqb_eq in E1; subst; cbn; tauto|].
    destruct (String.eqb "email" id) eqn:E2; [apply String.eqb_eq in E2; subst; cbn; tauto|].
    destruct (String.eqb "ssn_us" id) eqn:E3; [apply String.eqb_eq in E3; subst; cbn; tauto|].
    destruct (String.eqb "phone_us" id) eqn:E4; [apply String.eqb_eq in E4; subst; cbn; tauto|].
    destruct (String.eqb "credit_card" id) eqn:E5;
      [apply String.eqb_eq in E5; subst; cbn; tauto | discriminate].
Qed.

(** ** [applyRedaction] and the per-type map *)

Lemma get_set_other (V : Type) (key other : string) (v : V) (o : object V) :
  other <> key -> get other (set key v o) = get other o.
Proof.
  intros Hne. induction o as [|[k w] o IH]; cbn [set get].
  - destruct (String.eqb key other) eqn:E; [|reflexivity].
    apply String.eqb_eq in E. congruence.
  - destruct (String.eqb k key) eqn:Ek; cbn [get].
    + apply String.eqb_eq in Ek. subst k.
      destruct (String.eqb key other) eqn:E; [|reflexivity].
      apply String.eqb_eq in E. congruence.
    + destruct (String.eqb k other); [reflexivity | exact IH].
Qed.

(** X5: [applyRedaction] adds the number of its replacements to the entry
    of its type, starting from 0 when the type has no entry yet, and to the
    total; the entries of all other types stay as they were. *)
Theorem applyRedaction_accumulates (pattern : regex) (ph : text) (type : string)
  (validator : option (text -> bool)) (st : run) :
  let count := snd (replace pattern (redaction_callback ph validator) (redactedText st) 0%nat) in
  let st' := applyRedaction pattern ph type validator st in
  get type (redactionMap st')
  = Some (match get type (redactionMap st) with Some n => n | None => 0 end + count)%nat
  /\ (forall other, other <> type ->
        get other (redactionMap st') = get other (redactionMap st))
  /\ totalRedactions st' = (totalRedactions st + count)%nat
  /\ (get type (redactionMap st) <> None ->
        map fst (redactionMap st') = map fst (redactionMap st)).
Proof.
  intros count st'. subst count st'. rewrite applyRedaction_eq.
  cbn [redactionMap totalRedactions]. split; [apply get_set_same|].
  split; [intros other Hne; now apply get_set_other|]. split; [reflexivity|].
  generalize (match get type (redactionMap st) with Some n => n | None => 0 end
              + snd (replace pattern (redaction_callback ph validator) (redactedText st) 0))%nat.
  intros v. induction (redactionMap st) as [|[k w] o IH]; cbn [get set map fst].
  - congruence.
  - destruct (String.eqb k type); cbn [map fst]; [reflexivity|].
    intros H. f_equal. now apply IH.
Qed.

(** ** The run, stage by stage *)

Lemma redact_eq (input : text) :
  redact input
  = {| redactedText := after_card input;
       totalRedactions :=
         (0 + ipv4_count input + email_count input + ssn_count input
          + phone_count input + card_count input)%nat;
       redactionMap :=
         [("ipv4", ipv4_count input); ("email", email_count input);
          ("ssn_us", ssn_count input); ("phone_us", phone_count input);
          ("credit_card", card_count input)] |}.
Proof. unfold redact, pipeline. rewrite !applyRedaction_eq. reflexivity. Qed.

Lemma count_of_app (p : char -> bool) (u v : text) :
  count_of p (u ++ v) = (count_of p u + count_of p v)%nat.
Proof. unfold count_of. now rewrite filter_app, length_app. Qed.

Lemma count_of_zero (p : char -> bool) (s : text) :
  (forall ch, In ch s -> p ch = false) -> count_of p s = 0%nat.
Proof.
  unfold count_of. induction s as [|ch s IH]; intros H; [reflexivity|].
  cbn [filter]. rewrite (H ch (or_introl eq_refl)). apply IH.
  intros c Hc. apply H. now right.
Qed.

Lemma iter_reads (r : regex) (n : nat) (x y : cursor) :
  iter (Matches r) n x y -> exists u, reads x u y.
Proof.
  intros H.
  destruct (@iter_consumes (Matches r) (may_read r) (min_len r) (@Matches_consumes r) n x y H)
    as (u & Hu & _).
  now exists u.
Qed.

Lemma Matches_needs (ok : char -> bool) (r : regex) :
  needs ok r ->
  forall x y, Matches r x y -> exists u, reads x u y /\ (1 <= count_of ok u)%nat.
Proof.
  induction r as [|p| |r IH|r1 IH1 r2 IH2|r1 IH1 r2 IH2|min max greedy r IH];
    cbn [needs Matches]; intros Hn x y H; try contradiction.
  - destruct H as (ch & s & Hs & Hp & ->). exists [ch]. split.
    + split; cbn; [exact Hs | reflexivity].
    + unfold count_of. cbn [filter]. rewrite (Hn ch Hp). cbn. lia.
  - destruct H as (z & H1 & H2). destruct Hn as [Hn | Hn].
    + destruct (IH1 Hn _ _ H1) as (u & Hu & Cu).
      destruct (@Matches_consumes r2 _ _ H2) as (v & Hv & _).
      exists (u ++ v). split; [eapply reads_trans; eassumption|].
      rewrite count_of_app. lia.
    + destruct (@Matches_consumes r1 _ _ H1) as (u & Hu & _).
      destruct (IH2 Hn _ _ H2) as (v & Hv & Cv).
      exists (u ++ v). split; [eapply reads_trans; eassumption|].
      rewrite count_of_app. lia.
  - destruct Hn as [Hn1 Hn2]. destruct H as [H | H]; eauto.
  - destruct Hn as [Hmin Hn]. destruct H as (n & Hle & _ & Hit).
    destruct n as [|n]; [lia|]. cbn [iter] in Hit. destruct Hit as (z & H1 & H2).
    destruct (IH Hn _ _ H1) as (u & Hu & Cu).
    destruct (@iter_reads r n z y H2) as (v & Hv).
    exists (u ++ v). split; [eapply reads_trans; eassumption|].
    rewrite count_of_app. lia.
Qed.

Ltac class_in_mark :=
  let ch := fresh "ch" in
  let H := fresh "H" in
  intros ch H; unfold is_mark, is_digit in *;
  first [ rewrite H; reflexivity
        | apply is_char_eq in H; subst ch; reflexivity ].

Lemma IPV4_needs : needs is_mark PATTERNS.IPV4.
Proof.
  cbn [needs PATTERNS.IPV4 PATTERNS.octet times lit opt]. right. left. split; [lia|].
  left. split; [|split].
  - left. class_in_mark.
  - left. class_in_mark.
  - right. left. class_in_mark.
Qed.

Lemma EMAIL_needs : needs is_mark PATTERNS.EMAIL.
Proof.
  cbn [needs PATTERNS.EMAIL plus lit at_least]. right. right. left. class_in_mark.
Qed.

Lemma SSN_US_needs : needs is_mark PATTERNS.SSN_US.
Proof.
  cbn [needs PATTERNS.SSN_US times lit opt digit]. do 3 right. left. split; [lia|].
  class_in_mark.
Qed.

Lemma PHONE_US_needs : needs is_mark PATTERNS.PHONE_US.
Proof.
  cbn [needs PATTERNS.PHONE_US times lit opt]. do 3 right. left. split; [lia|].
  class_in_mark.
Qed.

Lemma CREDIT_CARD_needs : needs is_mark PATTERNS.CREDIT_CARD.
Proof.
  cbn [needs PATTERNS.CREDIT_CARD between star_lazy digit]. right. left. split; [lia|].
  left. class_in_mark.
Qed.

Section Stage.
Variable re : regex.
Variable validator : option (text -> bool).
Hypothesis Hre : detector_pattern re.

Lemma hit_reads (p : option char) (u v : text) :
  match_at re (Cursor p (u ++ v)) = Some (Cursor (last_of p u) v) ->
  Matches re (Cursor p (u ++ v)) (Cursor (last_of p u) v)
  /\ forall w, reads (Cursor p (u ++ v)) w (Cursor (last_of p u) v) -> w = u.
Proof.
  intros H. destruct (hit_facts Hre _ H) as (_ & _ & _ & _ & _ & _ & _ & HM).
  split; [exact HM|]. intros w [Hw _]. cbn [rest] in Hw. now apply app_inv_tail in Hw.
Qed.

Lemma hit_length (p : option char) (u v : text) :
  match_at re (Cursor p (u ++ v)) = Some (Cursor (last_of p u) v) ->
  (min_len re <= List.length u)%nat.
Proof.
  intros H. destruct (@hit_reads p u v H) as [HM Hw].
  destruct (@Matches_consumes re _ _ HM) as (w & Hr & _ & Lw).
  now rewrite <- (Hw w Hr).
Qed.

(** What a stage adds to the length is bounded match by match. *)
Lemma stage_length (n : nat) :
  forall s, (List.length s <= n)%nat ->
  forall p,
  (List.length (out re validator p s) + min_len re * hits re validator p s
   <= List.length s + List.length placeholder * hits re validator p s)%nat.
Proof.
  induction n as [|n IH]; intros s Hn p.
  - destruct s; [|simpl in Hn; lia]. rewrite out_nil, hits_nil, !Nat.mul_0_r by exact Hre. lia.
  - destruct (scan_cases validator Hre p s)
      as [-> | [(ch & s' & -> & _ & Ho & Hh)
             | [(u & v & -> & Hne & Hm & _ & Ho & Hh) | (u & v & -> & Hne & Hm & _ & Ho & Hh)]]].
    + rewrite out_nil, hits_nil, !Nat.mul_0_r by exact Hre. lia.
    + rewrite Ho, Hh. cbn [List.length] in *.
      specialize (IH s' ltac:(lia) (Some ch)). lia.
    + rewrite Ho, Hh, !length_app. rewrite length_app in Hn.
      assert (1 <= List.length u)%nat by (destruct u; [congruence | simpl; lia]).
      specialize (IH v ltac:(lia) (last_of p u)). lia.
    + rewrite Ho, Hh, !length_app. rewrite length_app in Hn.
      assert (1 <= List.length u)%nat by (destruct u; [congruence | simpl; lia]).
      specialize (IH v ltac:(lia) (last_of p u)).
      pose proof (@hit_length _ _ _ Hm). rewrite !Nat.mul_succ_r. lia.
Qed.

(** A stage that counts nothing changes nothing. *)
Lemma stage_idle (n : nat) :
  forall s, (List.length s <= n)%nat ->
  forall p, hits re validator p s = 0%nat -> out re validator p s = s.
Proof.
  induction n as [|n IH]; intros s Hn p H0.
  - destruct s; [|simpl in Hn; lia]. now rewrite out_nil.
  - destruct (scan_cases validator Hre p s)
      as [-> | [(ch & s' & -> & _ & Ho & Hh)
             | [(u & v & -> & Hne & Hm & _ & Ho & Hh) | (u & v & -> & Hne & Hm & _ & Ho & Hh)]]].
    + now rewrite out_nil.
    + rewrite Ho. f_equal. apply IH; [simpl in Hn; lia | congruence].
    + rewrite Ho. f_equal. rewrite length_app in Hn.
      assert (1 <= List.length u)%nat by (destruct u; [congruence | simpl; lia]).
      apply IH; [lia | congruence].
    + congruence.
Qed.

Hypothesis Hneeds : needs is_mark re.

(** Every counted match uses up a digit or an at sign, and none appears. *)
Lemma stage_marks (n : nat) :
  forall s, (List.length s <= n)%nat ->
  forall p,
  (count_of is_mark (out re validator p s) + hits re validator p s
   <= count_of is_mark s)%nat.
Proof.
  induction n as [|n IH]; intros s Hn p.
  - destruct s; [|simpl in Hn; lia]. rewrite out_nil, hits_nil by exact Hre. simpl. lia.
  - destruct (scan_cases validator Hre p s)
      as [-> | [(ch & s' & -> & _ & Ho & Hh)
             | [(u & v & -> & Hne & Hm & _ & Ho & Hh) | (u & v & -> & Hne & Hm & _ & Ho & Hh)]]].
    + rewrite out_nil, hits_nil by exact Hre. simpl. lia.
    + rewrite Ho, Hh. change (ch :: out re validator (Some ch) s')
        with ([ch] ++ out re validator (Some ch) s').
      change (ch :: s') with ([ch] ++ s'). rewrite !count_of_app.
      specialize (IH s' ltac:(simpl in Hn; lia) (Some ch)). lia.
    + rewrite Ho, Hh, !count_of_app. rewrite length_app in Hn.
      assert (1 <= List.length u)%nat by (destruct u; [congruence | simpl; lia]).
      specialize (IH v ltac:(lia) (last_of p u)). lia.
    + rewrite Ho, Hh, !count_of_app. rewrite length_app in Hn.
      assert (1 <= List.length u)%nat by (destruct u; [congruence | simpl; lia]).
      specialize (IH v ltac:(lia) (last_of p u)).
      destruct (@hit_reads _ _ _ Hm) as [HM Hw].
      destruct (@Matches_needs is_mark re Hneeds _ _ HM) as (w & Hr & Cw).
      rewrite (Hw w Hr) in Cw.
      change (count_of is_mark placeholder) with 0%nat. lia.
Qed.
End Stage.

Lemma stage_length_here (re : regex) (validator : option (text -> bool)) (s : text) :
  detector_pattern re ->
  (List.length (out re validator None s) + min_len re * hits re validator None s
   <= List.length s + 10 * hits re validator None s)%nat.
Proof. intros Hre. exact (@stage_length re validator Hre (List.length s) s (le_n _) None). Qed.

Lemma stage_marks_here (re : regex) (validator : option (text -> bool)) (s : text) :
  detector_pattern re -> needs is_mark re ->
  (count_of is_mark (out re validator None s) + hits re validator None s
   <= count_of is_mark s)%nat.
Proof.
  intros Hre Hn. exact (@stage_marks re validator Hre Hn (List.length s) s (le_n _) None).
Qed.

Lemma stage_unmarked (re : regex) (validator : option (text -> bool)) (s : text) :
  detector_pattern re -> needs is_mark re ->
  count_of is_mark s = 0%nat ->
  out re validator None s = s /\ hits re validator None s = 0%nat.
Proof.
  intros Hre Hn H0. pose proof (stage_marks_here validator s Hre Hn) as H.
  assert (Hh : hits re validator None s = 0%nat) by lia.
  split; [|exact Hh].
  exact (@stage_idle re validator Hre (List.length s) s (le_n _) None Hh).
Qed.

(** X6: a run lengthens the text by at most 3 code units for each IPv4
    address and 4 for each e-mail address it counts, and shortens it by at
    least 1 for each social security number and 3 for each card number; so
    the redacted text is never longer than the input plus 4 per redaction. *)
Theorem redacted_length_bound (input : text) :
  exists n1 n2 n3 n4 n5 : nat,
    redactionMap (redact input)
    = [("ipv4", n1); ("email", n2); ("ssn_us", n3); ("phone_us", n4); ("credit_card", n5)]
    /\ (List.length (redactedText (redact input)) + n3 + 3 * n5
        <= List.length input + 3 * n1 + 4 * n2)%nat
    /\ (List.length (redactedText (redact input))
        <= List.length input + 4 * totalRedactions (redact input))%nat.
Proof.
  rewrite redact_eq. cbn [redactedText redactionMap totalRedactions].
  exists (ipv4_count input), (email_count input), (ssn_count input), (phone_count input),
         (card_count input).
  split; [reflexivity|].
  pose proof (stage_length_here None input IPV4_detector) as H1.
  pose proof (stage_length_here None (after_ipv4 input) EMAIL_detector) as H2.
  pose proof (stage_length_here None (after_email input) SSN_US_detector) as H3.
  pose proof (stage_length_here None (after_ssn input) PHONE_US_detector) as H4.
  pose proof (stage_length_here (Some isValidCreditCard) (after_phone input)
                CREDIT_CARD_detector) as H5.
  change (min_len PATTERNS.IPV4) with 7%nat in H1.
  change (min_len PATTERNS.EMAIL) with 6%nat in H2.
  change (min_len PATTERNS.SSN_US) with 11%nat in H3.
  change (min_len PATTERNS.PHONE_US) with 10%nat in H4.
  change (min_len PATTERNS.CREDIT_CARD) with 13%nat in H5.
  fold (after_ipv4 input) in H1. fold (ipv4_count input) in H1.
  fold (after_email input) in H2. fold (email_count input) in H2.
  fold (after_ssn input) in H3. fold (ssn_count input) in H3.
  fold (after_phone input) in H4. fold (phone_count input) in H4.
  fold (after_card input) in H5. fold (card_count input) in H5.
  lia.
Qed.

(** X7: a text with no digit and no at sign comes back as it is, with a
    total of 0 and a count of 0 for each of the five types. *)
Theorem plain_text_unchanged (input : text) :
  (forall ch, In ch input -> is_digit ch = false /\ ch <> code "@") ->
  redact input
  = {| redactedText := input;
       totalRedactions := 0;
       redactionMap := [("ipv4", 0); ("email", 0); ("ssn_us", 0); ("phone_us", 0);
                        ("credit_card", 0)]%nat |}.
Proof.
  intros Hplain.
  assert (H0 : count_of is_mark input = 0%nat).
  { apply count_of_zero. intros ch Hch. destruct (Hplain ch Hch) as [Hd Ha].
    unfold is_mark. rewrite Hd. cbn [orb]. unfold is_char.
    apply N.eqb_neq. exact Ha. }
  rewrite redact_eq.
  unfold card_count, phone_count, ssn_count, email_count, ipv4_count,
         after_card, after_phone, after_ssn, after_email, after_ipv4.
  destruct (stage_unmarked None input IPV4_detector IPV4_needs H0) as [-> ->].
  destruct (stage_unmarked None input EMAIL_detector EMAIL_needs H0) as [-> ->].
  destruct (stage_unmarked None input SSN_US_detector SSN_US_needs H0) as [-> ->].
  destruct (stage_unmarked None input PHONE_US_detector PHONE_US_needs H0) as [-> ->].
  destruct (stage_unmarked (Some isValidCreditCard) input CREDIT_CARD_detector
              CREDIT_CARD_needs H0) as [-> ->].
  reflexivity.
Qed.

Lemma plain_text_unchanged_witness :
  (forall ch, In ch (str "call me, maybe") -> is_digit ch = false /\ ch <> code "@")
  /\ redactedText (redact (str "call me, maybe")) = str "call me, maybe".
Proof.
  assert (H : forall ch, In ch (str "call me, maybe") -> is_digit ch = false /\ ch <> code "@").
  { intros ch Hch. cbn in Hch.
    repeat (destruct Hch as [<- | Hch]; [split; [reflexivity | discriminate]|]).
    contradiction. }
  split; [exact H|]. rewrite (@plain_text_unchanged (str "call me, maybe") H). reflexivity.
Defined.

(** X8: a run never counts more redactions than the input has digits and
    at signs: every counted match uses up at least one of them, and the
    placeholder brings none. *)
Theorem redactions_bounded_by_marks (input : text) :
  (count_of is_mark (redactedText (redact input)) + totalRedactions (redact input)
   <= count_of is_mark input)%nat
  /\ (totalRedactions (redact input) <= List.length input)%nat.
Proof.
  assert (H : (count_of is_mark (redactedText (redact input)) + totalRedactions (redact input)
               <= count_of is_mark input)%nat).
  { rewrite redact_eq. cbn [redactedText totalRedactions].
    pose proof (stage_marks_here None input IPV4_detector IPV4_needs) as H1.
    pose proof (stage_marks_here None (after_ipv4 input) EMAIL_detector EMAIL_needs) as H2.
    pose proof (stage_marks_here None (after_email input) SSN_US_detector SSN_US_needs) as H3.
    pose proof (stage_marks_here None (after_ssn input) PHONE_US_detector PHONE_US_needs) as H4.
    pose proof (stage_marks_here (Some isValidCreditCard) (after_phone input)
                  CREDIT_CARD_detector CREDIT_CARD_needs) as H5.
    fold (after_ipv4 input) in H1. fold (ipv4_count input) in H1.
    fold (after_email input) in H2. fold (email_count input) in H2.
    fold (after_ssn input) in H3. fold (ssn_count input) in H3.
    fold (after_phone input) in H4. fold (phone_count input) in H4.
    fold (after_card input) in H5. fold (card_count input) in H5.
    lia. }
  split; [exact H|].
  assert (count_of is_mark input <= List.length input)%nat
    by (unfold count_of; apply filter_length_le).
  lia.
Qed.

(** ** What the validator looks at *)

(** X9: [isValidCreditCard] accepts a string exactly when the number of
    its code units other than white space and dashes is a multiple of five;
    neither the values of the digits nor whether they are digits play a
    role. *)
Theorem validator_counts_code_units (number : text) :
  (isValidCreditCard number = true <-> exists k, count_of kept number = (5 * k)%nat)
  /\ (forall other, count_of kept other = count_of kept number ->
        isValidCreditCard other = isValidCreditCard number).
Proof.
  split.
  - rewrite isValidCreditCard_counts. fold kept.
    change (List.length (filter kept number)) with (count_of kept number).
    generalize (count_of kept number) as n. intros n.
    rewrite Z.eqb_eq.
    pose proof (Nat.div_mod_eq n 5) as Hn.
    pose proof (Nat.mod_upper_bound n 5 ltac:(lia)) as Hr.
    replace (2 * Z.of_nat n)%Z
      with (2 * Z.of_nat (n mod 5) + Z.of_nat (n / 5) * 10)%Z by lia.
    rewrite Z.mod_add by lia. rewrite Z.mod_small by lia.
    split.
    + intros H. exists (n / 5)%nat. lia.
    + intros [k Hk]. rewrite Hk in *.
      assert (((5 * k) mod 5)%nat = 0%nat) by (rewrite Nat.mul_comm; apply Nat.Div0.mod_mul).
      lia.
  - intros other H. rewrite !isValidCreditCard_counts. fold kept.
    change (List.length (filter kept other)) with (count_of kept other).
    now rewrite H.
Qed.

(** ** What the patterns match *)

Lemma chr_reads (p : char -> bool) (x y : cursor) :
  Matches (Chr p) x y -> exists ch, reads x [ch] y /\ p ch = true.
Proof.
  intros (ch & s & Hs & Hp & ->). exists ch.
  split; [split; cbn; [exact Hs | reflexivity] | exact Hp].
Qed.

Lemma iter_chr (p : char -> bool) (n : nat) :
  forall x y, iter (Matches (Chr p)) n x y ->
  exists u, reads x u y /\ List.length u = n /\ forallb p u = true.
Proof.
  induction n as [|n IH]; intros x y H; cbn [iter] in H.
  - subst y. exists []. split; [apply reads_refl|]. split; reflexivity.
  - destruct H as (z & H1 & H2).
    apply chr_reads in H1. destruct H1 as (ch & Hr & Hp).
    apply IH in H2. destruct H2 as (u & Hu & Lu & Fu).
    exists (ch :: u). split; [exact (@reads_trans x [ch] z u y Hr Hu)|].
    split; [simpl; now rewrite Lu|]. cbn [forallb]. now rewrite Hp, Fu.
Qed.

Lemma rep_chr (min : nat) (max : option nat) (greedy : bool) (p : char -> bool)
  (x y : cursor) :
  Matches (Rep min max greedy (Chr p)) x y ->
  exists u, reads x u y /\ (min <= List.length u)%nat
            /\ match max with Some k => (List.length u <= k)%nat | None => True end
            /\ forallb p u = true.
Proof.
  intros (n & Hmin & Hmax & Hit). apply iter_chr in Hit.
  destruct Hit as (u & Hu & Lu & Fu). exists u. rewrite Lu. auto.
Qed.

Lemma times_chr (n : nat) (p : char -> bool) (x y : cursor) :
  Matches (times n (Chr p)) x y ->
  exists u, reads x u y /\ List.length u = n /\ forallb p u = true.
Proof.
  intros H. apply rep_chr in H. destruct H as (u & Hu & L1 & L2 & Fu).
  exists u. split; [exact Hu|]. split; [lia | exact Fu].
Qed.

Lemma opt_chr (p : char -> bool) (x y : cursor) :
  Matches (opt (Chr p)) x y -> exists u, reads x u y /\ at_most_one p u = true.
Proof.
  intros H. apply rep_chr in H. destruct H as (u & Hu & _ & L2 & Fu).
  exists u. split; [exact Hu|].
  destruct u as [|ch [|c2 u]]; [reflexivity | | simpl in L2; lia].
  cbn in *. now rewrite andb_true_r in Fu.
Qed.

Lemma opt_cases (r : regex) (x y : cursor) :
  Matches (opt r) x y -> y = x \/ Matches r x y.
Proof.
  intros (n & _ & Hmax & Hit). destruct n as [|[|n]]; [| |lia]; cbn [iter] in Hit.
  - now left.
  - right. destruct Hit as (z & H & ->). exact H.
Qed.

Lemma boundary_reads (x y : cursor) : Matches WordB x y -> y = x.
Proof. now intros [-> _]. Qed.

Lemma count_of_none (p q : char -> bool) (u : text) :
  forallb q u = true -> (forall ch, q ch = true -> p ch = false) -> count_of p u = 0%nat.
Proof.
  intros Hq Hpq. apply count_of_zero. intros ch Hch. apply Hpq.
  rewrite forallb_forall in Hq. now apply Hq.
Qed.

Lemma count_of_all (p : char -> bool) (u : text) :
  forallb p u = true -> count_of p u = List.length u.
Proof.
  unfold count_of. induction u as [|ch u IH]; [reflexivity|].
  cbn [forallb filter]. intros H. apply andb_prop in H. destruct H as [H1 H2].
  rewrite H1. cbn [List.length]. now rewrite IH.
Qed.

Lemma last_of_last (p : option char) (w : text) (d : char) : last_of p (w ++ [d]) = Some d.
Proof. now rewrite last_of_app. Qed.

(** The turns of [(?:\d[ -]*?)]: as many digits as turns, and nothing but
    digits, spaces and dashes. *)
Lemma card_turns (n : nat) :
  forall x y,
  iter (Matches (digit ;; star_lazy (Chr (one_of " -")))%re) n x y ->
  exists u, reads x u y /\ count_of is_digit u = n
            /\ forallb (fun ch => is_digit ch || cc_sep ch) u = true
            /\ (n <> 0%nat -> head_word u = true).
Proof.
  induction n as [|n IH]; intros x y H; cbn [iter] in H.
  - subst y. exists []. split; [apply reads_refl|]. repeat split. congruence.
  - destruct H as (z & (z1 & Hd & Hs) & Hit).
    apply chr_reads in Hd. destruct Hd as (d & Hrd & Hd).
    apply rep_chr in Hs. destruct Hs as (w & Hrw & _ & _ & Fw).
    apply IH in Hit. destruct Hit as (u & Hu & Cu & Fu & _).
    exists ([d] ++ w ++ u). split.
    { eapply reads_trans; [exact Hrd|]. eapply reads_trans; eassumption. }
    split; [|split].
    + rewrite !count_of_app, Cu.
      rewrite (@count_of_none is_digit cc_sep w Fw cc_sep_not_digit).
      unfold count_of. cbn [filter]. rewrite Hd. reflexivity.
    + rewrite !forallb_app, Fu. cbn [forallb]. rewrite Hd. cbn [orb andb].
      rewrite andb_true_r.
      apply forallb_forall. intros ch Hch. rewrite forallb_forall in Fw.
      unfold cc_sep. rewrite (Fw ch Hch). apply orb_true_r.
    + intros _. cbn. now apply is_digit_word.
Qed.

Lemma card_shape (p : option char) (s : text) (y : cursor) :
  match_at PATTERNS.CREDIT_CARD (Cursor p s) = Some y ->
  exists u, s = u ++ rest y
    /\ forallb (fun ch => is_digit ch || cc_sep ch) u = true
    /\ (13 <= count_of is_digit u <= 19)%nat
    /\ (exists d w, u = d :: w /\ is_digit d = true)
    /\ (exists w d, u = w ++ [d] /\ is_digit d = true).
Proof.
  intros Hm.
  pose proof (@match_at_sound PATTERNS.CREDIT_CARD _ _ eq_refl Hm) as H.
  unfold PATTERNS.CREDIT_CARD, between in H. cbn [Matches] in H.
  destruct H as (x0 & [-> Hstart] & z & (n & Hmin & Hmax & Hit) & -> & Hend).
  apply card_turns in Hit. destruct Hit as (u & [Hu Hp] & Cu & Fu & Hhead).
  cbn [rest prev] in Hu, Hp.
  exists u. split; [exact Hu|]. split; [exact Fu|]. split; [lia|].
  assert (Hfirst : exists d w, u = d :: w /\ is_digit d = true).
  { destruct u as [|d w]; [unfold count_of in Cu; simpl in Cu; lia|]. exists d, w. split; [reflexivity|].
    cbn [forallb] in Fu. apply andb_prop in Fu. destruct Fu as [Fd _].
    destruct (is_digit d) eqn:Ed; [reflexivity|].
    specialize (Hhead ltac:(lia)). cbn in Hhead. cbn [orb] in Fd.
    apply cc_sep_not_word in Fd. congruence. }
  split; [exact Hfirst|].
  destruct Hfirst as (d0 & w0 & E0 & _).
  destruct (@exists_last _ u ltac:(rewrite E0; discriminate)) as (w & d & E).
  exists w, d. split; [exact E|].
  rewrite match_at_credit_card, Hstart in Hm.
  destruct (@cc_digits_ends_word 19 13 p s z ltac:(lia) Hm) as [[H0 _] | Hw];
    [discriminate|].
  rewrite Hp, E, last_of_last in Hw. cbn in Hw.
  rewrite E, forallb_app in Fu. apply andb_prop in Fu. destruct Fu as [_ Fd].
  cbn [forallb] in Fd. rewrite andb_true_r in Fd.
  destruct (is_digit d) eqn:Ed; [reflexivity|]. cbn [orb] in Fd.
  apply cc_sep_not_word in Fd. congruence.
Qed.

Lemma card_kept (u : text) :
  forallb (fun ch => is_digit ch || cc_sep ch) u = true ->
  count_of kept u = count_of is_digit u.
Proof.
  unfold count_of. induction u as [|ch u IH]; [reflexivity|].
  cbn [forallb filter]. intros H. apply andb_prop in H. destruct H as [H1 H2].
  assert (E : kept ch = is_digit ch).
  { destruct (is_digit ch) eqn:Ed.
    - unfold is_digit in Ed. apply in_range_bounds in Ed. cbn in Ed.
      unfold kept, is_space, is_char. cbn.
      repeat match goal with
        | |- context [(?a <=? ?b)%N] => destruct (N.leb_spec a b); try lia
        | |- context [(?a =? ?b)%N] => destruct (N.eqb_spec a b); try lia
        end; reflexivity.
    - cbn [orb] in H1. unfold cc_sep, one_of, is_char in H1.
      cbn [list_ascii_of_string existsb] in H1.
      rewrite !orb_true_iff, !N.eqb_eq in H1. cbn in H1.
      destruct H1 as [-> | [-> | H1]]; [reflexivity | reflexivity | discriminate]. }
  rewrite E. destruct (is_digit ch); cbn [List.length]; now rewrite IH.
Qed.

(** X10: whatever the card pattern matches consists of digits, spaces and
    dashes, begins and ends with a digit and has 13 to 19 digits; and the
    validator accepts it, so that it is redacted, exactly when it has 15
    digits. *)
Theorem card_match_shape (p : option char) (s : text) (y : cursor) :
  match_at PATTERNS.CREDIT_CARD (Cursor p s) = Some y ->
  exists u, s = u ++ rest y
    /\ forallb (fun ch => is_digit ch || one_of " -" ch) u = true
    /\ (13 <= count_of is_digit u <= 19)%nat
    /\ (exists d w, u = d :: w /\ is_digit d = true)
    /\ (exists w d, u = w ++ [d] /\ is_digit d = true)
    /\ (isValidCreditCard u = true <-> count_of is_digit u = 15%nat).
Proof.
  intros Hm. destruct (card_shape _ _ Hm) as (u & Hu & Fu & Cu & Hd & Hl).
  exists u. repeat (split; [assumption|]).
  rewrite isValidCreditCard_counts. fold kept.
  change (List.length (filter kept u)) with (count_of kept u).
  rewrite (card_kept _ Fu). rewrite Z.eqb_eq.
  destruct Cu as [C1 C2]. revert C1 C2. generalize (count_of is_digit u) as n. intros n C1 C2.
  assert (Hn : (n = 13 \/ n = 14 \/ n = 15 \/ n = 16 \/ n = 17 \/ n = 18 \/ n = 19)%nat) by lia.
  destruct Hn as [-> | [-> | [-> | [-> | [-> | [-> | ->]]]]]]; cbn; split; intros H;
    first [reflexivity | discriminate | lia].
Qed.

Lemma card_match_shape_witness :
  exists u, str "123456789012345." = u ++ str "."
    /\ forallb (fun ch => is_digit ch || one_of " -" ch) u = true
    /\ (13 <= count_of is_digit u <= 19)%nat
    /\ (exists d w, u = d :: w /\ is_digit d = true)
    /\ (exists w d, u = w ++ [d] /\ is_digit d = true)
    /\ (isValidCreditCard u = true <-> count_of is_digit u = 15%nat).
Proof.
  apply (@card_match_shape None (str "123456789012345.") (Cursor (Some 53%N) (str "."))).
  vm_compute. reflexivity.
Defined.

Ltac read_opt H u Hr Hu :=
  unfold lit in H; apply opt_chr in H; destruct H as (u & [Hr _] & Hu).

Ltac read_times H u Hr Lu Fu :=
  unfold digit in H; apply times_chr in H; destruct H as (u & [Hr _] & Lu & Fu).

Ltac read_lit H Hr :=
  let ch := fresh "ch" in
  let Hc := fresh "Hc" in
  unfold lit in H; apply chr_reads in H; destruct H as (ch & [Hr _] & Hc);
  apply is_char_eq in Hc; subst ch.

Ltac read_chain :=
  repeat match goal with
    | H : ?a = _ ++ _ |- context [?a] => rewrite H; clear H
    end;
  rewrite <- ?app_assoc; reflexivity.

Lemma not_at (p : char -> bool) :
  p (code "@") = false -> forall ch, p ch = true -> is_char "@" ch = false.
Proof.
  intros Hp ch H. destruct (is_char "@" ch) eqn:E; [|reflexivity].
  apply is_char_eq in E. subst ch. congruence.
Qed.

Lemma email_shape (p : option char) (s : text) (y : cursor) :
  match_at PATTERNS.EMAIL (Cursor p s) = Some y ->
  exists local domain tld,
    s = local ++ code "@" :: domain ++ dot :: tld ++ rest y
    /\ (1 <= List.length local)%nat /\ forallb PATTERNS.email_local local = true
    /\ (1 <= List.length domain)%nat /\ forallb PATTERNS.email_domain domain = true
    /\ (2 <= List.length tld)%nat /\ forallb is_alpha tld = true
    /\ count_of (is_char "@") (local ++ code "@" :: domain ++ dot :: tld) = 1%nat.
Proof.
  intros Hm. pose proof (@match_at_sound PATTERNS.EMAIL _ _ eq_refl Hm) as H.
  unfold PATTERNS.EMAIL, plus, at_least in H.
  destruct H as (z0 & H0 & z1 & Hl & z2 & Hat & z3 & Hd & z4 & Hdot & z5 & Ht & He).
  apply rep_chr in Hl, Hd, Ht.
  destruct Hl as (local & [El _] & Ll & _ & Fl).
  destruct Hd as (domain & [Ed _] & Ld & _ & Fd).
  destruct Ht as (tld & [Et _] & Lt & _ & Ft).
  apply boundary_reads in H0, He. read_lit Hat Eat. read_lit Hdot Edot.
  subst z0 y. cbn [rest] in *.
  exists local, domain, tld. split.
  { read_chain. }
  repeat (split; [assumption|]).
  change (code "@" :: domain ++ dot :: tld) with ([code "@"] ++ domain ++ [dot] ++ tld).
  rewrite !count_of_app.
  rewrite (@count_of_none (is_char "@") _ local Fl (not_at _ eq_refl)).
  rewrite (@count_of_none (is_char "@") _ domain Fd (not_at _ eq_refl)).
  rewrite (@count_of_none (is_char "@") _ tld Ft (not_at _ eq_refl)).
  reflexivity.
Qed.

(** X11: whatever the e-mail pattern matches reads local@domain.tld: a
    local part and a domain that are not empty and made of the characters
    of their classes, and a top-level domain of at least two letters; it
    holds exactly one at sign. *)
Theorem email_match_shape (p : option char) (s : text) (y : cursor) :
  match_at PATTERNS.EMAIL (Cursor p s) = Some y ->
  exists local domain tld,
    s = local ++ code "@" :: domain ++ dot :: tld ++ rest y
    /\ (1 <= List.length local)%nat /\ forallb PATTERNS.email_local local = true
    /\ (1 <= List.length domain)%nat /\ forallb PATTERNS.email_domain domain = true
    /\ (2 <= List.length tld)%nat /\ forallb is_alpha tld = true
    /\ count_of (is_char "@") (local ++ code "@" :: domain ++ dot :: tld) = 1%nat.
Proof. exact (@email_shape p s y). Qed.

Lemma email_match_shape_witness :
  exists local domain tld,
    str "a.b@mail.example.org!" = local ++ code "@" :: domain ++ dot :: tld ++ str "!"
    /\ (1 <= List.length local)%nat /\ forallb PATTERNS.email_local local = true
    /\ (1 <= List.length domain)%nat /\ forallb PATTERNS.email_domain domain = true
    /\ (2 <= List.length tld)%nat /\ forallb is_alpha tld = true
    /\ count_of (is_char "@") (local ++ code "@" :: domain ++ dot :: tld) = 1%nat.
Proof.
  apply (@email_match_shape None (str "a.b@mail.example.org!") (Cursor (Some 103%N) (str "!"))).
  vm_compute. reflexivity.
Defined.

Lemma three_digits (u : text) :
  List.length u = 3%nat -> forallb is_digit u = true ->
  exists a b c, u = [a; b; c] /\ is_digit a = true /\ is_digit b = true /\ is_digit c = true.
Proof.
  destruct u as [|a [|b [|c [|d u]]]]; try discriminate. intros _ H.
  cbn [forallb] in H. rewrite !andb_true_iff in H. destruct H as (Ha & Hb & Hc & _).
  exists a, b, c. auto.
Qed.

(** X12: whatever the SSN pattern matches reads three, two and four
    digits with a dash after the first two groups and at most one further
    dash in front of each group.  A group that has no such further dash in
    front of it is none of the values its lookahead rules out: the area is
    not 000, not 666 and does not begin with 9, the group is not 00, the
    serial is not 0000. *)
Theorem ssn_match_shape (p : option char) (s : text) (y : cursor) :
  match_at PATTERNS.SSN_US (Cursor p s) = Some y ->
  exists d1 area d2 group d3 serial,
    s = d1 ++ area ++ dash :: d2 ++ group ++ dash :: d3 ++ serial ++ rest y
    /\ at_most_one (is_char "-") d1 = true
    /\ at_most_one (is_char "-") d2 = true
    /\ at_most_one (is_char "-") d3 = true
    /\ List.length area = 3%nat /\ forallb is_digit area = true
    /\ List.length group = 2%nat /\ forallb is_digit group = true
    /\ List.length serial = 4%nat /\ forallb is_digit serial = true
    /\ (d1 = [] -> area <> str "000" /\ area <> str "666"
                   /\ forall w, area <> code "9" :: w)
    /\ (d2 = [] -> group <> str "00")
    /\ (d3 = [] -> serial <> str "0000").
Proof.
  intros Hm. pose proof (@match_at_sound PATTERNS.SSN_US _ _ eq_refl Hm) as H.
  unfold PATTERNS.SSN_US in H.
  destruct H as (z0 & H0 & z1 & [-> Hla1] & z2 & Hd1 & z3 & Ha & z4 & Hdash1
                 & z5 & [-> Hla2] & z6 & Hd2 & z7 & Hg & z8 & Hdash2
                 & z9 & [-> Hla3] & z10 & Hd3 & z11 & Hs & He).
  apply boundary_reads in H0, He.
  read_opt Hd1 d1 E1 D1. read_times Ha area Ea La Fa. read_lit Hdash1 Edash1.
  read_opt Hd2 d2 E2 D2. read_times Hg group Eg Lg Fg. read_lit Hdash2 Edash2.
  read_opt Hd3 d3 E3 D3. read_times Hs serial Es Ls Fs.
  subst z0 y. cbn [rest] in *.
  exists d1, area, d2, group, d3, serial.
  split.
  { unfold dash. read_chain. }
  repeat (split; [assumption|]).
  split; [|split].
  - intros ->. cbn [app] in *.
    destruct (three_digits _ La Fa) as (a & b & c & -> & Da & Db & Dc).
    rewrite E1, Ea in Hla1. cbn [app] in Hla1.
    unfold match_at in Hla1. cbn in Hla1. rewrite Db, Dc in Hla1.
    repeat split.
    + intros E. injection E as -> -> ->. cbn in Hla1. discriminate.
    + intros E. injection E as -> -> ->. cbn in Hla1. discriminate.
    + intros w E. injection E as -> _. cbn in Hla1. discriminate.
  - intros ->. cbn [app] in *.
    destruct group as [|a [|b [|c group]]]; try discriminate.
    destruct z4 as [q4 t4]. cbn [rest] in *. rewrite E2, Eg in Hla2. cbn [app] in Hla2.
    unfold match_at in Hla2. cbn in Hla2.
    intros E. injection E as -> ->. cbn in Hla2. discriminate.
  - intros ->. cbn [app] in *.
    destruct serial as [|a [|b [|c [|d [|e serial]]]]]; try discriminate.
    destruct z8 as [q8 t8]. cbn [rest] in *. rewrite E3, Es in Hla3. cbn [app] in Hla3.
    unfold match_at in Hla3. cbn in Hla3.
    intros E. injection E as -> -> -> ->. cbn in Hla3. discriminate.
Qed.

Lemma ssn_match_shape_witness :
  exists d1 area d2 group d3 serial,
    str "123-45-6789." = d1 ++ area ++ dash :: d2 ++ group ++ dash :: d3 ++ serial ++ str "."
    /\ at_most_one (is_char "-") d1 = true
    /\ at_most_one (is_char "-") d2 = true
    /\ at_most_one (is_char "-") d3 = true
    /\ List.length area = 3%nat /\ forallb is_digit area = true
    /\ List.length group = 2%nat /\ forallb is_digit group = true
    /\ List.length serial = 4%nat /\ forallb is_digit serial = true
    /\ (d1 = [] -> area <> str "000" /\ area <> str "666"
                   /\ forall w, area <> code "9" :: w)
    /\ (d2 = [] -> group <> str "00")
    /\ (d3 = [] -> serial <> str "0000").
Proof.
  apply (@ssn_match_shape None (str "123-45-6789.") (Cursor (Some 57%N) (str "."))).
  vm_compute. reflexivity.
Defined.

Lemma at_most_one_head (q : char -> bool) (u tl : text) (ch : char) (w : text) :
  at_most_one q u = true -> u ++ tl = ch :: w ->
  q ch = true \/ (u = [] /\ tl = ch :: w).
Proof.
  destruct u as [|c [|c2 u]]; cbn; intros H E; try discriminate.
  - right. auto.
  - left. injection E as <- _. exact H.
Qed.

Lemma phone_shape (p : option char) (s : text) (y : cursor) :
  match_at PATTERNS.PHONE_US (Cursor p s) = Some y ->
  exists country open area close sep1 exch sep2 line,
    s = country ++ open ++ area ++ close ++ sep1 ++ exch ++ sep2 ++ line ++ rest y
    /\ (country = []
        \/ exists sign sp, country = sign ++ code "1" :: sp
                           /\ at_most_one (is_char "+") sign = true
                           /\ at_most_one PATTERNS.phone_sep sp = true)
    /\ at_most_one (is_char "(") open = true
    /\ List.length area = 3%nat /\ forallb is_digit area = true
    /\ at_most_one (is_char ")") close = true
    /\ at_most_one PATTERNS.phone_sep sep1 = true
    /\ List.length exch = 3%nat /\ forallb is_digit exch = true
    /\ at_most_one PATTERNS.phone_sep sep2 = true
    /\ List.length line = 4%nat /\ forallb is_digit line = true
    /\ (word_opt p = false -> exists d w, s = d :: w /\ is_digit d = true).
Proof.
  intros Hm. pose proof (@match_at_sound PATTERNS.PHONE_US _ _ eq_refl Hm) as H.
  unfold PATTERNS.PHONE_US in H.
  destruct H as (z0 & [-> Hstart] & z1 & Hcc & z2 & Ho & z3 & Ha & z4 & Hc & z5 & Hs1
                 & z6 & Hp & z7 & Hs2 & z8 & Hl & He).
  apply boundary_reads in He.
  read_opt Ho open Eo Oo. read_times Ha area Ea La Fa. read_opt Hc close Ec Oc.
  read_opt Hs1 sep1 E1 O1. read_times Hp exch Ep Lp Fp.
  read_opt Hs2 sep2 E2 O2. read_times Hl line El Ll Fl.
  subst y.
  assert (Hcountry : exists country,
             s = country ++ rest z1
             /\ (country = []
                 \/ exists sign sp, country = sign ++ code "1" :: sp
                                    /\ at_most_one (is_char "+") sign = true
                                    /\ at_most_one PATTERNS.phone_sep sp = true)).
  { apply opt_cases in Hcc. destruct Hcc as [-> | (w1 & Hplus & w2 & Hone & Hsp)].
    - exists []. split; [reflexivity | now left].
    - read_opt Hplus sign Esign Osign. read_lit Hone Eone. read_opt Hsp sp Esp Osp.
      cbn [rest] in *.
      exists (sign ++ code "1" :: sp). split; [|right; exists sign, sp; auto].
      rewrite Esign, Eone, Esp, <- app_assoc. reflexivity. }
  destruct Hcountry as (country & Ecountry & Hcountry).
  exists country, open, area, close, sep1, exch, sep2, line.
  split.
  { rewrite Ecountry, Eo, Ea, Ec, E1, Ep, E2, El. reflexivity. }
  repeat (split; [assumption|]).
  intros Hp0.
  unfold at_boundary, word_before, word_after in Hstart. cbn [prev rest] in Hstart.
  fold (word_opt p) in Hstart. rewrite Hp0 in Hstart. cbn [xorb] in Hstart.
  destruct s as [|d w]; [discriminate|]. exists d, w. split; [reflexivity|].
  destruct (three_digits _ La Fa) as (a1 & a2 & a3 & -> & Da & _).
  assert (Hopen : forall tl, open ++ [a1; a2; a3] ++ tl = d :: w -> is_digit d = true).
  { intros tl E. destruct (@at_most_one_head _ _ _ _ _ Oo E) as [Hq | [_ Hq]].
    - apply is_char_eq in Hq. subst d. discriminate.
    - injection Hq as <- _. exact Da. }
  destruct Hcountry as [-> | (sign & sp & -> & Osign & Osp)].
  - cbn [app] in Ecountry. rewrite Eo, Ea in Ecountry. symmetry in Ecountry.
    exact (Hopen _ Ecountry).
  - rewrite <- app_assoc in Ecountry. symmetry in Ecountry.
    destruct (@at_most_one_head _ _ _ _ _ Osign Ecountry) as [Hq | [_ Hq]].
    + apply is_char_eq in Hq. subst d. discriminate.
    + injection Hq as <- _. reflexivity.
Qed.

(** X13: whatever the phone pattern matches reads ten digits in groups of
    three, three and four, with at most one separator before the second and
    the third group, optional parentheses around the first, and optionally
    the country code 1 in front, itself with an optional plus sign and an
    optional separator.  Where no word character stands before the match,
    the match begins with a digit: an opening parenthesis or a plus
    sign there is not part of it. *)
Theorem phone_match_shape (p : option char) (s : text) (y : cursor) :
  match_at PATTERNS.PHONE_US (Cursor p s) = Some y ->
  exists country open area close sep1 exch sep2 line,
    s = country ++ open ++ area ++ close ++ sep1 ++ exch ++ sep2 ++ line ++ rest y
    /\ (country = []
        \/ exists sign sp, country = sign ++ code "1" :: sp
                           /\ at_most_one (is_char "+") sign = true
                           /\ at_most_one PATTERNS.phone_sep sp = true)
    /\ at_most_one (is_char "(") open = true
    /\ List.length area = 3%nat /\ forallb is_digit area = true
    /\ at_most_one (is_char ")") close = true
    /\ at_most_one PATTERNS.phone_sep sep1 = true
    /\ List.length exch = 3%nat /\ forallb is_digit exch = true
    /\ at_most_one PATTERNS.phone_sep sep2 = true
    /\ List.length line = 4%nat /\ forallb is_digit line = true
    /\ (word_opt p = false -> exists d w, s = d :: w /\ is_digit d = true).
Proof. exact (@phone_shape p s y). Qed.

Lemma phone_match_shape_witness :
  exists country open area close sep1 exch sep2 line,
    str "+1 (555) 019-2834." 
    = country ++ open ++ area ++ close ++ sep1 ++ exch ++ sep2 ++ line ++ str "."
    /\ (country = []
        \/ exists sign sp, country = sign ++ code "1" :: sp
                           /\ at_most_one (is_char "+") sign = true
                           /\ at_most_one PATTERNS.phone_sep sp = true)
    /\ at_most_one (is_char "(") open = true
    /\ List.length area = 3%nat /\ forallb is_digit area = true
    /\ at_most_one (is_char ")") close = true
    /\ at_most_one PATTERNS.phone_sep sep1 = true
    /\ List.length exch = 3%nat /\ forallb is_digit exch = true
    /\ at_most_one PATTERNS.phone_sep sep2 = true
    /\ List.length line = 4%nat /\ forallb is_digit line = true
    /\ (word_opt (Some (code "x")) = false -> exists d w, str "+1 (555) 019-2834." = d :: w /\ is_digit d = true).
Proof.
  apply (@phone_match_shape (Some (code "x")) (str "+1 (555) 019-2834.")
           (Cursor (Some 52%N) (str "."))).
  vm_compute. reflexivity.
Defined.

(** ** Text that no pattern reads

    A match cannot reach over a code unit that none of the classes of the
    pattern accepts; the matcher then does the same whatever stands behind
    that code unit. *)

Section Barrier.
Variables B B' : text.
Hypothesis HB : head_word B = false.
Hypothesis HB' : head_word B' = false.

Lemma akin_boundary (x x' : cursor) : akin B B' x x' -> at_boundary x = at_boundary x'.
Proof.
  intros (w & E & E' & Hp). unfold at_boundary, word_before, word_after.
  fold (word_opt (prev x)). fold (word_opt (prev x')).
  fold (head_word (rest x)). fold (head_word (rest x')).
  rewrite Hp, E, E'. destruct w; cbn [app]; [now rewrite HB, HB' | reflexivity].
Qed.

Lemma akin_same_place (x x' y y' : cursor) :
  akin B B' x x' -> akin B B' y y' -> same_place x y = same_place x' y'.
Proof.
  intros (w & E & E' & _) (v & F & F' & _). unfold same_place.
  rewrite E, E', F, F', !length_app.
  destruct (Nat.eqb_spec (List.length v + List.length B) (List.length w + List.length B));
    destruct (Nat.eqb_spec (List.length v + List.length B') (List.length w + List.length B'));
    try reflexivity; lia.
Qed.

Section BarrierRepeat.
Variable body : cont -> cont.
Variable greedy : bool.
Hypothesis body_sim :
  forall k k', (forall y y', akin B B' y y' -> akin_opt B B' (k y) (k' y')) ->
  forall x x', akin B B' x x' -> akin_opt B B' (body k x) (body k' x').

Lemma RepeatMatcher_sim (c c' : cont) :
  (forall y y', akin B B' y y' -> akin_opt B B' (c y) (c' y')) ->
  forall max min x x', akin B B' x x' ->
  akin_opt B B' (RepeatMatcher body greedy c max min x)
                (RepeatMatcher body greedy c' max min x').
Proof.
  intros Hc. induction max as [|max IH]; intros min x x' Hx; cbn [RepeatMatcher].
  - now apply Hc.
  - cbv zeta.
    assert (Hd : forall y y', akin B B' y y' ->
               akin_opt B B'
                 (if (min =? 0)%nat && same_place x y then None
                  else RepeatMatcher body greedy c max (Nat.pred min) y)
                 (if (min =? 0)%nat && same_place x' y' then None
                  else RepeatMatcher body greedy c' max (Nat.pred min) y')).
    { intros y y' Hy. rewrite (akin_same_place Hx Hy).
      destruct ((min =? 0)%nat && same_place x' y'); [exact I | now apply IH]. }
    pose proof (body_sim _ _ Hd Hx) as Hb. pose proof (Hc _ _ Hx) as Hcx.
    revert Hb Hcx.
    generalize (body (fun y => if (min =? 0)%nat && same_place x y then None
                               else RepeatMatcher body greedy c max (Nat.pred min) y) x).
    generalize (body (fun y => if (min =? 0)%nat && same_place x' y then None
                               else RepeatMatcher body greedy c' max (Nat.pred min) y) x').
    generalize (c x). generalize (c' x').
    intros o1 o2 o3 o4 Hb Hcx.
    destruct (negb (min =? 0)%nat); [exact Hb|].
    destruct greedy.
    + destruct o4, o3; cbn in Hb; try contradiction; [exact Hb | exact Hcx].
    + destruct o2, o1; cbn in Hcx; try contradiction; [exact Hcx | exact Hb].
Qed.
End BarrierRepeat.

Lemma unread_parts (r1 r2 : regex) (t : text) :
  match t with
  | [] => true
  | ch :: _ => negb (reads_any r1 ch || reads_any r2 ch)
  end = true ->
  unread r1 t = true /\ unread r2 t = true.
Proof.
  destruct t as [|ch t]; cbn; [auto|]. intros H. apply negb_true_iff in H.
  apply orb_false_elim in H. destruct H as [-> ->]. auto.
Qed.

Lemma m_sim (r : regex) :
  unread r B = true -> unread r B' = true ->
  forall k k', (forall y y', akin B B' y y' -> akin_opt B B' (k y) (k' y')) ->
  forall x x', akin B B' x x' -> akin_opt B B' (m r k x) (m r k' x').
Proof.
  induction r as [|p| |r IH|r1 IH1 r2 IH2|r1 IH1 r2 IH2|min max greedy r IH];
    intros HU HU' k k' Hk x x' Hx; cbn [m].
  - now apply Hk.
  - destruct x as [q s], x' as [q' s']. destruct Hx as (w & E & E' & Hp).
    cbn [rest prev] in *. subst s s'. destruct w as [|ch w]; cbn [app].
    + assert (E1 : match B with
                   | ch :: s => if p ch then k (Cursor (Some ch) s) else None
                   | [] => None
                   end = None).
      { destruct B as [|ch t]; [reflexivity|]. cbn in HU. now destruct (p ch). }
      assert (E2 : match B' with
                   | ch :: s => if p ch then k' (Cursor (Some ch) s) else None
                   | [] => None
                   end = None).
      { destruct B' as [|ch t]; [reflexivity|]. cbn in HU'. now destruct (p ch). }
      rewrite E1, E2. exact I.
    + destruct (p ch); [|exact I]. apply Hk. exists w. cbn. auto.
  - rewrite (akin_boundary Hx). destruct (at_boundary x'); [now apply Hk | exact I].
  - pose proof (IH HU HU' Some Some (fun y y' H => H) x x' Hx) as H.
    destruct (m r Some x), (m r Some x'); cbn in H; try contradiction;
      [exact I | now apply Hk].
  - destruct (unread_parts r1 r2 B HU) as [U1 U2].
    destruct (unread_parts r1 r2 B' HU') as [U1' U2'].
    apply IH1; try assumption. intros y y' Hy. now apply IH2.
  - destruct (unread_parts r1 r2 B HU) as [U1 U2].
    destruct (unread_parts r1 r2 B' HU') as [U1' U2'].
    pose proof (IH1 U1 U1' k k' Hk x x' Hx) as H1.
    destruct (m r1 k x), (m r1 k' x'); cbn in H1; try contradiction;
      [exact H1 | now apply IH2].
  - assert (Hsim : forall b,
               akin_opt B B' (RepeatMatcher (m r) greedy k b min x)
                             (RepeatMatcher (m r) greedy k' b min x')).
    { intros b. apply RepeatMatcher_sim; try assumption.
      intros c c' Hc y y' Hy. now apply IH. }
    destruct max as [n|]; [apply Hsim|].
    rewrite (@RepeatMatcher_bound (m r) greedy (@m_local r) (@m_fails r) k
               (min + List.length (rest x))
               (min + List.length (rest x) + List.length (rest x')) min x) by lia.
    rewrite (@RepeatMatcher_bound (m r) greedy (@m_local r) (@m_fails r) k'
               (min + List.length (rest x'))
               (min + List.length (rest x) + List.length (rest x')) min x') by lia.
    apply Hsim.
Qed.

Lemma match_sim (r : regex) (x x' : cursor) :
  unread r B = true -> unread r B' = true ->
  akin B B' x x' -> akin_opt B B' (match_at r x) (match_at r x').
Proof.
  intros HU HU' Hx. unfold match_at. apply m_sim; try assumption.
  intros y y' Hy. exact Hy.
Qed.
End Barrier.

Section Split.
Variable re : regex.
Variable validator : option (text -> bool).
Hypothesis Hre : detector_pattern re.

Lemma out_miss (p : option char) (c0 : char) (s : text) :
  match_at re (Cursor p (c0 :: s)) = None ->
  out re validator p (c0 :: s) = c0 :: out re validator (Some c0) s
  /\ hits re validator p (c0 :: s) = hits re validator (Some c0) s.
Proof.
  intros Hm.
  destruct (scan_cases validator Hre p (c0 :: s))
    as [E | [(c1 & s' & E & _ & Ho & Hh)
           | [(u & v & _ & _ & M & _) | (u & v & _ & _ & M & _)]]];
    try congruence.
  injection E as <- <-. auto.
Qed.

Lemma out_hit (p : option char) (u v : text) :
  u <> [] ->
  match_at re (Cursor p (u ++ v)) = Some (Cursor (last_of p u) v) ->
  out re validator p (u ++ v)
  = (if accepted validator u then placeholder else u) ++ out re validator (last_of p u) v
  /\ hits re validator p (u ++ v)
     = ((if accepted validator u then 1 else 0) + hits re validator (last_of p u) v)%nat.
Proof.
  intros Hu Hm.
  destruct (scan_cases validator Hre p (u ++ v))
    as [E | [(c1 & s' & _ & M & _)
           | [(u' & v' & E & _ & M & Ha & Ho & Hh) | (u' & v' & E & _ & M & Ha & Ho & Hh)]]];
    try congruence.
  - apply app_eq_nil in E. destruct E. congruence.
  - rewrite Hm in M. injection M as _ <-. apply app_inv_tail in E. subst u'.
    rewrite Ha. auto.
  - rewrite Hm in M. injection M as _ <-. apply app_inv_tail in E. subst u'.
    rewrite Ha. auto.
Qed.

Lemma hit_cursor (p : option char) (s : text) (y : cursor) :
  match_at re (Cursor p s) = Some y ->
  exists u, u <> [] /\ s = u ++ rest y /\ y = Cursor (last_of p u) (rest y).
Proof.
  intros H. destruct (hit_facts Hre _ H) as (u & Hu & Hp & Hne & _).
  cbn [rest prev] in *. exists u. split; [exact Hne|]. split; [exact Hu|].
  destruct y as [q t]. cbn [rest prev] in *. now subst q.
Qed.

(** With the same text up to two tails the pattern cannot read into, an
    attempt fails at both places or finds the same match at both. *)
Lemma same_step (B B' : text) (p p' : option char) (w : text) :
  head_word B = false -> head_word B' = false ->
  unread re B = true -> unread re B' = true ->
  word_opt p = word_opt p' ->
  (match_at re (Cursor p (w ++ B)) = None /\ match_at re (Cursor p' (w ++ B')) = None)
  \/ exists u v, w = u ++ v /\ u <> []
       /\ match_at re (Cursor p (w ++ B)) = Some (Cursor (last_of p u) (v ++ B))
       /\ match_at re (Cursor p' (w ++ B')) = Some (Cursor (last_of p' u) (v ++ B')).
Proof.
  intros HB HB' HU HU' Hp.
  assert (Hx : akin B B' (Cursor p (w ++ B)) (Cursor p' (w ++ B')))
    by (exists w; cbn; auto).
  pose proof (@match_sim B B' HB HB' re _ _ HU HU' Hx) as H.
  destruct (match_at re (Cursor p (w ++ B))) as [y|] eqn:M;
    destruct (match_at re (Cursor p' (w ++ B'))) as [y'|] eqn:M';
    cbn in H; try contradiction; [right | left; auto].
  destruct H as (v & Ev & Ev' & _).
  destruct (hit_cursor _ _ M) as (u & Hu & Eu & Hy).
  destruct (hit_cursor _ _ M') as (u' & Hu' & Eu' & Hy').
  rewrite Ev in *. rewrite Ev' in *.
  rewrite app_assoc in Eu, Eu'. apply app_inv_tail in Eu, Eu'.
  assert (u' = u) by (rewrite Eu in Eu'; now apply app_inv_tail in Eu').
  subst u'. exists u, v. repeat split; try assumption; now f_equal.
Qed.

(** A change of the code unit before the text, within the same kind,
    changes nothing. *)
Lemma scan_prev (p p' : option char) (s : text) :
  word_opt p = word_opt p' ->
  out re validator p s = out re validator p' s
  /\ hits re validator p s = hits re validator p' s.
Proof.
  intros Hp. destruct s as [|c0 s]; [now rewrite !out_nil, !hits_nil by exact Hre|].
  destruct (@same_step [] [] p p' (c0 :: s) eq_refl eq_refl eq_refl eq_refl Hp)
    as [[N N'] | (u & v & E & Hu & M & M')]; rewrite !app_nil_r in *.
  - destruct (@out_miss _ _ _ N) as [-> ->]. destruct (@out_miss _ _ _ N') as [-> ->]. auto.
  - rewrite E in *.
    destruct (@out_hit _ _ _ Hu M) as [-> ->]. destruct (@out_hit _ _ _ Hu M') as [-> ->].
    rewrite (@last_of_nonempty p p' u Hu). auto.
Qed.

Variable ch : char.
Variable b : text.
Hypothesis Hword : is_word ch = false.
Hypothesis Hread : reads_any re ch = false.

Lemma unread_here : unread re (ch :: b) = true.
Proof. cbn. now rewrite Hread. Qed.

Lemma scan_to_barrier (n : nat) :
  forall a, (List.length a <= n)%nat ->
  forall p,
  out re validator p (a ++ ch :: b)
  = out re validator p a ++ out re validator (last_of p a) (ch :: b)
  /\ hits re validator p (a ++ ch :: b)
     = (hits re validator p a + hits re validator (last_of p a) (ch :: b))%nat.
Proof.
  induction n as [|n IH]; intros a Hn p.
  - destruct a; [|simpl in Hn; lia]. cbn [app]. now rewrite out_nil, hits_nil by exact Hre.
  - destruct a as [|c0 a']; [cbn [app]; now rewrite out_nil, hits_nil by exact Hre|].
    remember (c0 :: a') as a eqn:Ea.
    destruct (@same_step (ch :: b) [] p p a Hword eq_refl unread_here eq_refl eq_refl)
      as [[N N'] | (u & v & E & Hu & M & M')]; rewrite !app_nil_r in *.
    + subst a. cbn [app] in *.
      destruct (@out_miss _ _ _ N) as [-> ->]. destruct (@out_miss _ _ _ N') as [-> ->].
      rewrite last_of_cons.
      destruct (IH a' ltac:(simpl in Hn; lia) (Some c0)) as [-> ->]. auto.
    + clear Ea. subst a. rewrite <- app_assoc in *.
      assert (1 <= List.length u)%nat by (destruct u; [congruence | simpl; lia]).
      rewrite length_app in Hn.
      destruct (@out_hit _ _ _ Hu M) as [-> ->]. destruct (@out_hit _ _ _ Hu M') as [-> ->].
      rewrite last_of_app.
      destruct (IH v ltac:(lia) (last_of p u)) as [-> ->].
      rewrite <- !app_assoc. split; [reflexivity | lia].
Qed.

Lemma scan_barrier (q : option char) :
  out re validator q (ch :: b) = ch :: out re validator None b
  /\ hits re validator q (ch :: b) = hits re validator None b.
Proof.
  destruct (@same_step (ch :: b) [] q q [] Hword eq_refl unread_here eq_refl eq_refl)
    as [[N _] | (u & v & E & Hu & _)].
  - cbn [app] in N. destruct (@out_miss _ _ _ N) as [-> ->].
    assert (Hp : word_opt (Some ch) = word_opt None) by exact Hword.
    destruct (@scan_prev _ _ b Hp) as [-> ->]. auto.
  - symmetry in E. apply app_eq_nil in E. destruct E. congruence.
Qed.

(** The stage treats the text before and the text behind the code unit
    each on its own. *)
Lemma stage_split (a : text) :
  out re validator None (a ++ ch :: b)
  = out re validator None a ++ ch :: out re validator None b
  /\ hits re validator None (a ++ ch :: b)
     = (hits re validator None a + hits re validator None b)%nat.
Proof.
  destruct (@scan_to_barrier (List.length a) a (le_n _) None) as [-> ->].
  destruct (scan_barrier (last_of None a)) as [-> ->]. auto.
Qed.
End Split.

Ltac class_leaf H ch :=
  first
    [ discriminate H
    | apply is_char_eq in H; subst ch; reflexivity
    | unfold separates, is_word; rewrite H; reflexivity
    | unfold separates, is_word; rewrite H, ?orb_true_r; reflexivity
    | apply in_range_bounds in H; cbn in H;
      let D := fresh "D" in
      assert (D : is_digit ch = true)
        by (unfold is_digit, in_range; apply andb_true_intro;
            split; apply N.leb_le; cbn; lia);
      unfold separates, is_word; rewrite D, ?orb_true_r; reflexivity ].

Ltac class_cases H ch :=
  unfold PATTERNS.email_local, PATTERNS.email_domain, PATTERNS.phone_sep, one_of in H;
  cbn [existsb list_ascii_of_string] in H;
  repeat match type of H with
    | (_ || _) = true => apply orb_prop in H; destruct H as [H | H]
    end;
  class_leaf H ch.

Lemma separates_unread (ch : char) :
  separates ch = true ->
  is_word ch = false
  /\ reads_any PATTERNS.IPV4 ch = false
  /\ reads_any PATTERNS.EMAIL ch = false
  /\ reads_any PATTERNS.SSN_US ch = false
  /\ reads_any PATTERNS.PHONE_US ch = false
  /\ reads_any PATTERNS.CREDIT_CARD ch = false.
Proof.
  intros Hs. split.
  { unfold separates in Hs. destruct (is_word ch); [discriminate | reflexivity]. }
  repeat apply conj;
    match goal with
    | |- reads_any ?r ch = false =>
        destruct (reads_any r ch) eqn:E; [exfalso | reflexivity]
    end;
    (assert (Hn : separates ch = false); [clear Hs | congruence]).
  - cbn [reads_any PATTERNS.IPV4 PATTERNS.octet times opt lit] in E. class_cases E ch.
  - cbn [reads_any PATTERNS.EMAIL plus at_least lit] in E. class_cases E ch.
  - cbn [reads_any PATTERNS.SSN_US times opt lit digit] in E. class_cases E ch.
  - cbn [reads_any PATTERNS.PHONE_US times opt lit] in E. class_cases E ch.
  - cbn [reads_any PATTERNS.CREDIT_CARD between star_lazy digit] in E. class_cases E ch.
Qed.

Lemma run_split (ch : char) (a b : text) :
  separates ch = true ->
  after_card (a ++ ch :: b) = after_card a ++ ch :: after_card b
  /\ ipv4_count (a ++ ch :: b) = (ipv4_count a + ipv4_count b)%nat
  /\ email_count (a ++ ch :: b) = (email_count a + email_count b)%nat
  /\ ssn_count (a ++ ch :: b) = (ssn_count a + ssn_count b)%nat
  /\ phone_count (a ++ ch :: b) = (phone_count a + phone_count b)%nat
  /\ card_count (a ++ ch :: b) = (card_count a + card_count b)%nat.
Proof.
  intros Hs. destruct (separates_unread ch Hs) as (Hw & R1 & R2 & R3 & R4 & R5).
  unfold card_count, phone_count, ssn_count, email_count, ipv4_count,
         after_card, after_phone, after_ssn, after_email, after_ipv4.
  destruct (@stage_split PATTERNS.IPV4 None IPV4_detector ch b Hw R1 a) as [-> ->].
  destruct (@stage_split PATTERNS.EMAIL None EMAIL_detector ch
              (out PATTERNS.IPV4 None None b) Hw R2 (out PATTERNS.IPV4 None None a))
    as [-> ->].
  destruct (@stage_split PATTERNS.SSN_US None SSN_US_detector ch
              (out PATTERNS.EMAIL None None (out PATTERNS.IPV4 None None b)) Hw R3
              (out PATTERNS.EMAIL None None (out PATTERNS.IPV4 None None a)))
    as [-> ->].
  destruct (@stage_split PATTERNS.PHONE_US None PHONE_US_detector ch
              (out PATTERNS.SSN_US None None
                 (out PATTERNS.EMAIL None None (out PATTERNS.IPV4 None None b))) Hw R4
              (out PATTERNS.SSN_US None None
                 (out PATTERNS.EMAIL None None (out PATTERNS.IPV4 None None a))))
    as [-> ->].
  destruct (@stage_split PATTERNS.CREDIT_CARD (Some isValidCreditCard) CREDIT_CARD_detector ch
              (out PATTERNS.PHONE_US None None
                 (out PATTERNS.SSN_US None None
                    (out PATTERNS.EMAIL None None (out PATTERNS.IPV4 None None b)))) Hw R5
              (out PATTERNS.PHONE_US None None
                 (out PATTERNS.SSN_US None None
                    (out PATTERNS.EMAIL None None (out PATTERNS.IPV4 None None a)))))
    as [-> ->].
  repeat split; reflexivity.
Qed.

(** The counts of a text whose parts are counted on their own. *)
Lemma counts_add (whole a b mid : text) :
  after_card whole = after_card a ++ mid ++ after_card b ->
  ipv4_count whole = (ipv4_count a + ipv4_count b)%nat ->
  email_count whole = (email_count a + email_count b)%nat ->
  ssn_count whole = (ssn_count a + ssn_count b)%nat ->
  phone_count whole = (phone_count a + phone_count b)%nat ->
  card_count whole = (card_count a + card_count b)%nat ->
  redactedText (redact whole) = redactedText (redact a) ++ mid ++ redactedText (redact b)
  /\ totalRedactions (redact whole)
     = (totalRedactions (redact a) + totalRedactions (redact b))%nat
  /\ forall id na nb,
       get id (redactionMap (redact a)) = Some na ->
       get id (redactionMap (redact b)) = Some nb ->
       get id (redactionMap (redact whole)) = Some (na + nb)%nat.
Proof.
  intros Ht H1 H2 H3 H4 H5. rewrite !redact_eq.
  cbn [redactedText totalRedactions redactionMap].
  split; [exact Ht|]. split; [lia|].
  intros id na nb. cbn [get].
  destruct (String.eqb "ipv4" id); [congruence|].
  destruct (String.eqb "email" id); [congruence|].
  destruct (String.eqb "ssn_us" id); [congruence|].
  destruct (String.eqb "phone_us" id); [congruence|].
  destruct (String.eqb "credit_card" id); [congruence | discriminate].
Qed.

(** X14: a code unit that is no word character, no white space and none
    of [.%+-@()] (a comma, a semicolon, a bracket, a quote ...) splits the
    run: the text before it and the text behind it are redacted each on its
    own, and the counts of the whole are the sums of the counts of the two
    parts. *)
Theorem separator_splits_run (ch : char) (a b : text) :
  separates ch = true ->
  redactedText (redact (a ++ ch :: b))
  = redactedText (redact a) ++ ch :: redactedText (redact b)
  /\ totalRedactions (redact (a ++ ch :: b))
     = (totalRedactions (redact a) + totalRedactions (redact b))%nat
  /\ forall id na nb,
       get id (redactionMap (redact a)) = Some na ->
       get id (redactionMap (redact b)) = Some nb ->
       get id (redactionMap (redact (a ++ ch :: b))) = Some (na + nb)%nat.
Proof.
  intros Hs. destruct (run_split ch a b Hs) as (Ht & H1 & H2 & H3 & H4 & H5).
  exact (@counts_add (a ++ ch :: b) a b [ch] Ht H1 H2 H3 H4 H5).
Qed.

Lemma separator_splits_run_witness :
  separates (code ",") = true
  /\ redactedText (redact (str "a@b.cc" ++ code "," :: str "10.0.0.1"))
     = redactedText (redact (str "a@b.cc")) ++ code "," :: redactedText (redact (str "10.0.0.1")).
Proof.
  split; [reflexivity|].
  exact (proj1 (@separator_splits_run (code ",") (str "a@b.cc") (str "10.0.0.1") eq_refl)).
Defined.

(** X15: a placeholder that stands in the input stays where it is, and
    the text before it and the text behind it are redacted each on its own;
    the counts of the whole are the sums of the counts of the two parts. *)
Theorem placeholder_splits_run (a b : text) :
  redactedText (redact (a ++ placeholder ++ b))
  = redactedText (redact a) ++ placeholder ++ redactedText (redact b)
  /\ totalRedactions (redact (a ++ placeholder ++ b))
     = (totalRedactions (redact a) + totalRedactions (redact b))%nat
  /\ forall id na nb,
       get id (redactionMap (redact a)) = Some na ->
       get id (redactionMap (redact b)) = Some nb ->
       get id (redactionMap (redact (a ++ placeholder ++ b))) = Some (na + nb)%nat.
Proof.
  change (placeholder ++ b)
    with (code "[" :: str "REDACTED" ++ code "]" :: b).
  destruct (run_split (code "[") a (str "REDACTED" ++ code "]" :: b) eq_refl)
    as (Ht & H1 & H2 & H3 & H4 & H5).
  destruct (run_split (code "]") (str "REDACTED") b eq_refl)
    as (Ht' & H1' & H2' & H3' & H4' & H5').
  assert (E0 : after_card (str "REDACTED") = str "REDACTED"
               /\ ipv4_count (str "REDACTED") = 0%nat
               /\ email_count (str "REDACTED") = 0%nat
               /\ ssn_count (str "REDACTED") = 0%nat
               /\ phone_count (str "REDACTED") = 0%nat
               /\ card_count (str "REDACTED") = 0%nat)
    by (vm_compute; repeat split; reflexivity).
  destruct E0 as (E0 & C1 & C2 & C3 & C4 & C5).
  apply counts_add.
  - rewrite Ht, Ht', E0. reflexivity.
  - rewrite H1, H1', C1. reflexivity.
  - rewrite H2, H2', C2. reflexivity.
  - rewrite H3, H3', C3. reflexivity.
  - rewrite H4, H4', C4. reflexivity.
  - rewrite H5, H5', C5. reflexivity.
Qed.

(** ** What is left in the result *)

(** X16: in the redacted text of a run the IPv4, e-mail, SSN and phone
    patterns match at no position. *)
Theorem result_holds_no_match (input : text) :
  matches_nowhere PATTERNS.IPV4 (redactedText (redact input))
  /\ matches_nowhere PATTERNS.EMAIL (redactedText (redact input))
  /\ matches_nowhere PATTERNS.SSN_US (redactedText (redact input))
  /\ matches_nowhere PATTERNS.PHONE_US (redactedText (redact input)).
Proof.
  rewrite redactedText_redact.
  exact (conj (ipv4_quiet input)
           (conj (email_quiet input) (conj (ssn_quiet input) (phone_quiet input)))).
Qed.

Lemma quiet_hits (re : regex) (validator : option (text -> bool)) (s : text) :
  quiet re None s -> hits re validator None s = 0%nat.
Proof.
  intros H. unfold hits.
  now rewrite (@replace_from_nowhere nat re (redaction_callback placeholder validator) s
                 None 0%nat H).
Qed.

Lemma quiet_out (re : regex) (validator : option (text -> bool)) (s : text) :
  quiet re None s -> out re validator None s = s.
Proof.
  intros H. unfold out.
  now rewrite (@replace_from_nowhere nat re (redaction_callback placeholder validator) s
                 None 0%nat H).
Qed.

(** X17: a type whose pattern matches at no position of the input is
    counted 0, also when its detector runs after others: the stages before
    it never make a match of it. *)
Theorem unmatched_type_counts_zero (input : text) :
  (matches_nowhere PATTERNS.IPV4 input ->
     get "ipv4" (redactionMap (redact input)) = Some 0%nat)
  /\ (matches_nowhere PATTERNS.EMAIL input ->
        get "email" (redactionMap (redact input)) = Some 0%nat)
  /\ (matches_nowhere PATTERNS.SSN_US input ->
        get "ssn_us" (redactionMap (redact input)) = Some 0%nat)
  /\ (matches_nowhere PATTERNS.PHONE_US input ->
        get "phone_us" (redactionMap (redact input)) = Some 0%nat)
  /\ (matches_nowhere PATTERNS.CREDIT_CARD input ->
        get "credit_card" (redactionMap (redact input)) = Some 0%nat).
Proof.
  rewrite redact_eq. cbn [redactionMap get String.eqb Ascii.eqb Bool.eqb].
  unfold card_count, phone_count, ssn_count, email_count, ipv4_count,
         after_phone, after_ssn, after_email, after_ipv4.
  repeat apply conj; intros H; cbn; f_equal; apply quiet_hits;
    repeat (apply preserved;
            auto using IPV4_detector, EMAIL_detector, SSN_US_detector, PHONE_US_detector,
                       CREDIT_CARD_detector);
    exact H.
Qed.

Lemma unmatched_type_counts_zero_witness :
  matches_nowhere PATTERNS.PHONE_US (str "mail a@b.cc, host 10.0.0.1")
  /\ get "phone_us" (redactionMap (redact (str "mail a@b.cc, host 10.0.0.1"))) = Some 0%nat.
Proof.
  assert (H : matches_nowhere PATTERNS.PHONE_US (str "mail a@b.cc, host 10.0.0.1")).
  { intros u v E.
    apply (@nowhere_from_sound PATTERNS.PHONE_US (str "mail a@b.cc, host 10.0.0.1") None);
      [vm_compute; reflexivity | exact E]. }
  split; [exact H|].
  exact (proj1 (proj2 (proj2 (proj2
           (unmatched_type_counts_zero (str "mail a@b.cc, host 10.0.0.1"))))) H).
Defined.

(** ** The result as an edit of the input *)

Lemma redacts_same (u : text) :
  forall s t n, redacts s t n -> redacts (u ++ s) (u ++ t) n.
Proof.
  induction u as [|ch u IH]; intros s t n H; cbn [app]; [exact H|].
  apply redacts_keep. now apply IH.
Qed.

(** Text without brackets at the front of the result stands at the front
    of the input. *)
Lemma redacts_front (u : text) :
  Forall no_bracket u ->
  forall s v n, redacts s (u ++ v) n -> exists s', s = u ++ s' /\ redacts s' v n.
Proof.
  induction u as [|c u IH]; intros Hu s v n H; cbn [app] in *.
  - exists s. auto.
  - inversion Hu as [|? ? [Hopen _] Hu']. subst.
    remember (c :: u ++ v) as t eqn:Et.
    destruct H as [|ch s t n H|w s t n Hw Hd H].
    + discriminate.
    + injection Et as -> ->. destruct (@IH Hu' _ _ _ H) as (s' & -> & H').
      exists s'. auto.
    + exfalso. change (placeholder ++ t) with (open_bracket :: str "REDACTED]" ++ t) in Et.
      injection Et as <- _. now apply Hopen.
Qed.

Section Edit.
Variable re : regex.
Variable validator : option (text -> bool).
Hypothesis Hre : detector_pattern re.
Hypothesis Hin : In (re, validator) detectors.

Lemma scan_over (X : text) :
  forall p t,
  (forall A B, X = A ++ B -> B <> [] ->
     match_at re (Cursor (last_of p A) (B ++ t)) = None) ->
  out re validator p (X ++ t) = X ++ out re validator (last_of p X) t
  /\ hits re validator p (X ++ t) = hits re validator (last_of p X) t.
Proof.
  induction X as [|c X IH]; intros p t H; cbn [app]; [auto|].
  pose proof (H [] (c :: X) eq_refl ltac:(discriminate)) as N. cbn [app] in N.
  change (last_of p []) with p in N.
  destruct (@out_miss re validator Hre _ _ _ N) as [-> ->].
  rewrite last_of_cons.
  destruct (IH (Some c) t) as [-> ->]; [|auto].
  intros A B E HB. rewrite <- last_of_cons with (p := p). apply H; [|exact HB].
  now rewrite E.
Qed.

(** A stage edits the text it is given, and so the input. *)
Lemma stage_redacts (n0 : nat) :
  forall t, (List.length t <= n0)%nat ->
  forall s n p, redacts s t n ->
  redacts s (out re validator p t) (n + hits re validator p t).
Proof.
  induction n0 as [|n0 IH]; intros t Hn s n p H.
  - destruct t; [|simpl in Hn; lia].
    rewrite out_nil, hits_nil, Nat.add_0_r by exact Hre. exact H.
  - destruct H as [|ch s t n H|w s t n Hw Hd H].
    + rewrite out_nil, hits_nil by exact Hre. constructor.
    + destruct (match_at re (Cursor p (ch :: t))) as [y|] eqn:M.
      * destruct (@hit_cursor re Hre _ _ _ M) as (u & Hu & Eu & Hy).
        destruct (hit_facts Hre _ M) as (u' & Eu' & _ & _ & Hnb & _).
        cbn [rest] in Eu'.
        assert (u' = u) by (rewrite Eu in Eu'; now apply app_inv_tail in Eu'). subst u'.
        rewrite Hy in M. rewrite Eu in M.
        destruct (@out_hit re validator Hre _ _ _ Hu M) as [Ho Hh].
        pose proof (redacts_keep ch H) as H'. rewrite Eu in H'.
        destruct (@redacts_front u Hnb _ _ _ H') as (s' & Es & Hs).
        assert (Hlen : (List.length (rest y) <= n0)%nat).
        { apply (f_equal (@List.length char)) in Eu. rewrite length_app in Eu.
          cbn [List.length] in Eu, Hn.
          destruct u; [congruence | cbn [List.length] in Eu; lia]. }
        pose proof (IH (rest y) Hlen s' n (last_of p u) Hs) as Hrec.
        rewrite Eu, Ho, Hh, Es.
        destruct (accepted validator u) eqn:A.
        -- replace (n + (1 + hits re validator (last_of p u) (rest y)))%nat
             with (S (n + hits re validator (last_of p u) (rest y))) by lia.
           apply redacts_hide; [exact Hu | | exact Hrec].
           exists re, validator, p, (rest y). auto.
        -- cbn [Nat.add]. now apply redacts_same.
      * destruct (@out_miss re validator Hre _ _ _ M) as [-> ->].
        apply redacts_keep. apply IH; [simpl in Hn; lia | exact H].
    + destruct (@scan_over placeholder p t) as [-> ->].
      { intros A B E HB. now apply (@placeholder_quiet re Hre p A B t). }
      cbn [Nat.add]. apply redacts_hide; [exact Hw | exact Hd |].
      apply IH; [|exact H]. rewrite length_app in Hn.
      change (List.length placeholder) with 10%nat in Hn. lia.
Qed.

Lemma stage_redacts_here (s t : text) (n : nat) :
  redacts s t n ->
  redacts s (out re validator None t) (n + hits re validator None t).
Proof. apply (@stage_redacts (List.length t) t (le_n _)). Qed.
End Edit.

(** X18: the redacted text of a run is the input with as many stretches
    replaced by the placeholder as the run counts redactions, each of them
    text that one of the five detectors matches and its validator accepts;
    everything else of the input stays in its place. *)
Theorem run_is_an_edit (input : text) :
  redacts input (redactedText (redact input)) (totalRedactions (redact input)).
Proof.
  rewrite redact_eq. cbn [redactedText totalRedactions].
  unfold after_card, card_count, phone_count, ssn_count, email_count, ipv4_count.
  apply stage_redacts_here;
    [exact CREDIT_CARD_detector | cbn; tauto |].
  apply stage_redacts_here; [exact PHONE_US_detector | cbn; tauto |].
  apply stage_redacts_here; [exact SSN_US_detector | cbn; tauto |].
  apply stage_redacts_here; [exact EMAIL_detector | cbn; tauto |].
  apply stage_redacts_here; [exact IPV4_detector | cbn; tauto |].
  rewrite <- (app_nil_r input) at 1 2. apply redacts_same. constructor.
Qed.

(** ** Runs of word characters, runs of digits *)

Lemma last_of_in (p : option char) (u : text) :
  u <> [] -> exists ch, last_of p u = Some ch /\ In ch u.
Proof.
  intros Hu. destruct (@exists_last _ u Hu) as (w & ch & ->).
  exists ch. rewrite last_of_last. split; [reflexivity|].
  apply in_or_app. right. now left.
Qed.

Section WordRun.
Variable re : regex.
Variable validator : option (text -> bool).
Hypothesis Hre : detector_pattern re.
Variable T : text.
Hypothesis HT : forallb is_word T = true.

(** Within a run of word characters a match can only be the whole run. *)
Lemma whole_match (a b : text) (y : cursor) :
  T = a ++ b -> match_at re (Cursor (last_of None a) b) = Some y ->
  a = [] /\ y = Cursor (last_of None T) [].
Proof.
  intros E M. rewrite forallb_forall in HT.
  destruct (hit_facts Hre _ M) as (u & Hu & Hp & Hne & _ & Hs & He & _).
  cbn [rest prev] in Hu, Hp.
  assert (Hhead : head_word b = true).
  { rewrite Hu. destruct u as [|c u]; [congruence|]. cbn. apply HT.
    rewrite E, Hu. apply in_or_app. right. now left. }
  assert (Ha : a = []).
  { destruct a as [|c a]; [reflexivity | exfalso].
    destruct (@last_of_in None (c :: a) ltac:(discriminate)) as (d & Ed & Hd).
    unfold at_boundary, word_before, word_after in Hs. cbn [prev rest] in Hs.
    fold (head_word b) in Hs. rewrite Ed, Hhead in Hs.
    rewrite (HT d) in Hs; [discriminate|]. rewrite E. apply in_or_app. now left. }
  split; [exact Ha|]. subst a. cbn [app] in E. subst b.
  destruct (@last_of_in None u Hne) as (d & Ed & Hd).
  assert (Hy : rest y = []).
  { destruct (rest y) as [|c v] eqn:Ev; [reflexivity | exfalso].
    unfold at_boundary, word_before, word_after in He. rewrite Hp, Ev in He.
    change (last_of None []) with (@None char) in He. rewrite Ed in He.
    rewrite (HT d), (HT c) in He; [discriminate | |].
    - rewrite Hu. apply in_or_app. right. now left.
    - rewrite Hu. apply in_or_app. now left. }
  destruct y as [q t]. cbn [rest prev] in *. subst t.
  rewrite app_nil_r in Hu. subst u. now rewrite Hp.
Qed.

Lemma word_run_miss :
  match_at re (Cursor None T) = None ->
  out re validator None T = T /\ hits re validator None T = 0%nat.
Proof.
  intros N.
  assert (Hq : quiet re None T).
  { intros a b E. destruct (match_at re (Cursor (last_of None a) b)) as [y|] eqn:M;
      [|reflexivity].
    destruct (whole_match _ _ E M) as [-> _]. cbn [app] in E. subst b.
    change (last_of None []) with (@None char) in M. congruence. }
  split; [now apply quiet_out | now apply quiet_hits].
Qed.

Lemma word_run_hit :
  match_at re (Cursor None T) <> None ->
  out re validator None T = (if accepted validator T then placeholder else T)
  /\ hits re validator None T = (if accepted validator T then 1 else 0)%nat.
Proof.
  intros M. destruct (match_at re (Cursor None T)) as [y|] eqn:E; [|congruence].
  destruct (@whole_match [] T y eq_refl E) as [_ ->].
  assert (HT0 : T <> []).
  { intros ->. rewrite (no_hit_at_end Hre) in E. discriminate. }
  rewrite <- (app_nil_r T) in E at 1.
  destruct (@out_hit re validator Hre None T [] HT0 E) as [Ho Hh].
  rewrite app_nil_r in Ho, Hh.
  rewrite Ho, Hh, out_nil, hits_nil, app_nil_r, Nat.add_0_r by exact Hre. auto.
Qed.
End WordRun.

Lemma needs_quiet (ok : char -> bool) (r : regex) (s : text) :
  needs ok r -> well_formed r = true -> count_of ok s = 0%nat -> quiet r None s.
Proof.
  intros Hn Hw H0 a b E.
  destruct (match_at r (Cursor (last_of None a) b)) as [y|] eqn:M; [exfalso | reflexivity].
  apply (@match_at_sound r _ _ Hw) in M.
  destruct (@Matches_needs ok r Hn _ _ M) as (u & [Hu _] & Cu). cbn [rest] in Hu.
  rewrite E, Hu, !count_of_app in H0. lia.
Qed.

Lemma digit_not (a : ascii) :
  is_digit (code a) = false -> forall ch, is_digit ch = true -> is_char a ch = false.
Proof.
  intros Ha ch H. destruct (is_char a ch) eqn:E; [|reflexivity].
  apply is_char_eq in E. subst ch. congruence.
Qed.

Lemma digits_are_words (t : text) : forallb is_digit t = true -> forallb is_word t = true.
Proof.
  rewrite !forallb_forall. intros H ch Hch. apply is_digit_word. now apply H.
Qed.

Lemma IPV4_needs_dot : needs (is_char ".") PATTERNS.IPV4.
Proof.
  cbn [needs PATTERNS.IPV4 times lit]. right. left. split; [lia|]. right. now intros ch H.
Qed.

Lemma EMAIL_needs_at : needs (is_char "@") PATTERNS.EMAIL.
Proof. cbn [needs PATTERNS.EMAIL plus lit]. right. right. left. now intros ch H. Qed.

Lemma SSN_US_needs_dash : needs (is_char "-") PATTERNS.SSN_US.
Proof.
  cbn [needs PATTERNS.SSN_US times opt lit digit]. do 4 right. left. now intros ch H.
Qed.

(** The first three detectors leave a run of digits alone. *)
Lemma digits_early (t : text) :
  forallb is_digit t = true ->
  after_ssn t = t /\ ipv4_count t = 0%nat /\ email_count t = 0%nat /\ ssn_count t = 0%nat.
Proof.
  intros Hd.
  assert (Q1 : quiet PATTERNS.IPV4 None t).
  { apply (@needs_quiet (is_char ".")); [exact IPV4_needs_dot | reflexivity |].
    exact (@count_of_none _ _ t Hd (digit_not "." eq_refl)). }
  assert (Q2 : quiet PATTERNS.EMAIL None t).
  { apply (@needs_quiet (is_char "@")); [exact EMAIL_needs_at | reflexivity |].
    exact (@count_of_none _ _ t Hd (digit_not "@" eq_refl)). }
  assert (Q3 : quiet PATTERNS.SSN_US None t).
  { apply (@needs_quiet (is_char "-")); [exact SSN_US_needs_dash | reflexivity |].
    exact (@count_of_none _ _ t Hd (digit_not "-" eq_refl)). }
  unfold ssn_count, email_count, ipv4_count, after_ssn, after_email, after_ipv4.
  rewrite (quiet_out None Q1), (quiet_hits None Q1).
  rewrite (quiet_out None Q2), (quiet_hits None Q2).
  rewrite (quiet_out None Q3), (quiet_hits None Q3). auto.
Qed.

Lemma iter_run (p : char -> bool) (u : text) :
  forallb p u = true ->
  forall q t, iter (Matches (Chr p)) (List.length u) (Cursor q (u ++ t)) (Cursor (last_of q u) t).
Proof.
  induction u as [|c u IH]; intros H q t; cbn [iter List.length app].
  - reflexivity.
  - cbn [forallb] in H. apply andb_prop in H. destruct H as [Hc Hu].
    exists (Cursor (Some c) (u ++ t)). split.
    + exists c, (u ++ t). auto.
    + rewrite last_of_cons. now apply IH.
Qed.

Lemma times_run (p : char -> bool) (n : nat) (u : text) (q : option char) (t : text) :
  forallb p u = true -> List.length u = n ->
  Matches (times n (Chr p)) (Cursor q (u ++ t)) (Cursor (last_of q u) t).
Proof.
  intros H <-. exists (List.length u). split; [lia|]. split; [lia|]. now apply iter_run.
Qed.

Lemma opt_none (r : regex) (x : cursor) : Matches (opt r) x x.
Proof. exists 0%nat. split; [lia|]. split; [lia | reflexivity]. Qed.

Lemma opt_one (r : regex) (x y : cursor) : Matches r x y -> Matches (opt r) x y.
Proof. intros H. exists 1%nat. split; [lia|]. split; [lia|]. exists y. now split. Qed.

Lemma digit_not_sep (ch : char) : is_digit ch = true -> PATTERNS.phone_sep ch = false.
Proof.
  intros H. unfold is_digit in H. apply in_range_bounds in H. cbn in H.
  unfold PATTERNS.phone_sep, one_of, is_space, is_char. cbn.
  repeat match goal with
    | |- context [(?a <=? ?b)%N] => destruct (N.leb_spec a b); try lia
    | |- context [(?a =? ?b)%N] => destruct (N.eqb_spec a b); try lia
    end; reflexivity.
Qed.

Lemma at_most_one_digit_free (q : char -> bool) (u : text) :
  at_most_one q u = true -> forallb is_digit u = true ->
  (forall ch, is_digit ch = true -> q ch = false) -> u = [].
Proof.
  destruct u as [|c [|c2 u]]; cbn; intros H Hd Hq; try discriminate; [reflexivity|].
  rewrite andb_true_r in Hd. rewrite (Hq c Hd) in H. discriminate.
Qed.

Lemma phone_body (q : option char) (area exch line : text) :
  List.length area = 3%nat -> List.length exch = 3%nat -> List.length line = 4%nat ->
  forallb is_digit area = true -> forallb is_digit exch = true ->
  forallb is_digit line = true ->
  Matches (opt (lit "(") ;; times 3 (Chr (in_range "0" "9")) ;; opt (lit ")")
           ;; opt (Chr PATTERNS.phone_sep) ;; times 3 (Chr (in_range "0" "9"))
           ;; opt (Chr PATTERNS.phone_sep) ;; times 4 (Chr (in_range "0" "9")) ;; WordB)%re
    (Cursor q (area ++ exch ++ line ++ []))
    (Cursor (last_of (last_of (last_of q area) exch) line) []).
Proof.
  intros La Le Ll Da De Dl.
  exists (Cursor q (area ++ exch ++ line ++ [])). split; [apply opt_none|].
  exists (Cursor (last_of q area) (exch ++ line ++ [])). split; [now apply times_run|].
  exists (Cursor (last_of q area) (exch ++ line ++ [])). split; [apply opt_none|].
  exists (Cursor (last_of q area) (exch ++ line ++ [])). split; [apply opt_none|].
  exists (Cursor (last_of (last_of q area) exch) (line ++ [])). split; [now apply times_run|].
  exists (Cursor (last_of (last_of q area) exch) (line ++ [])). split; [apply opt_none|].
  exists (Cursor (last_of (last_of (last_of q area) exch) line) []).
  split; [now apply times_run|]. split; [reflexivity|].
  destruct (@last_of_in (last_of (last_of q area) exch) line) as (d & Ed & Hd).
  { destruct line; [discriminate | discriminate]. }
  unfold at_boundary, word_before, word_after. cbn [prev rest]. rewrite Ed.
  rewrite forallb_forall in Dl. rewrite (is_digit_word _ (Dl d Hd)). reflexivity.
Qed.

Lemma ten_split (t : text) :
  List.length t = 10%nat ->
  exists area exch line,
    t = area ++ exch ++ line ++ []
    /\ List.length area = 3%nat /\ List.length exch = 3%nat /\ List.length line = 4%nat.
Proof.
  intros H. do 10 (destruct t as [|? t]; [discriminate|]). destruct t; [|discriminate].
  eexists [_; _; _], [_; _; _], [_; _; _; _]. repeat split.
Qed.

Lemma phone_plain_matches (t : text) :
  forallb is_digit t = true -> phone_plain t = true ->
  match_at PATTERNS.PHONE_US (Cursor None t) <> None.
Proof.
  intros Hd Hp.
  assert (Hbody : forall q b, List.length b = 10%nat -> forallb is_digit b = true ->
            exists y,
              Matches (opt (lit "(") ;; times 3 (Chr (in_range "0" "9")) ;; opt (lit ")")
                       ;; opt (Chr PATTERNS.phone_sep) ;; times 3 (Chr (in_range "0" "9"))
                       ;; opt (Chr PATTERNS.phone_sep) ;; times 4 (Chr (in_range "0" "9"))
                       ;; WordB)%re (Cursor q b) y).
  { intros q b Lb Db. destruct (ten_split b Lb) as (area & exch & line & -> & La & Le & Ll).
    rewrite !forallb_app in Db. rewrite !andb_true_iff in Db.
    destruct Db as (Da & De & Dl & _).
    eexists. now apply phone_body. }
  assert (Hstart : at_boundary (Cursor None t) = true).
  { destruct t as [|c t]; [discriminate|]. cbn [forallb] in Hd.
    apply andb_prop in Hd. destruct Hd as [Hc _].
    unfold at_boundary, word_before, word_after. cbn. now rewrite (is_digit_word _ Hc). }
  unfold phone_plain in Hp. apply orb_prop in Hp. destruct Hp as [Hp | Hp].
  - apply Nat.eqb_eq in Hp. destruct (Hbody None t Hp Hd) as (y & Hy).
    apply (@match_at_complete PATTERNS.PHONE_US _ y eq_refl).
    exists (Cursor None t). split; [split; [reflexivity | exact Hstart]|].
    exists (Cursor None t). split; [apply opt_none | exact Hy].
  - apply andb_prop in Hp. destruct Hp as [Hl H1]. apply Nat.eqb_eq in Hl.
    destruct t as [|c t]; [discriminate|]. apply is_char_eq in H1. subst c.
    cbn [forallb] in Hd. apply andb_prop in Hd. destruct Hd as [_ Hd].
    destruct (Hbody (Some (code "1")) t ltac:(simpl in Hl; lia) Hd) as (y & Hy).
    apply (@match_at_complete PATTERNS.PHONE_US _ y eq_refl).
    exists (Cursor None (code "1" :: t)). split; [split; [reflexivity | exact Hstart]|].
    exists (Cursor (Some (code "1")) t). split; [|exact Hy].
    apply opt_one.
    exists (Cursor None (code "1" :: t)). split; [apply opt_none|].
    exists (Cursor (Some (code "1")) t). split; [|apply opt_none].
    exists (code "1"), t. auto.
Qed.

Lemma phone_whole_plain (t : text) (y : cursor) :
  forallb is_digit t = true ->
  match_at PATTERNS.PHONE_US (Cursor None t) = Some y -> rest y = [] ->
  phone_plain t = true.
Proof.
  intros Hd M Hy.
  destruct (phone_shape _ _ M)
    as (country & open & area & close & sep1 & exch & sep2 & line & E & Hc & Oo & La & Da
        & Oc & O1 & Le & De & O2 & Ll & Dl & _).
  rewrite Hy in E. rewrite E, !forallb_app, !andb_true_iff in Hd.
  destruct Hd as (Dc & Do & _ & Dcl & D1 & _ & D2 & _).
  rewrite (at_most_one_digit_free _ _ Oo Do (digit_not "(" eq_refl)) in E.
  rewrite (at_most_one_digit_free _ _ Oc Dcl (digit_not ")" eq_refl)) in E.
  rewrite (at_most_one_digit_free _ _ O1 D1 digit_not_sep) in E.
  rewrite (at_most_one_digit_free _ _ O2 D2 digit_not_sep) in E.
  cbn [app] in E. unfold phone_plain.
  destruct Hc as [-> | (sign & sp & -> & Os & Osp)].
  - cbn [app] in E. rewrite E, !length_app, La, Le, Ll. reflexivity.
  - rewrite forallb_app in Dc. cbn [forallb] in Dc. rewrite !andb_true_iff in Dc.
    destruct Dc as (Ds & _ & Dsp).
    rewrite (at_most_one_digit_free _ _ Os Ds (digit_not "+" eq_refl)) in E.
    rewrite (at_most_one_digit_free _ _ Osp Dsp digit_not_sep) in E.
    cbn [app] in E. rewrite E. cbn [List.length]. rewrite !length_app, La, Le, Ll.
    reflexivity.
Qed.

Lemma phone_on_digits (t : text) :
  forallb is_digit t = true ->
  out PATTERNS.PHONE_US None None t = (if phone_plain t then placeholder else t)
  /\ hits PATTERNS.PHONE_US None None t = (if phone_plain t then 1 else 0)%nat.
Proof.
  intros Hd. pose proof (digits_are_words t Hd) as Hw.
  destruct (phone_plain t) eqn:Hp.
  - exact (@word_run_hit PATTERNS.PHONE_US None PHONE_US_detector t Hw
             (phone_plain_matches t Hd Hp)).
  - apply (@word_run_miss PATTERNS.PHONE_US None PHONE_US_detector t Hw).
    destruct (match_at PATTERNS.PHONE_US (Cursor None t)) as [y|] eqn:M; [|reflexivity].
    destruct (@whole_match PATTERNS.PHONE_US PHONE_US_detector t Hw [] t y eq_refl M)
      as [_ Ey].
    rewrite (@phone_whole_plain t y Hd M) in Hp; [discriminate | now rewrite Ey].
Qed.

Lemma card_run (u : text) :
  forallb is_digit u = true ->
  forall q t,
  iter (Matches (digit ;; star_lazy (Chr (one_of " -")))%re) (List.length u)
    (Cursor q (u ++ t)) (Cursor (last_of q u) t).
Proof.
  induction u as [|c u IH]; intros H q t; cbn [iter List.length app].
  - reflexivity.
  - cbn [forallb] in H. apply andb_prop in H. destruct H as [Hc Hu].
    exists (Cursor (Some c) (u ++ t)). split.
    + exists (Cursor (Some c) (u ++ t)). split; [exists c, (u ++ t); auto|].
      exists 0%nat. split; [lia|]. split; [exact I | reflexivity].
    + rewrite last_of_cons. now apply IH.
Qed.

Lemma digits_verdict (t : text) :
  forallb is_digit t = true ->
  isValidCreditCard t = ((2 * Z.of_nat (List.length t)) mod 10 =? 0)%Z.
Proof.
  intros Hd. rewrite isValidCreditCard_counts. fold kept.
  change (List.length (filter kept t)) with (count_of kept t).
  rewrite card_kept, (count_of_all _ _ Hd); [reflexivity|].
  apply forallb_forall. intros ch Hch. rewrite forallb_forall in Hd.
  now rewrite (Hd ch Hch).
Qed.

Lemma card_on_digits (t : text) :
  forallb is_digit t = true ->
  out PATTERNS.CREDIT_CARD (Some isValidCreditCard) None t
  = (if (List.length t =? 15)%nat then placeholder else t)
  /\ hits PATTERNS.CREDIT_CARD (Some isValidCreditCard) None t
     = (if (List.length t =? 15)%nat then 1 else 0)%nat.
Proof.
  intros Hd. pose proof (digits_are_words t Hd) as Hw.
  destruct (match_at PATTERNS.CREDIT_CARD (Cursor None t)) as [y|] eqn:M.
  - destruct (@whole_match PATTERNS.CREDIT_CARD CREDIT_CARD_detector t Hw [] t y eq_refl M)
      as [_ Ey].
    destruct (card_shape _ _ M) as (u & Eu & _ & Cu & _).
    rewrite Ey in Eu. cbn [rest] in Eu. rewrite app_nil_r in Eu. subst u.
    rewrite (count_of_all _ _ Hd) in Cu.
    destruct (@word_run_hit PATTERNS.CREDIT_CARD (Some isValidCreditCard)
                CREDIT_CARD_detector t Hw) as [-> ->]; [congruence|].
    cbn [accepted]. rewrite (digits_verdict t Hd).
    destruct Cu as [C1 C2]. revert C1 C2. generalize (List.length t) as n. intros n C1 C2.
    assert (Hn : (n = 13 \/ n = 14 \/ n = 15 \/ n = 16 \/ n = 17 \/ n = 18 \/ n = 19)%nat)
      by lia.
    destruct Hn as [-> | [-> | [-> | [-> | [-> | [-> | ->]]]]]]; split; reflexivity.
  - destruct (@word_run_miss PATTERNS.CREDIT_CARD (Some isValidCreditCard)
                CREDIT_CARD_detector t Hw M) as [-> ->].
    destruct (Nat.eqb_spec (List.length t) 15) as [L|_]; [exfalso | auto].
    assert (Hm : match_at PATTERNS.CREDIT_CARD (Cursor None t) <> None); [|congruence].
    assert (Ht : t <> []) by (intros ->; discriminate).
    destruct (@last_of_in None t Ht) as (d & Ed & Hin).
    apply (@match_at_complete PATTERNS.CREDIT_CARD _ (Cursor (last_of None t) []) eq_refl).
    exists (Cursor None t). split.
    { split; [reflexivity|]. destruct t as [|c t]; [congruence|].
      cbn [forallb] in Hd. apply andb_prop in Hd. destruct Hd as [Hc _].
      unfold at_boundary, word_before, word_after. cbn. now rewrite (is_digit_word _ Hc). }
    exists (Cursor (last_of None t) []). split.
    + exists (List.length t). split; [lia|]. split; [lia|].
      pose proof (@card_run t Hd None []) as R. now rewrite app_nil_r in R.
    + split; [reflexivity|].
      unfold at_boundary, word_before, word_after. cbn [prev rest]. rewrite Ed.
      rewrite forallb_forall in Hw. now rewrite (Hw d Hin).
Qed.

(** X19: what a run does with an input that is a run of digits: ten
    digits, or eleven that begin with 1, are redacted as a phone number;
    fifteen digits are redacted as a card number; every other run of digits,
    a card number of 16 digits among them, comes back as it is with all
    counts 0. *)
Theorem digit_run_redaction (t : text) :
  forallb is_digit t = true ->
  redact t
  = if phone_plain t then
      {| redactedText := placeholder; totalRedactions := 1;
         redactionMap := [("ipv4", 0); ("email", 0); ("ssn_us", 0); ("phone_us", 1);
                          ("credit_card", 0)]%nat |}
    else if (List.length t =? 15)%nat then
      {| redactedText := placeholder; totalRedactions := 1;
         redactionMap := [("ipv4", 0); ("email", 0); ("ssn_us", 0); ("phone_us", 0);
                          ("credit_card", 1)]%nat |}
    else
      {| redactedText := t; totalRedactions := 0;
         redactionMap := [("ipv4", 0); ("email", 0); ("ssn_us", 0); ("phone_us", 0);
                          ("credit_card", 0)]%nat |}.
Proof.
  intros Hd. rewrite redact_eq.
  destruct (digits_early t Hd) as (E3 & -> & -> & ->).
  unfold card_count, phone_count, after_card, after_phone. rewrite E3.
  destruct (phone_on_digits t Hd) as [-> ->].
  destruct (phone_plain t).
  - pose proof (@placeholder_never_matches PATTERNS.CREDIT_CARD CREDIT_CARD_detector) as Q.
    rewrite (quiet_out (Some isValidCreditCard) Q), (quiet_hits (Some isValidCreditCard) Q).
    reflexivity.
  - destruct (card_on_digits t Hd) as [-> ->].
    destruct (List.length t =? 15)%nat; reflexivity.
Qed.

Lemma digit_run_redaction_witness :
  forallb is_digit (str "4231900164690061") = true
  /\ redact (str "4231900164690061")
     = {| redactedText := str "4231900164690061"; totalRedactions := 0;
          redactionMap := [("ipv4", 0); ("email", 0); ("ssn_us", 0); ("phone_us", 0);
                           ("credit_card", 0)]%nat |}.
Proof.
  split; [reflexivity|].
  exact (@digit_run_redaction (str "4231900164690061") eq_refl).
Defined.

(** ** Text between code units that a stage cannot read *)

Lemma ends_fenced_cases (ok : char -> bool) (pre : text) :
  ends_fenced ok pre = true ->
  pre = [] \/ exists a ch, pre = a ++ [ch] /\ ok ch = true.
Proof.
  intros H. destruct pre as [|c0 pre]; [now left | right].
  destruct (@exists_last _ (c0 :: pre) ltac:(discriminate)) as (a & ch & E).
  exists a, ch. split; [exact E|]. unfold ends_fenced in H.
  now rewrite E, last_of_last in H.
Qed.

Lemma ends_fenced_last (ok : char -> bool) (a : text) (ch : char) :
  ok ch = true -> ends_fenced ok (a ++ [ch]) = true.
Proof. intros H. unfold ends_fenced. now rewrite last_of_last. Qed.

Section Chunk.
Variable re : regex.
Variable validator : option (text -> bool).
Hypothesis Hre : detector_pattern re.
Variable ok : char -> bool.
Hypothesis Hok : forall ch, ok ch = true -> is_word ch = false /\ reads_any re ch = false.

(** A stage treats text that stands between two such code units, or at an
    end of the input, on its own. *)
Lemma stage_chunk (pre s post : text) :
  ends_fenced ok pre = true -> starts_fenced ok post = true ->
  out re validator None (pre ++ s ++ post)
  = out re validator None pre ++ out re validator None s ++ out re validator None post
  /\ hits re validator None (pre ++ s ++ post)
     = (hits re validator None pre + hits re validator None s
        + hits re validator None post)%nat
  /\ ends_fenced ok (out re validator None pre) = true
  /\ starts_fenced ok (out re validator None post) = true.
Proof.
  intros Hpre Hpost.
  assert (Hright : out re validator None (s ++ post)
                   = out re validator None s ++ out re validator None post
                   /\ hits re validator None (s ++ post)
                      = (hits re validator None s + hits re validator None post)%nat
                   /\ starts_fenced ok (out re validator None post) = true).
  { destruct post as [|c b].
    - rewrite app_nil_r, out_nil, hits_nil, app_nil_r, Nat.add_0_r by exact Hre. auto.
    - cbn in Hpost. destruct (@Hok c Hpost) as [Hw Hr].
      destruct (@stage_split re validator Hre c b Hw Hr s) as [-> ->].
      destruct (@stage_split re validator Hre c b Hw Hr []) as [E1 E2].
      cbn [app] in E1, E2. rewrite E1, E2, out_nil, hits_nil by exact Hre.
      cbn [app Nat.add starts_fenced]. auto. }
  destruct Hright as (Ro & Rh & Rf).
  destruct (@ends_fenced_cases ok pre Hpre) as [-> | (a & c & -> & Hc)].
  - cbn [app]. rewrite Ro, Rh, out_nil, hits_nil by exact Hre. cbn [app Nat.add]. auto.
  - destruct (@Hok c Hc) as [Hw Hr].
    rewrite <- !app_assoc. cbn [app].
    destruct (@stage_split re validator Hre c (s ++ post) Hw Hr a) as [-> ->].
    destruct (@stage_split re validator Hre c [] Hw Hr a) as [-> ->].
    rewrite Ro, Rh, out_nil, hits_nil by exact Hre.
    rewrite <- !app_assoc. cbn [app].
    split; [reflexivity|]. split; [lia|]. split; [|exact Rf].
    now apply ends_fenced_last.
Qed.
End Chunk.

Section PlaceholderSplit.
Variable re : regex.
Variable validator : option (text -> bool).
Hypothesis Hre : detector_pattern re.
Hypothesis Hopen : reads_any re (code "[") = false.
Hypothesis Hclose : reads_any re (code "]") = false.
Hypothesis Hword : quiet re None (str "REDACTED").

(** A stage leaves a placeholder where it is and treats the text before
    it and the text behind it each on its own. *)
Lemma stage_placeholder (X Y : text) :
  out re validator None (X ++ placeholder ++ Y)
  = out re validator None X ++ placeholder ++ out re validator None Y
  /\ hits re validator None (X ++ placeholder ++ Y)
     = (hits re validator None X + hits re validator None Y)%nat.
Proof.
  change (placeholder ++ Y) with (code "[" :: str "REDACTED" ++ code "]" :: Y).
  destruct (@stage_split re validator Hre (code "[") (str "REDACTED" ++ code "]" :: Y)
              eq_refl Hopen X) as [-> ->].
  destruct (@stage_split re validator Hre (code "]") Y eq_refl Hclose (str "REDACTED"))
    as [-> ->].
  rewrite (quiet_out validator Hword), (quiet_hits validator Hword).
  split; [reflexivity | lia].
Qed.
End PlaceholderSplit.

Lemma word_quiet (r : regex) :
  needs is_mark r -> well_formed r = true -> quiet r None (str "REDACTED").
Proof. intros Hn Hw. now apply (@needs_quiet is_mark). Qed.

Lemma email_placeholder (X Y : text) :
  out PATTERNS.EMAIL None None (X ++ placeholder ++ Y)
  = out PATTERNS.EMAIL None None X ++ placeholder ++ out PATTERNS.EMAIL None None Y
  /\ hits PATTERNS.EMAIL None None (X ++ placeholder ++ Y)
     = (hits PATTERNS.EMAIL None None X + hits PATTERNS.EMAIL None None Y)%nat.
Proof.
  apply stage_placeholder;
    [exact EMAIL_detector | reflexivity | reflexivity
    | exact (@word_quiet _ EMAIL_needs eq_refl)].
Qed.

Lemma ssn_placeholder (X Y : text) :
  out PATTERNS.SSN_US None None (X ++ placeholder ++ Y)
  = out PATTERNS.SSN_US None None X ++ placeholder ++ out PATTERNS.SSN_US None None Y
  /\ hits PATTERNS.SSN_US None None (X ++ placeholder ++ Y)
     = (hits PATTERNS.SSN_US None None X + hits PATTERNS.SSN_US None None Y)%nat.
Proof.
  apply stage_placeholder;
    [exact SSN_US_detector | reflexivity | reflexivity
    | exact (@word_quiet _ SSN_US_needs eq_refl)].
Qed.

Lemma phone_placeholder (X Y : text) :
  out PATTERNS.PHONE_US None None (X ++ placeholder ++ Y)
  = out PATTERNS.PHONE_US None None X ++ placeholder ++ out PATTERNS.PHONE_US None None Y
  /\ hits PATTERNS.PHONE_US None None (X ++ placeholder ++ Y)
     = (hits PATTERNS.PHONE_US None None X + hits PATTERNS.PHONE_US None None Y)%nat.
Proof.
  apply stage_placeholder;
    [exact PHONE_US_detector | reflexivity | reflexivity
    | exact (@word_quiet _ PHONE_US_needs eq_refl)].
Qed.

Lemma card_placeholder (X Y : text) :
  out PATTERNS.CREDIT_CARD (Some isValidCreditCard) None (X ++ placeholder ++ Y)
  = out PATTERNS.CREDIT_CARD (Some isValidCreditCard) None X ++ placeholder
    ++ out PATTERNS.CREDIT_CARD (Some isValidCreditCard) None Y
  /\ hits PATTERNS.CREDIT_CARD (Some isValidCreditCard) None (X ++ placeholder ++ Y)
     = (hits PATTERNS.CREDIT_CARD (Some isValidCreditCard) None X
        + hits PATTERNS.CREDIT_CARD (Some isValidCreditCard) None Y)%nat.
Proof.
  apply stage_placeholder;
    [exact CREDIT_CARD_detector | reflexivity | reflexivity
    | exact (@word_quiet _ CREDIT_CARD_needs eq_refl)].
Qed.

(** ** Addresses and numbers that are redacted *)

Ltac in_class :=
  first
    [ reflexivity
    | unfold is_digit, in_range; cbn; apply andb_true_intro; split; apply N.leb_le; lia ].

Lemma chr_step_to (p : char -> bool) (q : option char) (ch : char) (t : text) :
  p ch = true -> Matches (Chr p) (Cursor q (ch :: t)) (Cursor (Some ch) t).
Proof. intros H. exists ch, t. auto. Qed.

Lemma octet_digits (o : text) :
  octet_ok o = true -> forallb is_digit o = true /\ o <> [].
Proof.
  unfold octet_ok. rewrite !andb_true_iff. intros (((Hd & H1) & _) & _).
  split; [exact Hd|]. intros ->. discriminate.
Qed.

(** Every run of one to three digits of value at most 255 is an octet of
    the pattern. *)
Lemma octet_matches (o : text) (q : option char) (t : text) :
  octet_ok o = true -> Matches PATTERNS.octet (Cursor q (o ++ t)) (Cursor (last_of q o) t).
Proof.
  unfold octet_ok. rewrite !andb_true_iff. intros (((Hd & H1) & H3) & Hv).
  apply N.leb_le in Hv.
  destruct o as [|x [|y [|z [|w o]]]]; try discriminate; cbn [forallb] in Hd;
    rewrite ?andb_true_iff in Hd; unfold PATTERNS.octet; cbn [app].
  - destruct Hd as (Dx & _). right. right.
    exists (Cursor q (x :: t)). split; [apply opt_none|].
    exists (Cursor (Some x) t). split; [now apply chr_step_to | apply opt_none].
  - destruct Hd as (Dx & Dy & _). right. right.
    exists (Cursor q (x :: y :: t)). split; [apply opt_none|].
    exists (Cursor (Some x) (y :: t)). split; [now apply chr_step_to|].
    apply opt_one. now apply chr_step_to.
  - destruct Hd as (Dx & Dy & Dz & _).
    pose proof (in_range_bounds _ _ _ Dx) as Bx. pose proof (in_range_bounds _ _ _ Dy) as By.
    pose proof (in_range_bounds _ _ _ Dz) as Bz. cbn in Bx, By, Bz.
    unfold decimal in Hv. cbn [fold_left] in Hv.
    assert (Hc : (x = 48 \/ x = 49 \/ (x = 50 /\ y <= 52) \/ (x = 50 /\ y = 53 /\ z <= 53))%N)
      by lia.
    change (last_of q [x; y; z]) with (Some z).
    destruct Hc as [-> | [-> | [[-> Hy] | (-> & -> & Hz)]]].
    + right. right.
      exists (Cursor (Some 48%N) (y :: z :: t)).
      split; [apply opt_one; now apply chr_step_to|].
      exists (Cursor (Some y) (z :: t)). split; [now apply chr_step_to|].
      apply opt_one. now apply chr_step_to.
    + right. right.
      exists (Cursor (Some 49%N) (y :: z :: t)).
      split; [apply opt_one; now apply chr_step_to|].
      exists (Cursor (Some y) (z :: t)). split; [now apply chr_step_to|].
      apply opt_one. now apply chr_step_to.
    + right. left.
      exists (Cursor (Some 50%N) (y :: z :: t)). split; [now apply chr_step_to|].
      exists (Cursor (Some y) (z :: t)). split; [apply chr_step_to; in_class|].
      now apply chr_step_to.
    + left.
      exists (Cursor (Some 50%N) (53%N :: z :: t)). split; [now apply chr_step_to|].
      exists (Cursor (Some 53%N) (z :: t)). split; [now apply chr_step_to|].
      apply chr_step_to. in_class.
Qed.

Lemma split_at_dot (a a' r r' : text) :
  forallb is_digit a = true -> forallb is_digit a' = true ->
  a ++ dot :: r = a' ++ dot :: r' -> a = a' /\ r = r'.
Proof.
  revert a'. induction a as [|c a IH]; intros [|c' a'] Ha Ha' E; cbn [app forallb] in *.
  - injection E as ->. auto.
  - injection E as <- _. discriminate.
  - injection E as -> _. discriminate.
  - injection E as -> E. apply andb_prop in Ha, Ha'.
    destruct (IH a' (proj2 Ha) (proj2 Ha') E) as [-> ->]. auto.
Qed.

Lemma head_digit (o t : text) :
  o <> [] -> forallb is_digit o = true -> head_word (o ++ t) = true.
Proof.
  destruct o as [|c o]; [congruence|]. intros _ H. cbn [forallb] in H.
  apply andb_prop in H. cbn. now apply is_digit_word.
Qed.

Section Quad.
Variables o1 o2 o3 o4 : text.
Hypothesis H1 : octet_ok o1 = true.
Hypothesis H2 : octet_ok o2 = true.
Hypothesis H3 : octet_ok o3 = true.
Hypothesis H4 : octet_ok o4 = true.

Lemma quad_matches :
  match_at PATTERNS.IPV4 (Cursor None (o1 ++ dot :: o2 ++ dot :: o3 ++ dot :: o4)) <> None.
Proof.
  destruct (octet_digits o1 H1) as [D1 N1]. destruct (octet_digits o4 H4) as [D4 N4].
  set (q1 := last_of None o1). set (q2 := last_of (Some dot) o2).
  set (q3 := last_of (Some dot) o3). set (q4 := last_of (Some dot) o4).
  apply (@match_at_complete PATTERNS.IPV4 _ (Cursor q4 []) eq_refl).
  exists (Cursor None (o1 ++ dot :: o2 ++ dot :: o3 ++ dot :: o4)). split.
  { split; [reflexivity|].
    unfold at_boundary, word_before, word_after. cbn [prev rest].
    fold (head_word (o1 ++ dot :: o2 ++ dot :: o3 ++ dot :: o4)).
    now rewrite (head_digit _ N1 D1). }
  exists (Cursor (Some dot) (o4 ++ [])). split.
  - exists 3%nat. split; [lia|]. split; [lia|]. cbn [iter].
    exists (Cursor (Some dot) (o2 ++ dot :: o3 ++ dot :: o4 ++ [])). split.
    { exists (Cursor q1 (dot :: o2 ++ dot :: o3 ++ dot :: o4 ++ [])). split.
      - rewrite app_nil_r. now apply octet_matches.
      - now apply chr_step_to. }
    exists (Cursor (Some dot) (o3 ++ dot :: o4 ++ [])). split.
    { exists (Cursor q2 (dot :: o3 ++ dot :: o4 ++ [])). split.
      - now apply octet_matches.
      - now apply chr_step_to. }
    exists (Cursor (Some dot) (o4 ++ [])). split; [|reflexivity].
    exists (Cursor q3 (dot :: o4 ++ [])). split.
    + now apply octet_matches.
    + now apply chr_step_to.
  - exists (Cursor q4 []). split; [now apply octet_matches|].
    split; [reflexivity|].
    destruct (@last_of_in (Some dot) o4 N4) as (d & Ed & Hd).
    unfold at_boundary, word_before, word_after, q4. cbn [prev rest]. rewrite Ed.
    rewrite forallb_forall in D4. now rewrite (is_digit_word _ (D4 d Hd)).
Qed.

Lemma quad_whole (y : cursor) :
  match_at PATTERNS.IPV4 (Cursor None (o1 ++ dot :: o2 ++ dot :: o3 ++ dot :: o4)) = Some y ->
  rest y = [].
Proof.
  intros M.
  destruct (octet_digits o1 H1) as [D1 _]. destruct (octet_digits o2 H2) as [D2 _].
  destruct (octet_digits o3 H3) as [D3 _]. destruct (octet_digits o4 H4) as [D4 _].
  destruct (@ipv4_shape _ _ M) as (a & b & c & d & E & Ha & Hb & Hc & Hd).
  cbn [rest] in E.
  destruct (octet_digits a Ha) as [Da _]. destruct (octet_digits b Hb) as [Db _].
  destruct (octet_digits c Hc) as [Dc _]. destruct (octet_digits d Hd) as [Dd Nd].
  destruct (@split_at_dot _ _ _ _ D1 Da E) as [-> E1].
  destruct (@split_at_dot _ _ _ _ D2 Db E1) as [-> E2].
  destruct (@split_at_dot _ _ _ _ D3 Dc E2) as [-> E3].
  destruct (hit_facts IPV4_detector _ M) as (u & Hu & Hp & _ & _ & _ & He & _).
  cbn [rest prev] in Hu, Hp.
  destruct (rest y) as [|c0 v] eqn:Ey; [reflexivity | exfalso].
  assert (Eu : u = a ++ dot :: b ++ dot :: c ++ dot :: d).
  { apply (app_inv_tail (c0 :: v)). rewrite <- Hu, E3, <- !app_assoc. cbn [app].
    rewrite <- !app_assoc. cbn [app]. rewrite <- !app_assoc. reflexivity. }
  assert (Hlast : exists e, prev y = Some e /\ is_digit e = true).
  { destruct (@exists_last _ d Nd) as (w & e & Ew). exists e. split.
    - rewrite Hp, Eu, Ew.
      replace (a ++ dot :: b ++ dot :: c ++ dot :: w ++ [e])
        with ((a ++ dot :: b ++ dot :: c ++ dot :: w) ++ [e])
        by (rewrite <- !app_assoc; cbn [app]; rewrite <- !app_assoc; cbn [app];
            rewrite <- !app_assoc; reflexivity).
      apply last_of_last.
    - rewrite Ew, forallb_app in Dd. apply andb_prop in Dd. destruct Dd as [_ De].
      cbn in De. now rewrite andb_true_r in De. }
  destruct Hlast as (e & Ee & De).
  assert (Dc0 : is_digit c0 = true).
  { rewrite E3, forallb_app in D4. apply andb_prop in D4. destruct D4 as [_ D4].
    cbn [forallb] in D4. apply andb_prop in D4. exact (proj1 D4). }
  unfold at_boundary, word_before, word_after in He. rewrite Ee, Ey in He.
  rewrite (is_digit_word _ De), (is_digit_word _ Dc0) in He. discriminate.
Qed.

(** A dotted quad standing alone is replaced as a whole. *)
Lemma quad_alone :
  out PATTERNS.IPV4 None None (o1 ++ dot :: o2 ++ dot :: o3 ++ dot :: o4) = placeholder
  /\ hits PATTERNS.IPV4 None None (o1 ++ dot :: o2 ++ dot :: o3 ++ dot :: o4) = 1%nat.
Proof.
  pose proof quad_matches as Hm.
  destruct (match_at PATTERNS.IPV4
              (Cursor None (o1 ++ dot :: o2 ++ dot :: o3 ++ dot :: o4))) as [y|] eqn:M;
    [|congruence].
  pose proof (@quad_whole y M) as Ey.
  destruct (@hit_cursor PATTERNS.IPV4 IPV4_detector _ _ _ M) as (u & Hu & Eu & Hy).
  rewrite Ey in Eu, Hy. rewrite Hy, Eu in M.
  destruct (@out_hit PATTERNS.IPV4 None IPV4_detector None u [] Hu M) as [Ho Hh].
  rewrite Eu, Ho, Hh, out_nil, hits_nil by exact IPV4_detector. auto.
Qed.
End Quad.

Ltac kind_leaf H ch :=
  first
    [ discriminate H
    | apply is_char_eq in H; subst ch; reflexivity
    | unfold is_word; rewrite H, ?orb_true_r; reflexivity
    | apply in_range_bounds in H; cbn in H;
      let D := fresh "D" in
      assert (D : is_digit ch = true)
        by (unfold is_digit, in_range; apply andb_true_intro;
            split; apply N.leb_le; cbn; lia);
      unfold is_word; rewrite D, ?orb_true_r; reflexivity ].

Ltac kind_cases H ch :=
  unfold PATTERNS.email_local, PATTERNS.email_domain, one_of in H;
  cbn [existsb list_ascii_of_string] in H;
  repeat match type of H with
    | (_ || _) = true => apply orb_prop in H; destruct H as [H | H]
    end;
  kind_leaf H ch.

Lemma IPV4_reads (ch : char) :
  reads_any PATTERNS.IPV4 ch = true -> is_word ch || is_char "." ch = true.
Proof.
  intros H. cbn [reads_any PATTERNS.IPV4 PATTERNS.octet times opt lit] in H.
  kind_cases H ch.
Qed.

Lemma EMAIL_reads (ch : char) :
  reads_any PATTERNS.EMAIL ch = true -> is_word ch || one_of ".%+-@" ch = true.
Proof.
  intros H. cbn [reads_any PATTERNS.EMAIL plus at_least lit] in H. kind_cases H ch.
Qed.

Lemma SSN_US_reads (ch : char) :
  reads_any PATTERNS.SSN_US ch = true -> is_word ch || is_char "-" ch = true.
Proof.
  intros H. cbn [reads_any PATTERNS.SSN_US times opt lit digit] in H. kind_cases H ch.
Qed.

Lemma ip_fence_ok (ch : char) :
  ip_fence ch = true -> is_word ch = false /\ reads_any PATTERNS.IPV4 ch = false.
Proof.
  unfold ip_fence. intros H. apply negb_true_iff in H.
  split; [now apply orb_false_elim in H|].
  destruct (reads_any PATTERNS.IPV4 ch) eqn:E; [|reflexivity].
  apply IPV4_reads in E. congruence.
Qed.

Ltac run_placeholders :=
  match goal with
  | |- context [out PATTERNS.EMAIL None None (?X ++ placeholder ++ ?Y)] =>
      let E := fresh "E" in
      let C := fresh "C" in
      destruct (email_placeholder X Y) as [E C]; rewrite ?E, ?C; clear E C
  | _ => idtac
  end;
  match goal with
  | |- context [out PATTERNS.SSN_US None None (?X ++ placeholder ++ ?Y)] =>
      let E := fresh "E" in
      let C := fresh "C" in
      destruct (ssn_placeholder X Y) as [E C]; rewrite ?E, ?C; clear E C
  | _ => idtac
  end;
  match goal with
  | |- context [out PATTERNS.PHONE_US None None (?X ++ placeholder ++ ?Y)] =>
      let E := fresh "E" in
      let C := fresh "C" in
      destruct (phone_placeholder X Y) as [E C]; rewrite ?E, ?C; clear E C
  | _ => idtac
  end;
  match goal with
  | |- context [out PATTERNS.CREDIT_CARD (Some isValidCreditCard) None
                  (?X ++ placeholder ++ ?Y)] =>
      let E := fresh "E" in
      let C := fresh "C" in
      destruct (card_placeholder X Y) as [E C]; rewrite ?E, ?C; clear E C
  | _ => idtac
  end.

Ltac by_type :=
  let id := fresh "id" in
  let na := fresh "na" in
  let nb := fresh "nb" in
  let Ha := fresh "Ha" in
  let Hb := fresh "Hb" in
  intros id na nb; cbn [get];
  repeat match goal with
    | |- context [String.eqb ?k id] =>
        let E := fresh "E" in
        destruct (String.eqb k id) eqn:E;
        [ apply String.eqb_eq in E; subst id;
          cbn [String.eqb Ascii.eqb Bool.eqb andb get] |]
    end;
  intros Ha Hb; try discriminate;
  injection Ha as <-; injection Hb as <-; f_equal; clear; lia.

(** X20: an IPv4 address whose four parts are runs of one to three digits
    of value at most 255, standing at an end of the input or next to a code
    unit that is neither a word character nor a dot (a space, a comma, a
    colon ...), is replaced by the placeholder and counted as ipv4; the text
    before it and the text behind it are redacted each on its own. *)
Theorem ipv4_address_redacted (pre post o1 o2 o3 o4 : text) :
  octet_ok o1 = true -> octet_ok o2 = true -> octet_ok o3 = true -> octet_ok o4 = true ->
  ends_fenced ip_fence pre = true -> starts_fenced ip_fence post = true ->
  redactedText (redact (pre ++ (o1 ++ dot :: o2 ++ dot :: o3 ++ dot :: o4) ++ post))
  = redactedText (redact pre) ++ placeholder ++ redactedText (redact post)
  /\ totalRedactions (redact (pre ++ (o1 ++ dot :: o2 ++ dot :: o3 ++ dot :: o4) ++ post))
     = (totalRedactions (redact pre) + 1 + totalRedactions (redact post))%nat
  /\ forall id na nb,
       get id (redactionMap (redact pre)) = Some na ->
       get id (redactionMap (redact post)) = Some nb ->
       get id (redactionMap
                 (redact (pre ++ (o1 ++ dot :: o2 ++ dot :: o3 ++ dot :: o4) ++ post)))
       = Some (na + (if String.eqb "ipv4" id then 1 else 0) + nb)%nat.
Proof.
  intros H1 H2 H3 H4 Hpre Hpost. rewrite !redact_eq.
  cbn [redactedText totalRedactions redactionMap].
  unfold card_count, phone_count, ssn_count, email_count, ipv4_count,
         after_card, after_phone, after_ssn, after_email, after_ipv4.
  destruct (@stage_chunk PATTERNS.IPV4 None IPV4_detector ip_fence ip_fence_ok
              pre (o1 ++ dot :: o2 ++ dot :: o3 ++ dot :: o4) post Hpre Hpost)
    as (E1 & C1 & _).
  destruct (@quad_alone o1 o2 o3 o4 H1 H2 H3 H4) as [Eq Cq].
  rewrite Eq in E1. rewrite Cq in C1. rewrite E1, C1.
  run_placeholders.
  split; [reflexivity|]. split; [clear; lia | by_type].
Qed.

Lemma ipv4_address_redacted_witness :
  redactedText (redact (str "Server at " ++ (str "192" ++ dot :: str "168" ++ dot :: str "1"
                                              ++ dot :: str "1") ++ str " is down"))
  = redactedText (redact (str "Server at ")) ++ placeholder
    ++ redactedText (redact (str " is down")).
Proof.
  exact (proj1 (@ipv4_address_redacted (str "Server at ") (str " is down")
                  (str "192") (str "168") (str "1") (str "1")
                  eq_refl eq_refl eq_refl eq_refl eq_refl eq_refl)).
Defined.

Ltac look_none :=
  unfold match_at; cbn;
  repeat match goal with
    | H : is_digit ?c = true |- context [is_digit ?c] => rewrite H
    end;
  repeat match goal with
    | |- context [if ?b then _ else _] => destruct b eqn:?
    end;
  try reflexivity; exfalso;
  repeat match goal with
    | H : is_char _ _ = true |- _ => apply is_char_eq in H
    end;
  subst.

Lemma area_allowed (q : option char) (a1 a2 a3 : char) (t : text) :
  is_digit a2 = true -> is_digit a3 = true ->
  [a1; a2; a3] <> str "000" -> [a1; a2; a3] <> str "666" ->
  (forall w, [a1; a2; a3] <> code "9" :: w) ->
  match_at (lit "0" ;; lit "0" ;; lit "0"
            <|> lit "6" ;; lit "6" ;; lit "6"
            <|> lit "9" ;; times 2 digit)%re (Cursor q (a1 :: a2 :: a3 :: t)) = None.
Proof.
  intros D2 D3 H0 H6 H9. look_none;
    first [now apply H0 | now apply H6 | now apply (H9 _) | congruence].
Qed.

Lemma group_allowed (q : option char) (g1 g2 : char) (t : text) :
  [g1; g2] <> str "00" ->
  match_at (lit "0" ;; lit "0")%re (Cursor q (g1 :: g2 :: t)) = None.
Proof. intros H0. look_none; first [now apply H0 | congruence]. Qed.

Lemma serial_allowed (q : option char) (s1 s2 s3 s4 : char) (t : text) :
  [s1; s2; s3; s4] <> str "0000" ->
  match_at (lit "0" ;; lit "0" ;; lit "0" ;; lit "0")%re
    (Cursor q (s1 :: s2 :: s3 :: s4 :: t)) = None.
Proof. intros H0. look_none; first [now apply H0 | congruence]. Qed.

Section PlainSSN.
Variables area group serial : text.
Hypothesis La : List.length area = 3%nat.
Hypothesis Lg : List.length group = 2%nat.
Hypothesis Ls : List.length serial = 4%nat.
Hypothesis Da : forallb is_digit area = true.
Hypothesis Dg : forallb is_digit group = true.
Hypothesis Ds : forallb is_digit serial = true.
Hypothesis A000 : area <> str "000".
Hypothesis A666 : area <> str "666".
Hypothesis A9 : forall w, area <> code "9" :: w.
Hypothesis G00 : group <> str "00".
Hypothesis S0000 : serial <> str "0000".

Lemma ssn_matches :
  match_at PATTERNS.SSN_US (Cursor None (area ++ dash :: group ++ dash :: serial)) <> None.
Proof.
  revert La Lg Ls Da Dg Ds A000 A666 A9 G00 S0000.
  generalize area group serial. clear.
  intros [|a1 [|a2 [|a3 [|? ?]]]] [|g1 [|g2 [|? ?]]] [|s1 [|s2 [|s3 [|s4 [|? ?]]]]];
    try discriminate.
  intros _ _ _ Da Dg Ds A000 A666 A9 G00 S0000.
  cbn [forallb] in Da, Dg, Ds.
  repeat match goal with
    | H : (_ && _) = true |- _ =>
        let H' := fresh "D" in apply andb_prop in H; destruct H as [H' H]
    end.
  cbn [app].
  apply (@match_at_complete PATTERNS.SSN_US _ (Cursor (Some s4) []) eq_refl).
  set (t1 := dash :: g1 :: g2 :: dash :: [s1; s2; s3; s4]).
  set (t2 := dash :: [s1; s2; s3; s4]).
  assert (Hrun : forall u, Forall (fun ch => is_digit ch = true) u -> forallb is_digit u = true).
  { intros u Hu. apply forallb_forall. now apply Forall_forall. }
  exists (Cursor None (a1 :: a2 :: a3 :: t1)). split.
  { split; [reflexivity|]. unfold at_boundary, word_before, word_after. cbn.
    rewrite is_digit_word by assumption. reflexivity. }
  exists (Cursor None (a1 :: a2 :: a3 :: t1)). split.
  { split; [reflexivity | now apply area_allowed]. }
  exists (Cursor None (a1 :: a2 :: a3 :: t1)). split; [apply opt_none|].
  exists (Cursor (Some a3) t1). split.
  { apply (@times_run is_digit 3 [a1; a2; a3] None t1); [|reflexivity].
    apply Hrun. repeat constructor; assumption. }
  exists (Cursor (Some dash) (g1 :: g2 :: t2)). split; [now apply chr_step_to|].
  exists (Cursor (Some dash) (g1 :: g2 :: t2)). split.
  { split; [reflexivity | now apply group_allowed]. }
  exists (Cursor (Some dash) (g1 :: g2 :: t2)). split; [apply opt_none|].
  exists (Cursor (Some g2) t2). split.
  { apply (@times_run is_digit 2 [g1; g2] (Some dash) t2); [|reflexivity].
    apply Hrun. repeat constructor; assumption. }
  exists (Cursor (Some dash) [s1; s2; s3; s4]). split; [now apply chr_step_to|].
  exists (Cursor (Some dash) [s1; s2; s3; s4]). split.
  { split; [reflexivity | now apply serial_allowed]. }
  exists (Cursor (Some dash) [s1; s2; s3; s4]). split; [apply opt_none|].
  exists (Cursor (Some s4) []). split.
  { apply (@times_run is_digit 4 [s1; s2; s3; s4] (Some dash) []); [|reflexivity].
    apply Hrun. repeat constructor; assumption. }
  split; [reflexivity|]. unfold at_boundary, word_before, word_after. cbn.
  rewrite is_digit_word by assumption. reflexivity.
Qed.

(** A number in the plain form, standing alone, is replaced as a whole. *)
Lemma ssn_alone :
  out PATTERNS.SSN_US None None (area ++ dash :: group ++ dash :: serial) = placeholder
  /\ hits PATTERNS.SSN_US None None (area ++ dash :: group ++ dash :: serial) = 1%nat.
Proof.
  pose proof ssn_matches as Hm.
  destruct (match_at PATTERNS.SSN_US
              (Cursor None (area ++ dash :: group ++ dash :: serial))) as [y|] eqn:M;
    [|congruence].
  destruct (@hit_cursor PATTERNS.SSN_US SSN_US_detector _ _ _ M) as (u & Hu & Eu & Hy).
  rewrite Hy, Eu in M.
  pose proof (@hit_length PATTERNS.SSN_US SSN_US_detector _ _ _ M) as Hl.
  change (min_len PATTERNS.SSN_US) with 11%nat in Hl.
  assert (Ey : rest y = []).
  { apply (f_equal (@List.length char)) in Eu.
    rewrite !length_app in Eu. cbn [List.length] in Eu. rewrite !length_app in Eu.
    cbn [List.length] in Eu. rewrite La, Lg, Ls in Eu.
    destruct (rest y); [reflexivity | cbn [List.length] in Eu; lia]. }
  rewrite Ey in *.
  destruct (@out_hit PATTERNS.SSN_US None SSN_US_detector None u [] Hu M) as [Ho Hh].
  rewrite Eu, Ho, Hh, out_nil, hits_nil by exact SSN_US_detector. auto.
Qed.

(** The two detectors before leave it alone. *)
Lemma ssn_early :
  quiet PATTERNS.IPV4 None (area ++ dash :: group ++ dash :: serial)
  /\ quiet PATTERNS.EMAIL None (area ++ dash :: group ++ dash :: serial).
Proof.
  assert (H : forall a, is_digit (code a) = false -> is_char a dash = false ->
            count_of (is_char a) (area ++ dash :: group ++ dash :: serial) = 0%nat).
  { intros a Ha Hd.
    change (area ++ dash :: group ++ dash :: serial)
      with (area ++ [dash] ++ group ++ [dash] ++ serial).
    rewrite !count_of_app.
    rewrite (@count_of_none _ _ area Da (digit_not a Ha)).
    rewrite (@count_of_none _ _ group Dg (digit_not a Ha)).
    rewrite (@count_of_none _ _ serial Ds (digit_not a Ha)).
    unfold count_of. cbn [filter]. rewrite Hd. reflexivity. }
  split.
  - apply (@needs_quiet (is_char ".")); [exact IPV4_needs_dot | reflexivity |].
    now apply H.
  - apply (@needs_quiet (is_char "@")); [exact EMAIL_needs_at | reflexivity |].
    now apply H.
Qed.
End PlainSSN.

Lemma pii_fence_ok (ch : char) :
  pii_fence ch = true ->
  is_word ch = false
  /\ reads_any PATTERNS.IPV4 ch = false
  /\ reads_any PATTERNS.EMAIL ch = false
  /\ reads_any PATTERNS.SSN_US ch = false.
Proof.
  unfold pii_fence. intros H. apply negb_true_iff in H.
  apply orb_false_elim in H. destruct H as [Hw Ho].
  split; [exact Hw|]. repeat apply conj.
  - destruct (reads_any PATTERNS.IPV4 ch) eqn:E; [|reflexivity].
    apply IPV4_reads in E. rewrite Hw in E. cbn [orb] in E.
    apply is_char_eq in E. subst ch. discriminate.
  - destruct (reads_any PATTERNS.EMAIL ch) eqn:E; [|reflexivity].
    apply EMAIL_reads in E. rewrite Hw, Ho in E. discriminate.
  - destruct (reads_any PATTERNS.SSN_US ch) eqn:E; [|reflexivity].
    apply SSN_US_reads in E. rewrite Hw in E. cbn [orb] in E.
    apply is_char_eq in E. subst ch. discriminate.
Qed.

(** X21: a social security number in the plain form of three, two and
    four digits with dashes between them, none of its groups a value the
    pattern rules out, standing at an end of the input or next to a code
    unit that is neither a word character nor one of [.%+-@] (a space, a
    comma, a colon ...), is replaced by the placeholder and counted as
    ssn_us; the text before it and the text behind it are redacted each on
    its own. *)
Theorem ssn_number_redacted (pre post area group serial : text) :
  List.length area = 3%nat -> List.length group = 2%nat -> List.length serial = 4%nat ->
  forallb is_digit area = true -> forallb is_digit group = true ->
  forallb is_digit serial = true ->
  area <> str "000" -> area <> str "666" -> (forall w, area <> code "9" :: w) ->
  group <> str "00" -> serial <> str "0000" ->
  ends_fenced pii_fence pre = true -> starts_fenced pii_fence post = true ->
  redactedText (redact (pre ++ (area ++ dash :: group ++ dash :: serial) ++ post))
  = redactedText (redact pre) ++ placeholder ++ redactedText (redact post)
  /\ totalRedactions (redact (pre ++ (area ++ dash :: group ++ dash :: serial) ++ post))
     = (totalRedactions (redact pre) + 1 + totalRedactions (redact post))%nat
  /\ forall id na nb,
       get id (redactionMap (redact pre)) = Some na ->
       get id (redactionMap (redact post)) = Some nb ->
       get id (redactionMap
                 (redact (pre ++ (area ++ dash :: group ++ dash :: serial) ++ post)))
       = Some (na + (if String.eqb "ssn_us" id then 1 else 0) + nb)%nat.
Proof.
  intros La Lg Ls Da Dg Ds A000 A666 A9 G00 S0000 Hpre Hpost. rewrite !redact_eq.
  cbn [redactedText totalRedactions redactionMap].
  unfold card_count, phone_count, ssn_count, email_count, ipv4_count,
         after_card, after_phone, after_ssn, after_email, after_ipv4.
  destruct (@ssn_early area group serial Da Dg Ds) as [Q1 Q2].
  destruct (@ssn_alone area group serial La Lg Ls Da Dg Ds A000 A666 A9 G00 S0000)
    as [Es Cs].
  destruct (@stage_chunk PATTERNS.IPV4 None IPV4_detector pii_fence
              (fun ch H => conj (proj1 (pii_fence_ok ch H))
                             (proj1 (proj2 (pii_fence_ok ch H))))
              pre (area ++ dash :: group ++ dash :: serial) post Hpre Hpost)
    as (E1 & C1 & F1 & G1).
  rewrite (quiet_out None Q1) in E1. rewrite (quiet_hits None Q1) in C1.
  rewrite E1, C1.
  destruct (@stage_chunk PATTERNS.EMAIL None EMAIL_detector pii_fence
              (fun ch H => conj (proj1 (pii_fence_ok ch H))
                             (proj1 (proj2 (proj2 (pii_fence_ok ch H)))))
              (out PATTERNS.IPV4 None None pre)
              (area ++ dash :: group ++ dash :: serial)
              (out PATTERNS.IPV4 None None post) F1 G1)
    as (E2 & C2 & F2 & G2).
  rewrite (quiet_out None Q2) in E2. rewrite (quiet_hits None Q2) in C2.
  rewrite E2, C2.
  destruct (@stage_chunk PATTERNS.SSN_US None SSN_US_detector pii_fence
              (fun ch H => conj (proj1 (pii_fence_ok ch H))
                             (proj2 (proj2 (proj2 (pii_fence_ok ch H)))))
              (out PATTERNS.EMAIL None None (out PATTERNS.IPV4 None None pre))
              (area ++ dash :: group ++ dash :: serial)
              (out PATTERNS.EMAIL None None (out PATTERNS.IPV4 None None post)) F2 G2)
    as (E3 & C3 & _).
  rewrite Es in E3. rewrite Cs in C3. rewrite E3, C3.
  run_placeholders.
  split; [reflexivity|]. split; [clear; lia | by_type].
Qed.

Lemma ssn_number_redacted_witness :
  redactedText (redact (str "My SSN is " ++ (str "123" ++ dash :: str "45" ++ dash :: str "6789")
                        ++ str ", ok"))
  = redactedText (redact (str "My SSN is ")) ++ placeholder
    ++ redactedText (redact (str ", ok")).
Proof.
  refine (proj1 (@ssn_number_redacted (str "My SSN is ") (str ", ok")
                   (str "123") (str "45") (str "6789")
                   eq_refl eq_refl eq_refl eq_refl eq_refl eq_refl _ _ _ _ _
                   eq_refl eq_refl)); discriminate.
Defined.

Lemma split_first (x : char) (a : text) :
  forall a' r r',
  ~ In x a -> ~ In x r -> a ++ x :: r = a' ++ x :: r' -> a' = a /\ r' = r.
Proof.
  induction a as [|c a IH]; intros [|c' a'] r r' Ha Hr E; cbn [app] in E.
  - injection E as ->. auto.
  - injection E as <- E. exfalso. apply Hr. rewrite E. apply in_or_app. right. now left.
  - injection E as -> _. exfalso. apply Ha. now left.
  - injection E as <- E.
    destruct (IH a' r r' (fun H => Ha (or_intror H)) Hr E) as [-> ->]. auto.
Qed.

Lemma class_free (p : char -> bool) (x : char) (u : text) :
  forallb p u = true -> p x = false -> ~ In x u.
Proof.
  intros H Hx Hin. rewrite forallb_forall in H. rewrite (H x Hin) in Hx. discriminate.
Qed.

(** Every match of the IPv4 pattern holds three dots. *)
Lemma few_dots_quiet (s : text) :
  (count_of (is_char ".") s < 3)%nat -> quiet PATTERNS.IPV4 None s.
Proof.
  intros Hs a b E.
  destruct (match_at PATTERNS.IPV4 (Cursor (last_of None a) b)) as [y|] eqn:M;
    [exfalso | reflexivity].
  destruct (@ipv4_shape _ _ M) as (o1 & o2 & o3 & o4 & Eb & _). cbn [rest] in Eb.
  rewrite E, Eb in Hs.
  change (o1 ++ dot :: o2 ++ dot :: o3 ++ dot :: o4 ++ rest y)
    with (o1 ++ [dot] ++ o2 ++ [dot] ++ o3 ++ [dot] ++ o4 ++ rest y) in Hs.
  rewrite !count_of_app in Hs.
  change (count_of (is_char ".") [dot]) with 1%nat in Hs. lia.
Qed.

Section PlainEmail.
Variables local domain tld : text.
Hypothesis Ll : local <> [].
Hypothesis Fl : forallb PATTERNS.email_local local = true.
Hypothesis Wl : head_word local = true.
Hypothesis Dl : (count_of (is_char ".") local <= 1)%nat.
Hypothesis Ld : domain <> [].
Hypothesis Fd : forallb is_label domain = true.
Hypothesis Lt : (2 <= List.length tld)%nat.
Hypothesis Ft : forallb is_alpha tld = true.

Lemma label_domain : forallb PATTERNS.email_domain domain = true.
Proof.
  apply forallb_forall. intros ch Hch. rewrite forallb_forall in Fd.
  specialize (Fd ch Hch). unfold is_label in Fd. unfold PATTERNS.email_domain.
  apply orb_prop in Fd. destruct Fd as [H | H]; [now rewrite H|].
  apply is_char_eq in H. subst ch. reflexivity.
Qed.

Lemma tld_last : exists w e, tld = w ++ [e] /\ is_word e = true.
Proof.
  assert (Ht : tld <> []) by (intros E; rewrite E in Lt; simpl in Lt; lia).
  destruct (@exists_last _ tld Ht) as (w & e & E). exists w, e. split; [exact E|].
  pose proof Ft as F. rewrite E, forallb_app in F. apply andb_prop in F.
  destruct F as [_ F]. cbn in F. rewrite andb_true_r in F.
  unfold is_word. now rewrite F.
Qed.

Lemma email_matches :
  match_at PATTERNS.EMAIL (Cursor None (local ++ code "@" :: domain ++ dot :: tld)) <> None.
Proof.
  destruct tld_last as (w & e & Et & We).
  apply (@match_at_complete PATTERNS.EMAIL _
           (Cursor (last_of (Some dot) tld) []) eq_refl).
  exists (Cursor None (local ++ code "@" :: domain ++ dot :: tld ++ [])).
  rewrite app_nil_r. split.
  { split; [reflexivity|]. unfold at_boundary, word_before, word_after. cbn [prev rest].
    fold (head_word (local ++ code "@" :: domain ++ dot :: tld)).
    destruct local as [|c l]; [congruence | exact Wl]. }
  exists (Cursor (last_of None local) (code "@" :: domain ++ dot :: tld)). split.
  { exists (List.length local). split; [destruct local; [congruence | simpl; lia]|].
    split; [exact I | now apply iter_run]. }
  exists (Cursor (Some (code "@")) (domain ++ dot :: tld)). split; [now apply chr_step_to|].
  exists (Cursor (last_of (Some (code "@")) domain) (dot :: tld)). split.
  { exists (List.length domain). split; [destruct domain; [congruence | simpl; lia]|].
    split; [exact I | apply iter_run; exact label_domain]. }
  exists (Cursor (Some dot) (tld ++ [])). split.
  { rewrite app_nil_r. now apply chr_step_to. }
  exists (Cursor (last_of (Some dot) tld) []). split.
  { exists (List.length tld). split; [exact Lt|]. split; [exact I | now apply iter_run]. }
  split; [reflexivity|].
  unfold at_boundary, word_before, word_after. cbn [prev rest].
  now rewrite Et, last_of_last, We.
Qed.

Lemma email_whole (y : cursor) :
  match_at PATTERNS.EMAIL (Cursor None (local ++ code "@" :: domain ++ dot :: tld)) = Some y ->
  rest y = [].
Proof.
  intros M.
  destruct (@email_shape _ _ _ M) as (l' & d' & t' & E & _ & _ & _ & _ & Lt' & Ft' & _).
  destruct (hit_facts EMAIL_detector _ M) as (u & Hu & Hp & _ & _ & _ & He & _).
  cbn [rest prev] in Hu, Hp.
  assert (Hat : l' = local
                /\ d' ++ dot :: t' ++ rest y = domain ++ dot :: tld).
  { apply (@split_first (code "@")); [| |exact E].
    - exact (@class_free PATTERNS.email_local (code "@") local Fl eq_refl).
    - intros Hin. apply in_app_or in Hin. destruct Hin as [Hin | [Hin | Hin]].
      + exact (@class_free is_label (code "@") domain Fd eq_refl Hin).
      + discriminate.
      + exact (@class_free is_alpha (code "@") tld Ft eq_refl Hin). }
  destruct Hat as [-> E2].
  assert (Hdot : d' = domain /\ t' ++ rest y = tld).
  { apply (@split_first dot); [| |symmetry; exact E2].
    - exact (@class_free is_label dot domain Fd eq_refl).
    - exact (@class_free is_alpha dot tld Ft eq_refl). }
  destruct Hdot as [-> E3].
  destruct (rest y) as [|c0 v] eqn:Ey; [reflexivity | exfalso].
  assert (Ht' : t' <> []) by (intros E0; rewrite E0 in Lt'; simpl in Lt'; lia).
  destruct (@exists_last _ t' Ht') as (w & e & Ew).
  assert (Eu : u = (local ++ code "@" :: domain ++ dot :: w) ++ [e]).
  { apply (app_inv_tail (c0 :: v)). rewrite <- Hu, <- E3, Ew.
    repeat (rewrite <- app_assoc; cbn [app]). reflexivity. }
  pose proof Ft as F. rewrite <- E3, Ew, !forallb_app in F. cbn [forallb] in F.
  rewrite !andb_true_iff in F. destruct F as ((_ & Fe & _) & Fc & _).
  unfold at_boundary, word_before, word_after in He. rewrite Hp, Eu, last_of_last, Ey in He.
  unfold is_word in He. rewrite Fe, Fc in He. discriminate.
Qed.

Lemma email_alone :
  out PATTERNS.EMAIL None None (local ++ code "@" :: domain ++ dot :: tld) = placeholder
  /\ hits PATTERNS.EMAIL None None (local ++ code "@" :: domain ++ dot :: tld) = 1%nat.
Proof.
  pose proof email_matches as Hm.
  destruct (match_at PATTERNS.EMAIL
              (Cursor None (local ++ code "@" :: domain ++ dot :: tld))) as [y|] eqn:M;
    [|congruence].
  pose proof (@email_whole y M) as Ey.
  destruct (@hit_cursor PATTERNS.EMAIL EMAIL_detector _ _ _ M) as (u & Hu & Eu & Hy).
  rewrite Ey in Eu, Hy. rewrite Hy, Eu in M.
  destruct (@out_hit PATTERNS.EMAIL None EMAIL_detector None u [] Hu M) as [Ho Hh].
  rewrite Eu, Ho, Hh, out_nil, hits_nil by exact EMAIL_detector. auto.
Qed.

Lemma email_early : quiet PATTERNS.IPV4 None (local ++ code "@" :: domain ++ dot :: tld).
Proof.
  apply few_dots_quiet.
  change (local ++ code "@" :: domain ++ dot :: tld)
    with (local ++ [code "@"] ++ domain ++ [dot] ++ tld).
  rewrite !count_of_app.
  assert (Hl : forall ch, is_label ch = true -> is_char "." ch = false).
  { intros ch H. destruct (is_char "." ch) eqn:E; [|reflexivity].
    apply is_char_eq in E. subst ch. discriminate. }
  assert (Ha : forall ch, is_alpha ch = true -> is_char "." ch = false).
  { intros ch H. destruct (is_char "." ch) eqn:E; [|reflexivity].
    apply is_char_eq in E. subst ch. discriminate. }
  rewrite (@count_of_none _ _ domain Fd Hl), (@count_of_none _ _ tld Ft Ha).
  change (count_of (is_char ".") [code "@"]) with 0%nat.
  change (count_of (is_char ".") [dot]) with 1%nat. lia.
Qed.
End PlainEmail.

(** X22: an e-mail address local@domain.tld whose local part begins with a
    word character and holds at most one dot, whose domain is one label of
    letters and dashes and whose top-level domain has at least two letters,
    standing at an end of the input or next to a code unit that is neither a
    word character nor one of [.%+-@], is replaced by the placeholder and
    counted as email; the text before it and the text behind it are redacted
    each on its own. *)
Theorem email_address_redacted (pre post local domain tld : text) :
  local <> [] -> forallb PATTERNS.email_local local = true -> head_word local = true ->
  (count_of (is_char ".") local <= 1)%nat ->
  domain <> [] -> forallb is_label domain = true ->
  (2 <= List.length tld)%nat -> forallb is_alpha tld = true ->
  ends_fenced pii_fence pre = true -> starts_fenced pii_fence post = true ->
  redactedText (redact (pre ++ (local ++ code "@" :: domain ++ dot :: tld) ++ post))
  = redactedText (redact pre) ++ placeholder ++ redactedText (redact post)
  /\ totalRedactions (redact (pre ++ (local ++ code "@" :: domain ++ dot :: tld) ++ post))
     = (totalRedactions (redact pre) + 1 + totalRedactions (redact post))%nat
  /\ forall id na nb,
       get id (redactionMap (redact pre)) = Some na ->
       get id (redactionMap (redact post)) = Some nb ->
       get id (redactionMap
                 (redact (pre ++ (local ++ code "@" :: domain ++ dot :: tld) ++ post)))
       = Some (na + (if String.eqb "email" id then 1 else 0) + nb)%nat.
Proof.
  intros Ll Fl Wl Dl Ld Fd Lt Ft Hpre Hpost. rewrite !redact_eq.
  cbn [redactedText totalRedactions redactionMap].
  unfold card_count, phone_count, ssn_count, email_count, ipv4_count,
         after_card, after_phone, after_ssn, after_email, after_ipv4.
  pose proof (@email_early local domain tld Dl Fd Lt Ft) as Q1.
  destruct (@email_alone local domain tld Ll Fl Wl Dl Ld Fd Lt Ft) as [Es Cs].
  destruct (@stage_chunk PATTERNS.IPV4 None IPV4_detector pii_fence
              (fun ch H => conj (proj1 (pii_fence_ok ch H))
                             (proj1 (proj2 (pii_fence_ok ch H))))
              pre (local ++ code "@" :: domain ++ dot :: tld) post Hpre Hpost)
    as (E1 & C1 & F1 & G1).
  rewrite (quiet_out None Q1) in E1. rewrite (quiet_hits None Q1) in C1.
  rewrite E1, C1.
  destruct (@stage_chunk PATTERNS.EMAIL None EMAIL_detector pii_fence
              (fun ch H => conj (proj1 (pii_fence_ok ch H))
                             (proj1 (proj2 (proj2 (pii_fence_ok ch H)))))
              (out PATTERNS.IPV4 None None pre)
              (local ++ code "@" :: domain ++ dot :: tld)
              (out PATTERNS.IPV4 None None post) F1 G1)
    as (E2 & C2 & _).
  rewrite Es in E2. rewrite Cs in C2. rewrite E2, C2.
  run_placeholders.
  split; [reflexivity|]. split; [clear; lia | by_type].
Qed.

Lemma email_address_redacted_witness :
  redactedText (redact (str "Contact " ++ (str "john.doe" ++ code "@" :: str "example"
                                             ++ dot :: str "com") ++ str ", please"))
  = redactedText (redact (str "Contact ")) ++ placeholder
    ++ redactedText (redact (str ", please")).
Proof.
  refine (proj1 (@email_address_redacted (str "Contact ") (str ", please")
                   (str "john.doe") (str "example") (str "com")
                   _ eq_refl eq_refl _ _ eq_refl _ eq_refl eq_refl eq_refl));
    first [discriminate | apply Nat.leb_le; reflexivity].
Defined.
